(** * Vacaciones: the vacation-scheduling calendar

    A shallow embedding of the date helpers ([formatYMD], [parseYMD],
    [daysBetween], [rangesOverlap]), of the month grid ([monthDays]), of
    the range selection ([onDayClick], [clearSelection]) and of the store
    operations ([tryAssign], [removeEmployee], [employeeById]) of the
    [App] component, followed by the properties of the specification
    that concern them. *)

From stdpp Require Import gmap strings list fin_maps numbers relations.
From Stdlib Require Import ZArith Lia Ascii DecimalString DecimalN DecimalPos.

Local Open Scope Z_scope.

Ltac Zify.zify_post_hook ::= Z.to_euclidean_division_equations.

(** ** The ECMAScript built-ins the component relies on *)

Module Js.

(** A JavaScript number.  The program only ever computes with integers
    and with [NaN]; integers are kept exact (every time value of a valid
    Date is below 2^53 in magnitude). *)
Inductive num : Type :=
  | NaN
  | Num (z : Z).

Global Instance num_eq_dec : EqDecision num.
Proof. solve_decision. Defined.

Definition num_add (a b : num) : num :=
  match a, b with
  | Num x, Num y => Num (x + y)
  | _, _ => NaN
  end.

Definition num_sub (a b : num) : num :=
  match a, b with
  | Num x, Num y => Num (x - y)
  | _, _ => NaN
  end.


(** [a < b] and [a <= b]: false as soon as one side is [NaN]. *)
Definition num_lt (a b : num) : bool :=
  match a, b with
  | Num x, Num y => bool_decide (x < y)
  | _, _ => false
  end.

Definition num_le (a b : num) : bool :=
  match a, b with
  | Num x, Num y => bool_decide (x ≤ y)
  | _, _ => false
  end.

(** [Math.round(a / d)] for a positive integer divisor [d]: the
    quotient rounded to the nearest integer, halves going up. *)
Definition round_div (a : num) (d : Z) : num :=
  match a with
  | Num x => Num ((2 * x + d) `div` (2 * d))
  | NaN => NaN
  end.

(** [String(n)] for [NaN] or an integer (below 10^21 in magnitude,
    where JavaScript still writes all the digits). *)
Definition digits (n : N) : string := NilZero.string_of_uint (N.to_uint n).

Definition ToString (a : num) : string :=
  match a with
  | NaN => "NaN"
  | Num z => if bool_decide (z < 0) then "-" +:+ digits (Z.to_N (- z))
             else digits (Z.to_N z)
  end.

(** [Number(s)] on the strings the program can produce: a run of
    decimal digits (leading zeros allowed) is its value and the empty
    string is 0.  Every other string is [NaN] here; the further literal
    forms JavaScript accepts (surrounding blanks, a sign, a fraction, an
    exponent, a radix prefix) never reach [Number] from [formatYMD]. *)
Definition Number (s : string) : num :=
  match NilEmpty.uint_of_string s with
  | Some u => Num (Z.of_N (N.of_uint u))
  | None => NaN
  end.

(** [s.padStart(n, pad)]. *)
Fixpoint fill (k : nat) (pad cur : string) : string :=
  match k with
  | O => ""
  | S k' =>
      match cur with
      | EmptyString =>
          match pad with
          | EmptyString => ""
          | String c rest => String c (fill k' pad rest)
          end
      | String c rest => String c (fill k' pad rest)
      end
  end.

Definition padStart (n : nat) (pad s : string) : string :=
  if bool_decide (n ≤ String.length s)%nat then s
  else if bool_decide (pad = "") then s
  else fill (n - String.length s) pad pad +:+ s.

(** [s.split(sep)] for a one-character separator. *)
Fixpoint split (sep : ascii) (s : string) : list string :=
  match s with
  | EmptyString => [""]
  | String c rest =>
      if bool_decide (c = sep) then "" :: split sep rest
      else match split sep rest with
           | piece :: more => String c piece :: more
           | [] => [String c ""]
           end
  end.

(** *** Day numbers and the proleptic Gregorian calendar
    (ECMAScript, "Time Values and Time Range" to "Week Day"). *)

Definition msPerDay : Z := 86400000.

Definition DayFromYear (y : Z) : Z :=
  365 * (y - 1970) + (y - 1969) `div` 4 - (y - 1901) `div` 100
  + (y - 1601) `div` 400.

Definition InLeapYear (y : Z) : bool :=
  if bool_decide (y `mod` 4 ≠ 0) then false
  else if bool_decide (y `mod` 100 ≠ 0) then true
  else if bool_decide (y `mod` 400 ≠ 0) then false
  else true.

Definition DaysInYear (y : Z) : Z := if InLeapYear y then 366 else 365.

(** The year a day number falls in: the largest [y] with
    [DayFromYear y <= n] (see [YearFromDay_spec]). *)
Definition YearFromDay (n : Z) : Z :=
  let y := 1970 + (400 * n) `div` 146097 in
  if bool_decide (n < DayFromYear y) then y - 1
  else if bool_decide (DayFromYear (y + 1) ≤ n) then y + 1
  else y.

Definition DayWithinYear (n : Z) : Z := n - DayFromYear (YearFromDay n).

(** Day within the year on which month [mn] (0..11) starts. *)
Definition monthStart (leap : bool) (mn : Z) : Z :=
  let l := if leap then 1 else 0 in
  if bool_decide (mn ≤ 0) then 0
  else if bool_decide (mn = 1) then 31
  else if bool_decide (mn = 2) then 59 + l
  else if bool_decide (mn = 3) then 90 + l
  else if bool_decide (mn = 4) then 120 + l
  else if bool_decide (mn = 5) then 151 + l
  else if bool_decide (mn = 6) then 181 + l
  else if bool_decide (mn = 7) then 212 + l
  else if bool_decide (mn = 8) then 243 + l
  else if bool_decide (mn = 9) then 273 + l
  else if bool_decide (mn = 10) then 304 + l
  else 334 + l.

Definition MonthFromDay (n : Z) : Z :=
  let leap := InLeapYear (YearFromDay n) in
  let d := DayWithinYear n in
  if bool_decide (d < monthStart leap 1) then 0
  else if bool_decide (d < monthStart leap 2) then 1
  else if bool_decide (d < monthStart leap 3) then 2
  else if bool_decide (d < monthStart leap 4) then 3
  else if bool_decide (d < monthStart leap 5) then 4
  else if bool_decide (d < monthStart leap 6) then 5
  else if bool_decide (d < monthStart leap 7) then 6
  else if bool_decide (d < monthStart leap 8) then 7
  else if bool_decide (d < monthStart leap 9) then 8
  else if bool_decide (d < monthStart leap 10) then 9
  else if bool_decide (d < monthStart leap 11) then 10
  else 11.

Definition DateFromDay (n : Z) : Z :=
  DayWithinYear n - monthStart (InLeapYear (YearFromDay n)) (MonthFromDay n) + 1.

Definition WeekDay (n : Z) : Z := (n + 4) `mod` 7.

(** [MakeDay(year, month, date)]: the day number of the [date]-th day of
    month [month] of [year], months and days outside their usual range
    carrying over.  The arguments are exact integers; a day outside the
    range of Date is turned into an invalid Date by [TimeClip]. *)
Definition MakeDay (year month date : Z) : Z :=
  let ym := year + month `div` 12 in
  let mn := month `mod` 12 in
  DayFromYear ym + monthStart (InLeapYear ym) mn + date - 1.

(** *** Date objects

    Every Date that reaches the helpers is the start of a local day:
    the component builds them with [new Date(y, m, d)] (and, in
    [today], with [setHours(0, 0, 0, 0)]).  Such a Date is represented
    by its local day number, the number of days from 1970-01-01 in the
    local calendar, from which [getFullYear], [getMonth], [getDate] and
    [getDay] read their fields.  Its time value (milliseconds since the
    epoch, UTC) is the local time minus the offset of the host's time
    zone.  That offset is the one parameter of the host: [tzOffsetAt n]
    is the offset, in milliseconds, that the constructor applies to
    local midnight of local day [n].

    This is the Date of a host on which every local day has a start.
    On a host that skips a local day (its offset jumping by a whole
    day) the Date asked for on the skipped day carries the fields of
    the day after; such hosts are not represented, and the properties
    of the grid assume [steadyOffsets], which excludes them. *)

Class TimeZone := tzOffsetAt : Z → Z.

Inductive Date : Type :=
  | InvalidDate
  | LocalMidnight (day : Z).

Global Instance Date_eq_dec : EqDecision Date.
Proof. solve_decision. Defined.

Definition maxTime : Z := 8640000000000000.

Section host.
Context {tz : TimeZone}.

Definition timeOfDay (n : Z) : Z := msPerDay * n - tzOffsetAt n.

(** [TimeClip]. *)
Definition TimeClip (n : Z) : Date :=
  if bool_decide (Z.abs (timeOfDay n) ≤ maxTime) then LocalMidnight n
  else InvalidDate.

(** [new Date(year, month, date)], with the two-digit-year rule of the
    constructor: a year from 0 to 99 stands for 1900 + year. *)
Definition newDate (year month date : num) : Date :=
  match year, month, date with
  | Num y, Num m, Num dt =>
      let yr := if bool_decide (0 ≤ y ≤ 99) then 1900 + y else y in
      TimeClip (MakeDay yr m dt)
  | _, _, _ => InvalidDate
  end.

(** [d.valueOf()], which is what [<], [<=] and [-] see of a Date. *)
Definition valueOf (d : Date) : num :=
  match d with
  | InvalidDate => NaN
  | LocalMidnight n => Num (timeOfDay n)
  end.

Definition date_lt (a b : Date) : bool := num_lt (valueOf a) (valueOf b).
Definition date_le (a b : Date) : bool := num_le (valueOf a) (valueOf b).
End host.

Definition getFullYear (d : Date) : num :=
  match d with
  | InvalidDate => NaN
  | LocalMidnight n => Num (YearFromDay n)
  end.

Definition getMonth (d : Date) : num :=
  match d with
  | InvalidDate => NaN
  | LocalMidnight n => Num (MonthFromDay n)
  end.

Definition getDate (d : Date) : num :=
  match d with
  | InvalidDate => NaN
  | LocalMidnight n => Num (DateFromDay n)
  end.

Definition getDay (d : Date) : num :=
  match d with
  | InvalidDate => NaN
  | LocalMidnight n => Num (WeekDay n)
  end.

End Js.

Import Js.

(** ** Date helpers of the component *)

(** The argument of [formatYMD] is a string or a Date. *)
Inductive dateArg : Type :=
  | OfString (s : string)
  | OfDate (d : Date).

Definition formatYMD (d : dateArg) : string :=
  match d with
  | OfString s => s
  | OfDate d =>
      let yyyy := getFullYear d in
      let mm := padStart 2 "0" (ToString (num_add (getMonth d) (Num 1))) in
      let dd := padStart 2 "0" (ToString (getDate d)) in
      ToString yyyy +:+ "-" +:+ mm +:+ "-" +:+ dd
  end.

Section helpers.
Context {tz : TimeZone}.

(** [const [y, m, d] = s.split("-").map(Number)]: a piece that is
    missing is [undefined], which the Date constructor reads as NaN. *)
Definition parseYMD (s : string) : Date :=
  let pieces := Number <$> split "-" s in
  let y := default NaN (pieces !! 0%nat) in
  let m := default NaN (pieces !! 1%nat) in
  let d := default NaN (pieces !! 2%nat) in
  newDate y (num_sub m (Num 1)) d.

Definition daysBetween (a b : string) : num :=
  let da := parseYMD a in
  let db := parseYMD b in
  round_div (num_sub (valueOf db) (valueOf da)) (24 * 3600 * 1000).

Definition rangesOverlap (aStart aEnd bStart bEnd : string) : bool :=
  negb (date_lt (parseYMD aEnd) (parseYMD bStart)
        || date_lt (parseYMD bEnd) (parseYMD aStart)).
End helpers.

(** ** The month grid ([monthDays]) *)

(** A slot of the grid: a date string, or [None] for JavaScript's [null]. *)
Abbreviation slot := (option string).

Section grid.
Context {tz : TimeZone}.
Variables viewYear viewMonth : Z.

(** [formatYMD(new Date(viewYear, viewMonth, dayCounter))]. *)
Definition dayCell (dayCounter : Z) : slot :=
  Some (formatYMD (OfDate (newDate (Num viewYear) (Num viewMonth) (Num dayCounter)))).

(** Body of the first loop, [for (let i = 0; i < 7; i++)], on the
    pair of the week being filled and [dayCounter]. *)
Definition firstWeekStep (firstWeekday : num) (st : list slot * Z) (i : nat)
    : list slot * Z :=
  let '(week, dayCounter) := st in
  if num_lt (Num (Z.of_nat i)) firstWeekday then (<[i := None]> week, dayCounter)
  else (<[i := dayCell dayCounter]> week, dayCounter + 1).

(** The inner loop of the later weeks,
    [for (let i = 0; i < 7 && dayCounter <= daysInMonth; i++)]:
    [k] is [7 - i], so [i < 7] reads [k] is a successor. *)
Fixpoint fillWeek (daysInMonth : num) (k i : nat) (w : list slot) (dayCounter : Z)
    : list slot * Z :=
  match k with
  | O => (w, dayCounter)
  | S k' =>
      if num_le (Num dayCounter) daysInMonth
      then fillWeek daysInMonth k' (S i) (<[i := dayCell dayCounter]> w) (dayCounter + 1)
      else (w, dayCounter)
  end.

(** [while (dayCounter <= daysInMonth)].  [None] when the fuel runs
    out before the loop condition fails. *)
Fixpoint laterWeeks (fuel : nat) (daysInMonth : num) (weeks : list (list slot))
    (dayCounter : Z) : option (list (list slot)) :=
  if num_le (Num dayCounter) daysInMonth then
    match fuel with
    | O => None
    | S fuel' =>
        let '(w, dayCounter') :=
          fillWeek daysInMonth 7 0 (replicate 7 None) dayCounter in
        laterWeeks fuel' daysInMonth (weeks ++ [w]) dayCounter'
    end
  else Some weeks.

(** Every turn of the [while] loop places at least one day, so the
    number of days of the month bounds the number of turns. *)
Definition weeksFuel (daysInMonth : num) : nat :=
  match daysInMonth with
  | Num n => Z.to_nat n
  | NaN => O
  end.

Definition monthDays : option (list (list slot)) :=
  let firstOfMonth := newDate (Num viewYear) (Num viewMonth) (Num 1) in
  let firstWeekday := getDay firstOfMonth in
  let daysInMonth := getDate (newDate (Num viewYear) (Num (viewMonth + 1)) (Num 0)) in
  let weeks := [] in
  let '(week, dayCounter) :=
    foldl (firstWeekStep firstWeekday) (replicate 7 None, 1) (seq 0 7) in
  let weeks := weeks ++ [week] in
  laterWeeks (weeksFuel daysInMonth) daysInMonth weeks dayCounter.
End grid.

(** ** Component state, selection and store operations *)

(** A cached employee record; the placeholder of [employeeById] is the
    one record without an [id]. *)
Record Employee : Type := {
  emp_id : option string;
  emp_name : string;
  emp_color : string
}.

Record EmployeeData : Type := { name : string; color : string }.

Record VacationData : Type := {
  employeeId : string;
  start : string;
  end_ : string
}.

Global Instance EmployeeData_eq_dec : EqDecision EmployeeData.
Proof. solve_decision. Defined.

Global Instance VacationData_eq_dec : EqDecision VacationData.
Proof. solve_decision. Defined.

(** The [useState] cells the operations read or write.  [db] tells
    whether the Firestore handle has been set. *)
Record State : Type := {
  employees : list Employee;
  selectStart : option string;
  selectEnd : option string;
  assignEmployeeId : option string;
  message : option string;
  db : bool
}.

Definition setSelectStart (v : option string) (s : State) : State :=
  {| employees := employees s; selectStart := v; selectEnd := selectEnd s;
     assignEmployeeId := assignEmployeeId s; message := message s; db := db s |}.

Definition setSelectEnd (v : option string) (s : State) : State :=
  {| employees := employees s; selectStart := selectStart s; selectEnd := v;
     assignEmployeeId := assignEmployeeId s; message := message s; db := db s |}.

Definition setAssignEmployeeId (v : option string) (s : State) : State :=
  {| employees := employees s; selectStart := selectStart s; selectEnd := selectEnd s;
     assignEmployeeId := v; message := message s; db := db s |}.

Definition setMessage (v : option string) (s : State) : State :=
  {| employees := employees s; selectStart := selectStart s; selectEnd := selectEnd s;
     assignEmployeeId := assignEmployeeId s; message := v; db := db s |}.

(** The state of a freshly mounted component. *)
Definition initialState : State :=
  {| employees := []; selectStart := None; selectEnd := None;
     assignEmployeeId := None; message := None; db := false |}.

(** Truthiness of a value that is [null] or a string. *)
Definition truthy (v : option string) : bool :=
  match v with
  | Some s => negb (bool_decide (s = ""))
  | None => false
  end.

(** The string behind a value known to be truthy. *)
Definition str (v : option string) : string := default "" v.

Section selection.
Context {tz : TimeZone}.

Definition onDayClick (dateStr : option string) (s : State) : State :=
  if negb (truthy dateStr) then s
  else if negb (truthy (selectStart s)) then
    setMessage None (setSelectEnd None (setSelectStart dateStr s))
  else if truthy (selectStart s) && negb (truthy (selectEnd s)) then
    if date_lt (parseYMD (str dateStr)) (parseYMD (str (selectStart s)))
    then setSelectStart dateStr (setSelectEnd (selectStart s) s)
    else setSelectEnd dateStr s
  else setSelectEnd None (setSelectStart dateStr s).
End selection.

Definition clearSelection (s : State) : State :=
  setMessage None (setAssignEmployeeId None (setSelectEnd None (setSelectStart None s))).

(** The document store: two collections keyed by document id. *)
Record Store : Type := {
  employeesCol : gmap string EmployeeData;
  vacationsCol : gmap string VacationData
}.

Inductive request : Type :=
  | AddVacation (v : VacationData)
  | DeleteEmployee (id : string)
  | DeleteVacation (id : string).

(** What a request does to the store once it resolves.  [addDoc] stores
    the record under a document id that is not in use. *)
Definition exec (r : request) (st : Store) : Store :=
  match r with
  | AddVacation v =>
      {| employeesCol := employeesCol st;
         vacationsCol := <[fresh (dom (vacationsCol st)) := v]> (vacationsCol st) |}
  | DeleteEmployee id =>
      {| employeesCol := delete id (employeesCol st);
         vacationsCol := vacationsCol st |}
  | DeleteVacation id =>
      {| employeesCol := employeesCol st;
         vacationsCol := delete id (vacationsCol st) |}
  end.

(** [getDocs(query(vacations, where("employeeId", "==", empId)))]. *)
Definition vacationsOf (empId : string) (st : Store) : list (string * VacationData) :=
  map_to_list (filter (λ kv, employeeId kv.2 = empId) (vacationsCol st)).

(** How an awaited store call ends: the promise resolves, or it
    rejects and control passes to the [catch] block. *)
Inductive outcome : Type :=
  | Resolved
  | Rejected.

Record World : Type := { app : State; store : Store }.

(** [tryAssign], up to the return of the handler; the timer that
    clears the success message later is left out. *)
Definition tryAssign (addDoc : outcome) (w : World) : World :=
  let s := app w in
  if negb (truthy (selectStart s)) || negb (truthy (selectEnd s)) then
    {| app := setMessage (Some "Selecciona un rango válido (start y end).") s;
       store := store w |}
  else if negb (truthy (assignEmployeeId s)) then
    {| app := setMessage (Some "Selecciona un empleado al que asignar esas vacaciones.") s;
       store := store w |}
  else if negb (db s) then
    {| app := setMessage (Some "Error: No se puede conectar a la base de datos.") s;
       store := store w |}
  else
    let newStart := selectStart s in
    let newEnd := selectEnd s in
    let newVac := {| employeeId := str (assignEmployeeId s);
                     start := str newStart; end_ := str newEnd |} in
    match addDoc with
    | Resolved =>
        {| app := setMessage (Some "Vacaciones asignadas correctamente.") (clearSelection s);
           store := exec (AddVacation newVac) (store w) |}
    | Rejected =>
        {| app := setMessage (Some "Error al asignar vacaciones. Intenta de nuevo.") s;
           store := store w |}
    end.

(** [removeEmployee]: the awaited calls ([deleteDoc] of the employee,
    [getDocs]) have taken effect in the resulting store; the deletions
    started by [forEach(async ...)] are not awaited and are returned as
    the requests still in flight. *)
Definition removeEmployee (deleteDoc getDocs : outcome) (empId : string) (w : World)
    : World * list request :=
  if negb (db (app w)) then (w, [])
  else
    match deleteDoc with
    | Rejected => (w, [])
    | Resolved =>
        let st := exec (DeleteEmployee empId) (store w) in
        match getDocs with
        | Rejected => ({| app := app w; store := st |}, [])
        | Resolved =>
            ({| app := app w; store := st |},
             (λ d, DeleteVacation d.1) <$> vacationsOf empId st)
        end
    end.

(** Requests in flight resolve one at a time, in any order. *)
Inductive settle : Store * list request → Store * list request → Prop :=
  | settle_one st before r after :
      settle (st, before ++ r :: after) (exec r st, before ++ after).

(** [e.id === id] for an [id] that may be [null]. *)
Definition strict_eq (a b : option string) : bool :=
  match a, b with
  | Some x, Some y => bool_decide (x = y)
  | _, _ => false
  end.

Definition placeholder : Employee :=
  {| emp_id := None; emp_name := "Desconocido"; emp_color := "gray" |}.

Definition employeeById (s : State) (id : option string) : Employee :=
  default placeholder (List.find (λ e, strict_eq (emp_id e) id) (employees s)).

(** ** The calendar the specification speaks of *)

(** Gregorian leap years and month lengths, stated on their own. *)
Definition leapYear (y : Z) : bool :=
  bool_decide ((y `mod` 4 = 0 ∧ y `mod` 100 ≠ 0) ∨ y `mod` 400 = 0).

(** Days of month [m] (0 = January .. 11 = December) of year [y]. *)
Definition monthLength (y m : Z) : Z :=
  if bool_decide (m = 1) then (if leapYear y then 29 else 28)
  else if bool_decide (m = 3 ∨ m = 5 ∨ m = 8 ∨ m = 10) then 30
  else 31.

(** The text of a calendar date, written out digit by digit: the year
    as it is (a minus sign before a negative year, no padding), then
    the month (1..12) and the day, each with two digits. *)
Definition digit (k : Z) : ascii :=
  if bool_decide (k = 0) then "0"
  else if bool_decide (k = 1) then "1"
  else if bool_decide (k = 2) then "2"
  else if bool_decide (k = 3) then "3"
  else if bool_decide (k = 4) then "4"
  else if bool_decide (k = 5) then "5"
  else if bool_decide (k = 6) then "6"
  else if bool_decide (k = 7) then "7"
  else if bool_decide (k = 8) then "8"
  else "9".

(** The decimal numeral of [n], written in front of [rest]; [fuel]
    bounds the number of digits. *)
Fixpoint numeral (fuel : nat) (n : Z) (rest : string) : string :=
  match fuel with
  | O => rest
  | S fuel' =>
      let rest' := String (digit (n `mod` 10)) rest in
      if bool_decide (n < 10) then rest' else numeral fuel' (n `div` 10) rest'
  end.

Definition decimal (n : Z) : string := numeral (S (Z.to_nat (Z.log2 n))) n "".

Definition yearText (y : Z) : string :=
  if bool_decide (y < 0) then String "-" (decimal (- y)) else decimal y.

Definition twoDigits (k : Z) : string :=
  String (digit (k `div` 10)) (String (digit (k `mod` 10)) "").

Definition dateText (y m d : Z) : string :=
  yearText y +:+ "-" +:+ twoDigits m +:+ "-" +:+ twoDigits d.

(** The dates of a month, first to last. *)
Definition calendarDates (y m : Z) : list string :=
  (λ d, dateText y (m + 1) d) <$> seqZ 1 (monthLength y m).

(** The number of a calendar date, counted in days from 1 January
    1970: 365 days for every year before it and one more for every
    leap year among them, the lengths of the months before it in its
    year, and its day of the month (month 1..12). *)
Definition leapsBefore (y : Z) : Z :=
  (y - 1) `div` 4 - (y - 1) `div` 100 + (y - 1) `div` 400.

Definition daysBeforeYear (y : Z) : Z :=
  365 * (y - 1970) + (leapsBefore y - leapsBefore 1970).

Definition daysBeforeMonth (y m : Z) : Z :=
  foldr Z.add 0 (monthLength y <$> seqZ 0 (m - 1)).

Definition calendarDay (y m d : Z) : Z :=
  daysBeforeYear y + daysBeforeMonth y m + (d - 1).

(** The dates the helpers are specified for: a day of the calendar in
    a year from 100 on, all of whose days lie within the range of
    Date. *)
Definition calendarDate (y m d : Z) : Prop :=
  100 ≤ y ≤ 275759 ∧ 1 ≤ m ≤ 12 ∧ 1 ≤ d ≤ monthLength y (m - 1).

(** The order of the calendar: by year, then month, then day. *)
Definition earlier (y1 m1 d1 y2 m2 d2 : Z) : Prop :=
  y1 < y2 ∨ y1 = y2 ∧ (m1 < m2 ∨ m1 = m2 ∧ d1 < d2).

(** The day of the week of a calendar date by Zeller's congruence,
    Sunday = 0 (month 1..12). *)
Definition zeller (y m d : Z) : Z :=
  let y' := if bool_decide (m ≤ 2) then y - 1 else y in
  let m' := if bool_decide (m ≤ 2) then m + 12 else m in
  let K := y' `mod` 100 in
  let J := y' `div` 100 in
  (d + (13 * (m' + 1)) `div` 5 + K + K `div` 4 + J `div` 4 + 5 * J + 6) `mod` 7.

(** The non-empty slots of a grid, in reading order. *)
Definition filled (weeks : list (list slot)) : list string :=
  omap id (concat weeks).

(** The view cursors the grid is specified for: a month 0..11 of a
    year all of whose days lie within the range of Date, the years 0 to
    99 apart, which the Date constructor does not take as they are. *)
Definition validView (y m : Z) : Prop :=
  (-271820 ≤ y < 0 ∨ 99 < y ≤ 275759) ∧ 0 ≤ m ≤ 11.

(** The final row as the specification words it: no empty slot after
    the month's last day. *)
Definition finalRowUnpadded (weeks : list (list slot)) : Prop :=
  ∀ row, last weeks = Some row → last row ≠ Some None.

(** ** Hosts *)

(** What the properties ask of the host's time zone: its offsets stay
    within a day of UTC, and any two of them differ by less than half a
    day (a daylight-saving change moves the offset by an hour). *)
Definition boundedOffsets (tz : TimeZone) : Prop :=
  ∀ n, Z.abs (tzOffsetAt n) ≤ msPerDay.

Definition steadyOffsets (tz : TimeZone) : Prop :=
  ∀ a b, 2 * Z.abs (tzOffsetAt a - tzOffsetAt b) < msPerDay.

(** Two hosts: UTC, and Central European Time around its 2024 summer
    time: the local midnights from 1 April 2024 (day 19814) to 27
    October 2024 (day 20023) are two hours ahead of UTC, all others one
    hour. *)
Definition utc : TimeZone := λ _, 0.

Definition cet2024 : TimeZone :=
  λ n, if bool_decide (19814 ≤ n ≤ 20023) then 7200000 else 3600000.

(** ** Selection and assignment *)

(** The selection as the pair the specification writes [{start, end}]. *)
Definition selection (s : State) : option string * option string :=
  (selectStart s, selectEnd s).

(** The guards of [tryAssign], in the specification's words: a complete
    selection, a chosen employee and an available store. *)
Definition assignable (s : State) : bool :=
  truthy (selectStart s) && truthy (selectEnd s)
  && truthy (assignEmployeeId s) && db s.

Section normalized.
Context {tz : TimeZone}.

(** A selection whose end does not precede its start. *)
Definition normalized (s : State) : Prop :=
  truthy (selectStart s) = true → truthy (selectEnd s) = true →
  date_lt (parseYMD (str (selectEnd s))) (parseYMD (str (selectStart s))) = false.
End normalized.

(** ** Notions used in the proofs *)

(** The text the component composes for the fields [y], [m] (1..12)
    and [d] with its own primitives, as [formatYMD] does; it is the
    text of the date ([ymd_dateText]). *)
Definition ymd (y m d : Z) : string :=
  ToString (Num y) +:+ "-" +:+ padStart 2 "0" (ToString (Num m))
  +:+ "-" +:+ padStart 2 "0" (ToString (Num d)).

(** The texts composed for the days of a month, first to last. *)
Definition monthDates (y m : Z) : list string :=
  (λ d, ymd y (m + 1) d) <$> seqZ 1 (monthLength y m).

(** The digits of [n], the last one first, as a numeral of the
    Standard Library. *)
Definition digitOnto (k : Z) (rest : Decimal.uint) : Decimal.uint :=
  if bool_decide (k = 0) then Decimal.D0 rest
  else if bool_decide (k = 1) then Decimal.D1 rest
  else if bool_decide (k = 2) then Decimal.D2 rest
  else if bool_decide (k = 3) then Decimal.D3 rest
  else if bool_decide (k = 4) then Decimal.D4 rest
  else if bool_decide (k = 5) then Decimal.D5 rest
  else if bool_decide (k = 6) then Decimal.D6 rest
  else if bool_decide (k = 7) then Decimal.D7 rest
  else if bool_decide (k = 8) then Decimal.D8 rest
  else Decimal.D9 rest.

Fixpoint lastFirst (fuel : nat) (n : Z) : Decimal.uint :=
  match fuel with
  | O => Decimal.Nil
  | S fuel' =>
      digitOnto (n `mod` 10)
        (if bool_decide (n < 10) then Decimal.Nil else lastFirst fuel' (n `div` 10))
  end.

(** Strings without the separator of [parseYMD]. *)
Fixpoint noDash (s : string) : bool :=
  match s with
  | EmptyString => true
  | String c rest => negb (bool_decide (c = "-"%char)) && noDash rest
  end.

(** A one- or two-digit field survives zero padding and [Number]. *)
Definition fieldOk (k : Z) : Prop :=
  Number (padStart 2 "0" (ToString (Num k))) = Num k
  ∧ noDash (padStart 2 "0" (ToString (Num k))) = true.

(** What holds of the store and of the deletions in flight while the
    vacations of employee [empId] are being removed; [orig] is the
    vacation collection when [removeEmployee] was called. *)
Definition cascading (empId : string) (orig : gmap string VacationData)
    (c : Store * list request) : Prop :=
  employeesCol c.1 !! empId = None
  ∧ Forall (λ r, ∃ id v, r = DeleteVacation id ∧ orig !! id = Some v
                         ∧ employeeId v = empId) c.2
  ∧ (∀ id v, vacationsCol c.1 !! id = Some v → employeeId v = empId →
             DeleteVacation id ∈ c.2)
  ∧ (∀ id v, orig !! id = Some v → employeeId v ≠ empId →
             vacationsCol c.1 !! id = Some v).

(** ** Sample data *)

(** An employee with two vacations, a complete selection, the store
    available. *)
Definition ana : Employee :=
  {| emp_id := Some "e1"; emp_name := "Ana"; emp_color := "red" |}.

Definition readyWorld : World :=
  {| app := {| employees := [ana]; selectStart := Some "2024-03-30";
               selectEnd := Some "2024-04-01"; assignEmployeeId := Some "e1";
               message := None; db := true |};
     store := {| employeesCol := {["e1" := {| name := "Ana"; color := "red" |}]};
                 vacationsCol :=
                   {["v1" := {| employeeId := "e1"; start := "2024-03-30";
                                end_ := "2024-04-01" |};
                     "v2" := {| employeeId := "e1"; start := "2024-05-01";
                                end_ := "2024-05-03" |}]} |} |}.

(** ** Further parts of the component *)

(** *** [today] and the view cursor *)

(** [today()]: the text of the current day.  [nowDay] is the local day
    number of the instant [new Date()] returns; [setHours(0, 0, 0, 0)]
    moves that instant to the start of its local day. *)
Definition today (nowDay : Z) : string :=
  let d := LocalMidnight nowDay in
  formatYMD (OfDate d).

(** The view cursor, [(viewYear, viewMonth)], and the handlers of the
    three navigation buttons.  In each handler the later call of a
    setter is the one that takes effect. *)
Definition prevMonth (view : Z * Z) : Z * Z :=
  let '(viewYear, viewMonth) := view in
  if bool_decide (viewMonth - 1 < 0) then (viewYear - 1, 11)
  else (viewYear, viewMonth - 1).

Definition nextMonth (view : Z * Z) : Z * Z :=
  let '(viewYear, viewMonth) := view in
  if bool_decide (viewMonth + 1 > 11) then (viewYear + 1, 0)
  else (viewYear, viewMonth + 1).

Definition goToday (nowDay : Z) : Z * Z :=
  (YearFromDay nowDay, MonthFromDay nowDay).

(** *** [randomPastel] *)

(** [h] is the value of [Math.floor(Math.random() * 360)], an integer
    from 0 to 359. *)
Definition randomPastel (h : Z) : string :=
  let c1 := "hsl(" +:+ ToString (Num h) +:+ " 60% 80%)" in
  let c2 := "hsl(" +:+ ToString (Num ((h + 30) `mod` 360)) +:+ " 60% 70%)" in
  "linear-gradient(90deg, " +:+ c1 +:+ ", " +:+ c2 +:+ ")".

(** *** [String.prototype.trim]

    A string is the sequence of the UTF-8 bytes of its text.  The white
    space and the line terminators of ECMAScript are U+0009 to U+000D
    and U+0020 (one byte), U+00A0 (two bytes), and U+1680, U+2000 to
    U+200A, U+2028, U+2029, U+202F, U+205F, U+3000 and U+FEFF (three
    bytes). *)
Definition isWs1 (a : ascii) : bool :=
  let n := nat_of_ascii a in
  ((9 <=? n)%nat && (n <=? 13)%nat) || (n =? 32)%nat.

Definition isWs2 (a b : ascii) : bool :=
  (nat_of_ascii a =? 194)%nat && (nat_of_ascii b =? 160)%nat.

Definition isWs3 (a b c : ascii) : bool :=
  let x := nat_of_ascii a in
  let y := nat_of_ascii b in
  let z := nat_of_ascii c in
  ((x =? 225) && (y =? 154) && (z =? 128))%nat
  || ((x =? 226) && (y =? 128)
      && (((128 <=? z) && (z <=? 138)) || (z =? 168) || (z =? 169) || (z =? 175)))%nat
  || ((x =? 226) && (y =? 129) && (z =? 159))%nat
  || ((x =? 227) && (y =? 128) && (z =? 128))%nat
  || ((x =? 239) && (y =? 187) && (z =? 191))%nat.

Fixpoint trimStart (s : string) : string :=
  match s with
  | EmptyString => ""
  | String a r1 =>
      if isWs1 a then trimStart r1
      else match r1 with
           | EmptyString => s
           | String b r2 =>
               if isWs2 a b then trimStart r2
               else match r2 with
                    | EmptyString => s
                    | String c r3 => if isWs3 a b c then trimStart r3 else s
                    end
           end
  end.

(** A string made of white space only. *)
Definition allWs (s : string) : bool := bool_decide (trimStart s = "").

(** The string up to the first place from which only white space
    follows. *)
Fixpoint trimEnd (s : string) : string :=
  match s with
  | EmptyString => ""
  | String a r => if allWs s then "" else String a (trimEnd r)
  end.

Definition trim (s : string) : string := trimEnd (trimStart s).

(** *** [addEmployee], [removeVacation] *)

(** The effect of [addDoc] on the employees collection. *)
Definition addEmployeeDoc (e : EmployeeData) (st : Store) : Store :=
  {| employeesCol := <[fresh (dom (employeesCol st)) := e]> (employeesCol st);
     vacationsCol := vacationsCol st |}.

(** [addEmployee]: the world and the [newEmployeeName] cell after the
    handler; [hue] is the random draw of [randomPastel]. *)
Definition addEmployee (hue : Z) (addDoc : outcome) (newEmployeeName : string)
    (w : World) : World * string :=
  if negb (db (app w)) then (w, newEmployeeName)
  else
    let name := trim newEmployeeName in
    if bool_decide (name = "") then (w, newEmployeeName)
    else
      let newEmp := {| name := name; color := randomPastel hue |} in
      match addDoc with
      | Resolved => ({| app := app w; store := addEmployeeDoc newEmp (store w) |}, "")
      | Rejected => (w, newEmployeeName)
      end.

Definition removeVacation (deleteDoc : outcome) (vacId : string) (w : World) : World :=
  if negb (db (app w)) then w
  else
    match deleteDoc with
    | Resolved => {| app := app w; store := exec (DeleteVacation vacId) (store w) |}
    | Rejected => w
    end.

(** *** Snapshots and [vacationsCovering] *)

(** A cached vacation record, [{ id: doc.id, ...doc.data() }]. *)
Record Vacation : Type := {
  vac_id : string;
  vac_employeeId : string;
  vac_start : string;
  vac_end : string
}.

(** The lists the two [onSnapshot] handlers build from the documents of
    a snapshot, in the order in which the store hands them over. *)
Definition employeesSnapshot (st : Store) : list Employee :=
  (λ d, {| emp_id := Some d.1; emp_name := name d.2; emp_color := color d.2 |})
  <$> map_to_list (employeesCol st).

Definition vacationsSnapshot (st : Store) : list Vacation :=
  (λ d, {| vac_id := d.1; vac_employeeId := employeeId d.2;
           vac_start := start d.2; vac_end := end_ d.2 |})
  <$> map_to_list (vacationsCol st).

Definition setEmployees (v : list Employee) (s : State) : State :=
  {| employees := v; selectStart := selectStart s; selectEnd := selectEnd s;
     assignEmployeeId := assignEmployeeId s; message := message s; db := db s |}.

(** The employees handler run on the current store. *)
Definition onEmployeesSnapshot (w : World) : World :=
  {| app := setEmployees (employeesSnapshot (store w)) (app w); store := store w |}.

Section covering.
Context {tz : TimeZone}.

(** [vacationsCovering]; [vacations] is the cached list. *)
Definition vacationsCovering (vacations : list Vacation) (date : option string)
    : list Vacation :=
  if negb (truthy date) then []
  else List.filter
         (λ v, date_le (parseYMD (vac_start v)) (parseYMD (str date))
               && date_le (parseYMD (str date)) (parseYMD (vac_end v)))
         vacations.

(** *** [cellClasses] *)

Definition baseClass : string :=
  "p-1 rounded-lg text-white relative overflow-hidden h-28 cursor-pointer hover:bg-white/5 transition-colors duration-150 ease-in-out".
Definition todayClass : string := "border border-dashed border-sky-400/50".
Definition startClass : string := "ring-2 ring-blue-300 ring-offset-2 ring-offset-slate-900".
Definition endClass : string := "ring-2 ring-green-300 ring-offset-2 ring-offset-slate-900".
Definition rangeClass : string := "bg-white/5".

(** The array [classes] of [cellClasses] when the slot holds a date. *)
Definition cellClassList (nowDay : Z) (dateStr : string) (s : State) : list string :=
  let classes := [baseClass] in
  let classes :=
    if bool_decide (dateStr = today nowDay) then classes ++ [todayClass] else classes in
  let classes :=
    if truthy (selectStart s)
       && (negb (truthy (selectEnd s)) && strict_eq (Some dateStr) (selectStart s))
    then classes ++ [startClass] else classes in
  if truthy (selectStart s) && truthy (selectEnd s) then
    let classes :=
      if date_le (parseYMD (str (selectStart s))) (parseYMD dateStr)
         && date_le (parseYMD dateStr) (parseYMD (str (selectEnd s)))
      then classes ++ [rangeClass] else classes in
    let classes :=
      if strict_eq (Some dateStr) (selectStart s) then classes ++ [startClass]
      else classes in
    if strict_eq (Some dateStr) (selectEnd s) then classes ++ [endClass] else classes
  else classes.

(** [classes.join(" ")]. *)
Fixpoint join (sep : string) (l : list string) : string :=
  match l with
  | [] => ""
  | [x] => x
  | x :: rest => x +:+ sep +:+ join sep rest
  end.

Definition cellClasses (nowDay : Z) (dateStr : option string) (s : State) : string :=
  if negb (truthy dateStr) then "pointer-events-none"
  else join " " (cellClassList nowDay (str dateStr) s).
End covering.

(** ** Notions used in the further properties *)

(** The shape of a selection: no end without a start. *)
Definition wellFormed (s : State) : Prop :=
  truthy (selectEnd s) = true → truthy (selectStart s) = true.

(** A string that begins with no white space. *)
Definition cleanStart (s : string) : bool :=
  match s with
  | EmptyString => true
  | String a r1 =>
      negb (isWs1 a)
      && match r1 with
         | EmptyString => true
         | String b r2 =>
             negb (isWs2 a b)
             && match r2 with
                | EmptyString => true
                | String c _ => negb (isWs3 a b c)
                end
         end
  end.

(** Strings without a blank. *)
Fixpoint noSpace (s : string) : bool :=
  match s with
  | EmptyString => true
  | String c rest => negb (bool_decide (c = " "%char)) && noSpace rest
  end.

(** The array [classes] by the outcome of the tests of [cellClasses]:
    today, a start chosen alone, a complete selection and, within it,
    in range, on the start, on the end. *)
Definition classesBy (isToday onlyStart complete inRange isStart isEnd : bool)
    : list string :=
  baseClass
  :: (if isToday then [todayClass] else [])
  ++ (if onlyStart then [startClass] else [])
  ++ (if complete
      then (if inRange then [rangeClass] else [])
           ++ (if isStart then [startClass] else [])
           ++ (if isEnd then [endClass] else [])
      else []).

(** The number of rows a month needs: the days before the first of the
    month and the days of the month, in weeks of seven, rounded up. *)
Definition rowCount (y m : Z) : Z := (zeller y (m + 1) 1 + monthLength y m + 6) `div` 7.

(** ** Proof tactics *)

(** Replace [monthStart] at a known leap flag and month by its value. *)
Ltac eval_monthStart :=
  repeat match goal with
    | |- context [monthStart ?l ?k] =>
        let v := eval vm_compute in (monthStart l k) in
        progress change (monthStart l k) with v
    end.

(** Split a month index known to lie in 0..11 into its twelve values. *)
Ltac month_cases m :=
  let H := fresh "Hcases" in
  assert (m = 0 ∨ m = 1 ∨ m = 2 ∨ m = 3 ∨ m = 4 ∨ m = 5 ∨ m = 6 ∨ m = 7
          ∨ m = 8 ∨ m = 9 ∨ m = 10 ∨ m = 11) as H by lia;
  repeat (destruct H as [-> | H]); [.. | subst m].

(** * Properties *)

(** ** Calendar arithmetic *)

Lemma DayFromYear_succ y : DayFromYear (y + 1) = DayFromYear y + DaysInYear y.
Proof.
  unfold DayFromYear, DaysInYear, InLeapYear.
  repeat case_bool_decide; lia.
Qed.

Lemma YearFromDay_spec n :
  DayFromYear (YearFromDay n) ≤ n < DayFromYear (YearFromDay n + 1).
Proof.
  unfold YearFromDay, DayFromYear.
  repeat case_bool_decide; lia.
Qed.

Lemma YearFromDay_unique y n :
  DayFromYear y ≤ n < DayFromYear (y + 1) → YearFromDay n = y.
Proof.
  intros Hy. pose proof (YearFromDay_spec n) as Hn.
  revert Hy Hn. generalize (YearFromDay n) as Y. intros Y.
  unfold DayFromYear. lia.
Qed.

Lemma InLeapYear_leapYear y : InLeapYear y = leapYear y.
Proof.
  unfold InLeapYear, leapYear. repeat case_bool_decide; try done; lia.
Qed.

Lemma monthLength_monthStart y m :
  0 ≤ m ≤ 10 →
  monthStart (InLeapYear y) (m + 1)
  = monthStart (InLeapYear y) m + monthLength y m.
Proof.
  intros Hm. unfold monthLength. rewrite <- InLeapYear_leapYear.
  month_cases m; try (exfalso; lia); destruct (InLeapYear y); reflexivity.
Qed.

Lemma monthLength_december y :
  DaysInYear y = monthStart (InLeapYear y) 11 + monthLength y 11.
Proof. unfold DaysInYear. destruct (InLeapYear y); reflexivity. Qed.

Lemma monthLength_bounds y m : 28 ≤ monthLength y m ≤ 31.
Proof. unfold monthLength. repeat case_match; lia. Qed.

Lemma MonthFromDay_within leap m w :
  0 ≤ m ≤ 11 → monthStart leap m ≤ w →
  (m < 11 → w < monthStart leap (m + 1)) →
  (if bool_decide (w < monthStart leap 1) then 0
   else if bool_decide (w < monthStart leap 2) then 1
   else if bool_decide (w < monthStart leap 3) then 2
   else if bool_decide (w < monthStart leap 4) then 3
   else if bool_decide (w < monthStart leap 5) then 4
   else if bool_decide (w < monthStart leap 6) then 5
   else if bool_decide (w < monthStart leap 7) then 6
   else if bool_decide (w < monthStart leap 8) then 7
   else if bool_decide (w < monthStart leap 9) then 8
   else if bool_decide (w < monthStart leap 10) then 9
   else if bool_decide (w < monthStart leap 11) then 10
   else 11) = m.
Proof.
  intros Hm Hlo Hhi.
  month_cases m; destruct leap; simpl in Hhi; revert Hlo Hhi; eval_monthStart;
    intros Hlo Hhi; repeat case_bool_decide; lia.
Qed.

Lemma civil_MakeDay y m d :
  0 ≤ m ≤ 11 → 1 ≤ d ≤ monthLength y m →
  YearFromDay (MakeDay y m d) = y
  ∧ MonthFromDay (MakeDay y m d) = m
  ∧ DateFromDay (MakeDay y m d) = d.
Proof.
  intros Hm Hd.
  assert (Hmk : MakeDay y m d = DayFromYear y + monthStart (InLeapYear y) m + d - 1).
  { unfold MakeDay. replace (m `div` 12) with 0 by lia.
    replace (m `mod` 12) with m by lia. by rewrite Z.add_0_r. }
  assert (Hlo : 0 ≤ monthStart (InLeapYear y) m).
  { month_cases m; destruct (InLeapYear y); done. }
  assert (Hhi : monthStart (InLeapYear y) m + monthLength y m ≤ DaysInYear y).
  { destruct (decide (m = 11)) as [-> | Hne].
    - rewrite monthLength_december. lia.
    - rewrite <- monthLength_monthStart by lia. unfold DaysInYear.
      month_cases m; destruct (InLeapYear y); done. }
  assert (HY : YearFromDay (MakeDay y m d) = y).
  { apply YearFromDay_unique. rewrite DayFromYear_succ, Hmk. lia. }
  assert (HW : DayWithinYear (MakeDay y m d)
               = monthStart (InLeapYear y) m + d - 1).
  { unfold DayWithinYear. rewrite HY, Hmk. lia. }
  assert (HM : MonthFromDay (MakeDay y m d) = m).
  { unfold MonthFromDay. rewrite HY, HW.
    apply MonthFromDay_within; [done | lia |].
    intros Hlt. rewrite monthLength_monthStart by lia. lia. }
  split; [done | split; [done |]].
  unfold DateFromDay. rewrite HY, HM, HW. lia.
Qed.

Lemma MonthFromDay_range n : 0 ≤ MonthFromDay n ≤ 11.
Proof. unfold MonthFromDay. repeat case_match; lia. Qed.

Lemma DayWithinYear_range n : 0 ≤ DayWithinYear n < DaysInYear (YearFromDay n).
Proof.
  pose proof (YearFromDay_spec n) as H. rewrite DayFromYear_succ in H.
  unfold DayWithinYear. lia.
Qed.

Lemma MonthFromDay_bounds n :
  monthStart (InLeapYear (YearFromDay n)) (MonthFromDay n) ≤ DayWithinYear n
  ∧ (MonthFromDay n < 11 →
     DayWithinYear n
     < monthStart (InLeapYear (YearFromDay n)) (MonthFromDay n + 1)).
Proof.
  pose proof (DayWithinYear_range n) as [Hw _]. revert Hw.
  remember (MonthFromDay n) as M eqn:HM. revert HM. unfold MonthFromDay.
  generalize (DayWithinYear n) as w. intros w.
  destruct (InLeapYear (YearFromDay n)); eval_monthStart; intros HM Hw;
    repeat case_bool_decide; subst M; simpl Z.add; eval_monthStart; lia.
Qed.

Lemma DateFromDay_range n :
  1 ≤ DateFromDay n ≤ monthLength (YearFromDay n) (MonthFromDay n).
Proof.
  pose proof (DayWithinYear_range n) as [_ Hw].
  pose proof (MonthFromDay_bounds n) as [Hlo Hhi].
  pose proof (MonthFromDay_range n) as Hm.
  unfold DateFromDay. destruct (decide (MonthFromDay n = 11)) as [He | Hne].
  - rewrite monthLength_december in Hw. rewrite He in *. lia.
  - rewrite monthLength_monthStart in Hhi by lia. lia.
Qed.

Lemma MakeDay_civil n :
  MakeDay (YearFromDay n) (MonthFromDay n) (DateFromDay n) = n.
Proof.
  pose proof (MonthFromDay_range n) as Hm.
  unfold MakeDay, DateFromDay.
  replace (MonthFromDay n `div` 12) with 0 by lia.
  replace (MonthFromDay n `mod` 12) with (MonthFromDay n) by lia.
  rewrite Z.add_0_r. unfold DayWithinYear. lia.
Qed.

Lemma MakeDay_in_year y m d :
  0 ≤ m ≤ 11 →
  MakeDay y m d = DayFromYear y + monthStart (InLeapYear y) m + d - 1.
Proof.
  intros Hm. unfold MakeDay. replace (m `div` 12) with 0 by lia.
  replace (m `mod` 12) with m by lia. by rewrite Z.add_0_r.
Qed.

Lemma MakeDay_day_zero y m :
  0 ≤ m ≤ 11 → MakeDay y (m + 1) 0 = MakeDay y m (monthLength y m).
Proof.
  intros Hm. rewrite (MakeDay_in_year y m) by done.
  destruct (decide (m = 11)) as [-> | Hne].
  - unfold MakeDay. change ((11 + 1) `div` 12) with 1.
    change ((11 + 1) `mod` 12) with 0.
    rewrite DayFromYear_succ, monthLength_december.
    change (monthStart (InLeapYear (y + 1)) 0) with 0. lia.
  - rewrite MakeDay_in_year by lia.
    rewrite monthLength_monthStart by lia. lia.
Qed.

Lemma monthStart_early leap m : 0 ≤ m ≤ 1 → monthStart leap m = 31 * m.
Proof.
  intros Hm. assert (m = 0 ∨ m = 1) as [-> | ->] by lia; by destruct leap.
Qed.

Lemma monthStart_late y m :
  2 ≤ m ≤ 11 →
  DayFromYear y + monthStart (InLeapYear y) m
  = DayFromYear (y + 1) - 365 + monthStart false m.
Proof.
  intros Hm. rewrite DayFromYear_succ. unfold DaysInYear.
  month_cases m; try (exfalso; lia); destruct (InLeapYear y); eval_monthStart; lia.
Qed.

(** The day of the week the built-ins compute is the one of Zeller's
    congruence. *)
Lemma WeekDay_zeller y m d :
  0 ≤ m ≤ 11 → WeekDay (MakeDay y m d) = zeller y (m + 1) d.
Proof.
  intros Hm. rewrite MakeDay_in_year by done. unfold WeekDay, zeller.
  destruct (decide (m ≤ 1)) as [Hle | Hgt].
  - rewrite monthStart_early by lia.
    rewrite !bool_decide_eq_true_2 by lia.
    unfold DayFromYear.
    assert (m = 0 ∨ m = 1) as [-> | ->] by lia; lia.
  - rewrite monthStart_late by lia.
    rewrite !bool_decide_eq_false_2 by lia.
    unfold DayFromYear.
    month_cases m; try (exfalso; lia); eval_monthStart; lia.
Qed.

(** ** Text of numbers and of dates *)

Lemma noDash_string_of_uint u : noDash (NilEmpty.string_of_uint u) = true.
Proof. induction u; simpl; done. Qed.

Lemma digits_NilEmpty n :
  digits n = NilEmpty.string_of_uint (N.to_uint n).
Proof.
  unfold digits, NilZero.string_of_uint.
  destruct n as [| p]; [done |]. simpl.
  pose proof (Unsigned.to_uint_nonnil p) as Hp.
  by destruct (Pos.to_uint p).
Qed.

Lemma noDash_digits n : noDash (digits n) = true.
Proof. rewrite digits_NilEmpty. apply noDash_string_of_uint. Qed.

Lemma Number_digits n : Number (digits n) = Num (Z.of_N n).
Proof.
  unfold Number. rewrite digits_NilEmpty, NilEmpty.usu.
  by rewrite DecimalN.Unsigned.of_to.
Qed.

Lemma ToString_nonneg y : 0 ≤ y → ToString (Num y) = digits (Z.to_N y).
Proof. intros Hy. unfold ToString. by rewrite bool_decide_eq_false_2 by lia. Qed.

Lemma Number_ToString y : 0 ≤ y → Number (ToString (Num y)) = Num y.
Proof.
  intros Hy. rewrite ToString_nonneg, Number_digits by done.
  by rewrite Z2N.id.
Qed.

Lemma split_noDash s : noDash s = true → split "-" s = [s].
Proof.
  induction s as [| c s IH]; simpl; [done |].
  intros [Hc Hs]%andb_true_iff. apply negb_true_iff in Hc.
  rewrite Hc, IH; done.
Qed.

Lemma split_noDash_app a rest :
  noDash a = true → split "-" (a +:+ String "-" rest) = a :: split "-" rest.
Proof.
  induction a as [| c a IH]; simpl; [done |].
  intros [Hc Ha]%andb_true_iff. apply negb_true_iff in Hc.
  rewrite Hc, IH; done.
Qed.

Lemma fieldOk_range k : 0 ≤ k ≤ 99 → fieldOk k.
Proof.
  assert (Hall : Forall (λ k, Number (padStart 2 "0" (ToString (Num k))) = Num k
                             ∧ noDash (padStart 2 "0" (ToString (Num k))) = true)
                       (seqZ 0 100)).
  { apply (bool_decide_unpack _). by vm_compute. }
  intros Hk. rewrite Forall_seqZ in Hall. apply Hall. lia.
Qed.

Section parse.
Context {tz : TimeZone}.

Lemma parseYMD_ymd y m d :
  0 ≤ y → 0 ≤ m ≤ 99 → 0 ≤ d ≤ 99 →
  parseYMD (ymd y m d) = newDate (Num y) (Num (m - 1)) (Num d).
Proof.
  intros Hy Hm Hd.
  destruct (fieldOk_range m Hm) as [Hmn Hmd].
  destruct (fieldOk_range d Hd) as [Hdn Hdd].
  unfold parseYMD, ymd.
  rewrite ToString_nonneg by done.
  change (digits (Z.to_N y) +:+ "-" +:+ padStart 2 "0" (ToString (Num m))
          +:+ "-" +:+ padStart 2 "0" (ToString (Num d)))
    with (digits (Z.to_N y) +:+ String "-"
            (padStart 2 "0" (ToString (Num m)) +:+ String "-"
               (padStart 2 "0" (ToString (Num d))))).
  rewrite split_noDash_app by apply noDash_digits.
  rewrite split_noDash_app by done.
  rewrite split_noDash by done.
  cbn [fmap list_fmap lookup list_lookup default from_option id].
  rewrite Number_digits, Hmn, Hdn, Z2N.id by done.
  done.
Qed.

Lemma formatYMD_day n :
  formatYMD (OfDate (LocalMidnight n))
  = ymd (YearFromDay n) (MonthFromDay n + 1) (DateFromDay n).
Proof. reflexivity. Qed.

(** Reading back the text of a Date of year 100 or later. *)
Lemma parseYMD_formatYMD n :
  100 ≤ YearFromDay n →
  parseYMD (formatYMD (OfDate (LocalMidnight n))) = TimeClip n.
Proof.
  intros Hy. rewrite formatYMD_day.
  pose proof (MonthFromDay_range n) as Hm.
  pose proof (DateFromDay_range n) as Hd.
  pose proof (monthLength_bounds (YearFromDay n) (MonthFromDay n)) as Hl.
  rewrite parseYMD_ymd by lia.
  unfold newDate. rewrite bool_decide_eq_false_2 by lia.
  replace (MonthFromDay n + 1 - 1) with (MonthFromDay n) by lia.
  by rewrite MakeDay_civil.
Qed.
End parse.

(** ** Time values, comparisons and differences *)

Lemma utc_bounded : boundedOffsets utc.
Proof. intros n. unfold tzOffsetAt, utc, msPerDay. lia. Qed.

Lemma utc_steady : steadyOffsets utc.
Proof. intros a b. unfold tzOffsetAt, utc, msPerDay. lia. Qed.

Lemma cet2024_bounded : boundedOffsets cet2024.
Proof.
  intros n. unfold tzOffsetAt, cet2024, msPerDay. case_bool_decide; lia.
Qed.

Lemma cet2024_steady : steadyOffsets cet2024.
Proof.
  intros a b. unfold tzOffsetAt, cet2024, msPerDay.
  repeat case_bool_decide; lia.
Qed.

Section zone.
Context {tz : TimeZone}.

Lemma TimeClip_in_range :
  boundedOffsets tz → ∀ n, Z.abs n ≤ 99999999 → TimeClip n = LocalMidnight n.
Proof.
  intros Hb n Hn. unfold TimeClip. rewrite bool_decide_eq_true_2; [done |].
  specialize (Hb n). unfold timeOfDay, maxTime, msPerDay in *. lia.
Qed.

Lemma timeOfDay_lt :
  steadyOffsets tz → ∀ a b, timeOfDay a < timeOfDay b ↔ a < b.
Proof.
  intros Hs a b. specialize (Hs a b).
  unfold timeOfDay, msPerDay in *.
  destruct (decide (a = b)) as [-> | Hne]; lia.
Qed.

Lemma date_lt_days :
  steadyOffsets tz →
  ∀ a b, date_lt (LocalMidnight a) (LocalMidnight b) = bool_decide (a < b).
Proof.
  intros Hs a b. unfold date_lt. simpl.
  apply bool_decide_ext, timeOfDay_lt, Hs.
Qed.

Lemma round_div_days :
  steadyOffsets tz →
  ∀ a b, round_div (Num (timeOfDay b - timeOfDay a)) (24 * 3600 * 1000)
         = Num (b - a).
Proof.
  intros Hs a b. specialize (Hs a b). unfold round_div. f_equal.
  unfold timeOfDay, msPerDay in *.
  destruct (decide (a = b)) as [-> | Hne]; lia.
Qed.

Lemma parseYMD_empty : parseYMD "" = InvalidDate.
Proof. reflexivity. Qed.

Lemma parseYMD_valid_truthy d n :
  parseYMD d = LocalMidnight n → truthy (Some d) = true.
Proof.
  intros Hd. unfold truthy. apply negb_true_iff, bool_decide_eq_false_2.
  intros ->. by rewrite parseYMD_empty in Hd.
Qed.
End zone.

(** ** Selection *)

Section selection_facts.
Context {tz : TimeZone}.

Lemma onDayClick_empty_slot s : onDayClick None s = s.
Proof. reflexivity. Qed.

Lemma onDayClick_empty_string s : onDayClick (Some "") s = s.
Proof. reflexivity. Qed.

Lemma onDayClick_first d s :
  truthy (Some d) = true → truthy (selectStart s) = false →
  selection (onDayClick (Some d) s) = (Some d, None).
Proof. intros Hd Hs. unfold onDayClick. by rewrite Hd, Hs. Qed.

Lemma onDayClick_second d s :
  truthy (Some d) = true → truthy (selectStart s) = true →
  truthy (selectEnd s) = false →
  selection (onDayClick (Some d) s)
  = if date_lt (parseYMD d) (parseYMD (str (selectStart s)))
    then (Some d, selectStart s) else (selectStart s, Some d).
Proof.
  intros Hd Hs He. unfold onDayClick. rewrite Hd, Hs, He. simpl.
  by case_match.
Qed.

Lemma onDayClick_third d s :
  truthy (Some d) = true → truthy (selectStart s) = true →
  truthy (selectEnd s) = true →
  selection (onDayClick (Some d) s) = (Some d, None).
Proof. intros Hd Hs He. unfold onDayClick. by rewrite Hd, Hs, He. Qed.

(** C2: from the empty selection, clicking [d1] then a later [d2]
    gives [{start: d1, end: d2}], and so does clicking [d2] then
    [d1]; a further click on [d3] gives [{start: d3, end: none}],
    as does a click on any complete selection; a click on an empty
    slot changes nothing, in any state. *)
Theorem selection_clicks :
  steadyOffsets tz →
  ∀ (s : State) (d1 d2 : string) (n1 n2 : Z),
    parseYMD d1 = LocalMidnight n1 →
    parseYMD d2 = LocalMidnight n2 →
    n1 < n2 →
    selection s = (None, None) →
    selection (onDayClick (Some d2) (onDayClick (Some d1) s)) = (Some d1, Some d2)
    ∧ selection (onDayClick (Some d1) (onDayClick (Some d2) s)) = (Some d1, Some d2)
    ∧ (∀ d3, d3 ≠ "" →
         selection (onDayClick (Some d3) (onDayClick (Some d2) (onDayClick (Some d1) s)))
         = (Some d3, None))
    ∧ (∀ (c : State) (d3 : string),
         truthy (selectStart c) = true → truthy (selectEnd c) = true → d3 ≠ "" →
         selection (onDayClick (Some d3) c) = (Some d3, None))
    ∧ (∀ c : State, onDayClick None c = c).
Proof.
  intros Hs s d1 d2 n1 n2 H1 H2 Hlt Hsel.
  pose proof (parseYMD_valid_truthy _ _ H1) as Ht1.
  pose proof (parseYMD_valid_truthy _ _ H2) as Ht2.
  injection Hsel as Hstart Hend.
  assert (Hempty : truthy (selectStart s) = false) by by rewrite Hstart.
  pose proof (onDayClick_first d1 s Ht1 Hempty) as Hc1.
  pose proof (onDayClick_first d2 s Ht2 Hempty) as Hc2.
  injection Hc1 as Hc1s Hc1e. injection Hc2 as Hc2s Hc2e.
  assert (H12 : selection (onDayClick (Some d2) (onDayClick (Some d1) s))
                = (Some d1, Some d2)).
  { rewrite onDayClick_second; rewrite ?Hc1s, ?Hc1e; try done.
    simpl. rewrite H1, H2, date_lt_days by done.
    by rewrite bool_decide_eq_false_2 by lia. }
  split; [done |]. split.
  { rewrite onDayClick_second; rewrite ?Hc2s, ?Hc2e; try done.
    simpl. rewrite H1, H2, date_lt_days by done.
    by rewrite bool_decide_eq_true_2 by lia. }
  assert (Hthird : ∀ (c : State) (d3 : string),
             truthy (selectStart c) = true → truthy (selectEnd c) = true →
             d3 ≠ "" → selection (onDayClick (Some d3) c) = (Some d3, None)).
  { intros c d3 Hcs Hce Hd3. apply onDayClick_third; try done.
    unfold truthy. by rewrite bool_decide_eq_false_2. }
  split; [| split; [done | apply onDayClick_empty_slot]].
  intros d3 Hd3. injection H12 as H12s H12e.
  apply Hthird; rewrite ?H12s, ?H12e; done.
Qed.
End selection_facts.

(** ** The loops of the month grid *)

Section grid_loops.
Context {tz : TimeZone}.
Variables y m : Z.

Local Abbreviation cell := (dayCell y m).

Lemma firstWeek_fold wd :
  0 ≤ wd ≤ 6 →
  foldl (firstWeekStep y m (Num wd)) (replicate 7 None, 1) (seq 0 7)
  = (replicate (Z.to_nat wd) None ++ (cell <$> seqZ 1 (7 - wd)), 8 - wd).
Proof.
  intros Hwd.
  assert (wd = 0 ∨ wd = 1 ∨ wd = 2 ∨ wd = 3 ∨ wd = 4 ∨ wd = 5 ∨ wd = 6)
    as Hcases by lia.
  repeat (destruct Hcases as [-> | Hcases]); [.. | subst wd];
    cbv -[dayCell]; reflexivity.
Qed.

Lemma firstWeek_fold_NaN :
  foldl (firstWeekStep y m NaN) (replicate 7 None, 1) (seq 0 7)
  = (cell <$> seqZ 1 7, 8).
Proof. cbv -[dayCell]. reflexivity. Qed.

Lemma fillWeek_fill dim k : ∀ (i : nat) (w : list slot) (dc : Z),
  (i + k ≤ length w)%nat →
  fillWeek y m (Num dim) k i w dc
  = (take i w
     ++ (cell <$> seqZ dc (Z.min (Z.of_nat k) (dim + 1 - dc)))
     ++ drop (i + Z.to_nat (Z.min (Z.of_nat k) (dim + 1 - dc))) w,
     dc + Z.max 0 (Z.min (Z.of_nat k) (dim + 1 - dc))).
Proof.
  induction k as [| k IH]; intros i w dc Hlen.
  - simpl fillWeek.
    replace (Z.min (Z.of_nat 0) (dim + 1 - dc)) with (Z.min 0 (dim + 1 - dc)) by lia.
    rewrite seqZ_nil by lia.
    replace (Z.to_nat (Z.min 0 (dim + 1 - dc))) with O by lia.
    rewrite Nat.add_0_r. simpl. rewrite take_drop. f_equal. lia.
  - simpl fillWeek. unfold num_le. case_bool_decide as Hle.
    + rewrite IH by (rewrite length_insert; lia).
      replace (Z.min (Z.of_nat (S k)) (dim + 1 - dc))
        with (Z.succ (Z.min (Z.of_nat k) (dim + 1 - (dc + 1)))) by lia.
      set (j := Z.min (Z.of_nat k) (dim + 1 - (dc + 1))).
      assert (0 ≤ j) by lia.
      rewrite (seqZ_cons dc) by lia.
      replace (Z.pred (Z.succ j)) with j by lia.
      replace (Z.succ dc) with (dc + 1) by lia.
      rewrite fmap_cons.
      assert (Hi : (i < length w)%nat) by lia.
      rewrite (take_S_r (<[i:=cell dc]> w) i (cell dc))
        by (by apply list_lookup_insert_eq).
      rewrite take_insert_ge by lia.
      rewrite drop_insert_lt by lia.
      replace (i + Z.to_nat (Z.succ j))%nat with (S i + Z.to_nat j)%nat by lia.
      rewrite <- app_assoc. simpl. f_equal. lia.
    + rewrite seqZ_nil by lia.
      replace (Z.to_nat (Z.min (Z.of_nat (S k)) (dim + 1 - dc))) with O by lia.
      rewrite Nat.add_0_r. simpl. rewrite take_drop. f_equal. lia.
Qed.

(** One later week: [j] days, then [7 - j] untouched [null]s. *)
Lemma fillWeek_row dim dc :
  dc ≤ dim →
  fillWeek y m (Num dim) 7 0 (replicate 7 None) dc
  = ((cell <$> seqZ dc (Z.min 7 (dim + 1 - dc)))
     ++ replicate (Z.to_nat (7 - Z.min 7 (dim + 1 - dc))) None,
     dc + Z.min 7 (dim + 1 - dc)).
Proof.
  intros Hle. rewrite fillWeek_fill by (rewrite length_replicate; lia).
  change (Z.of_nat 7) with 7. rewrite take_0, drop_replicate. simpl.
  f_equal; [| lia]. do 2 f_equal. lia.
Qed.

Lemma fillWeek_length daysInMonth k : ∀ i w dc,
  length (fillWeek y m daysInMonth k i w dc).1 = length w.
Proof.
  induction k as [| k IH]; intros i w dc; simpl; [done |].
  case_match; [| done]. by rewrite IH, length_insert.
Qed.

Lemma fillWeek_progress daysInMonth k : ∀ i w dc,
  dc ≤ (fillWeek y m daysInMonth k i w dc).2.
Proof.
  induction k as [| k IH]; intros i w dc; simpl; [done |].
  case_match; [| done]. specialize (IH (S i) (<[i:=cell dc]> w) (dc + 1)). lia.
Qed.

Lemma fillWeek_progress_strict dim i w dc k :
  dc ≤ dim → dc < (fillWeek y m (Num dim) (S k) i w dc).2.
Proof.
  intros Hle. simpl. unfold num_le. rewrite bool_decide_eq_true_2 by done.
  pose proof (fillWeek_progress (Num dim) k (S i) (<[i:=cell dc]> w) (dc + 1)).
  lia.
Qed.

(** The [while] loop ends by its own condition, and only adds rows
    of seven slots. *)
Lemma laterWeeks_total daysInMonth : ∀ fuel weeks dc,
  (match daysInMonth with
   | Num dim => (Z.to_nat (dim + 1 - dc) ≤ fuel)%nat
   | NaN => True
   end) →
  ∃ rest, laterWeeks y m fuel daysInMonth weeks dc = Some (weeks ++ rest)
          ∧ Forall (λ row, length row = 7%nat) rest.
Proof.
  induction fuel as [| fuel IH]; intros weeks dc Hfuel.
  - exists []. destruct daysInMonth as [| dim]; simpl.
    + by rewrite app_nil_r.
    + rewrite bool_decide_eq_false_2 by lia. by rewrite app_nil_r.
  - cbn [laterWeeks]. destruct (num_le (Num dc) daysInMonth) eqn:Hle.
    + destruct daysInMonth as [| dim]; [done |].
      apply bool_decide_eq_true_1 in Hle.
      pose proof (fillWeek_progress_strict dim 0 (replicate 7 None) dc 6 Hle) as Hp.
      pose proof (fillWeek_length (Num dim) 7 0 (replicate 7 None) dc) as Hl.
      destruct (fillWeek y m (Num dim) 7 0 (replicate 7 None) dc) as [w dc'] eqn:Hw.
      simpl in Hp, Hl.
      destruct (IH (weeks ++ [w]) dc') as (rest & Hrest & Hall); [lia |].
      exists (w :: rest). split; [by rewrite Hrest, <- app_assoc |].
      constructor; [exact Hl | done].
    + exists []. by rewrite app_nil_r.
Qed.

(** What the later weeks hold when [dayCounter] has not passed the
    month's end by more than one. *)
Lemma laterWeeks_rows dim : ∀ fuel weeks dc,
  dc ≤ dim + 1 → (Z.to_nat (dim + 1 - dc) ≤ fuel)%nat →
  ∃ rest, laterWeeks y m fuel (Num dim) weeks dc = Some (weeks ++ rest)
    ∧ concat rest = (cell <$> seqZ dc (dim + 1 - dc))
                    ++ replicate (Z.to_nat ((dc - dim - 1) `mod` 7)) None
    ∧ (dc ≤ dim →
       ∃ init j, rest = init ++ [(cell <$> seqZ (dim + 1 - j) j)
                                 ++ replicate (Z.to_nat (7 - j)) None]
                 ∧ 1 ≤ j ≤ 7).
Proof.
  induction fuel as [| fuel IH]; intros weeks dc Hdc Hfuel.
  - exists []. simpl. rewrite bool_decide_eq_false_2 by lia.
    replace dc with (dim + 1) by lia.
    split; [by rewrite app_nil_r |]. split; [| lia].
    rewrite seqZ_nil by lia.
    by replace ((dim + 1 - dim - 1) `mod` 7) with 0 by lia.
  - cbn [laterWeeks]. unfold num_le. case_bool_decide as Hle.
    + rewrite fillWeek_row by done. cbv beta iota.
      set (j := Z.min 7 (dim + 1 - dc)).
      assert (Hj : 1 ≤ j ≤ 7) by lia.
      destruct (IH (weeks ++ [(cell <$> seqZ dc j)
                              ++ replicate (Z.to_nat (7 - j)) None]) (dc + j))
        as (rest & Hrest & Hcat & Hlast); [lia | lia |].
      exists (((cell <$> seqZ dc j) ++ replicate (Z.to_nat (7 - j)) None) :: rest).
      split; [etrans; [exact Hrest | by rewrite <- app_assoc] |]. split.
      * simpl concat. rewrite Hcat.
        destruct (decide (j = 7)) as [Hj7 | Hj7].
        -- rewrite Hj7. simpl replicate at 1. rewrite app_nil_r, app_assoc.
           rewrite <- fmap_app, <- seqZ_app by lia.
           replace (7 + (dim + 1 - (dc + 7))) with (dim + 1 - dc) by lia.
           do 3 f_equal. lia.
        -- assert (dim + 1 - dc = j) as Hlast_row by lia.
           rewrite (seqZ_nil (dc + j)) by lia.
           replace ((dc + j - dim - 1) `mod` 7) with 0 by lia.
           simpl. rewrite app_nil_r, Hlast_row.
           do 3 f_equal. lia.
      * intros _. destruct (decide (dc + j ≤ dim)) as [Hmore | Hdone].
        -- destruct (Hlast Hmore) as (init & j' & -> & Hj').
           eexists (_ :: init), j'. by split.
        -- exists [], j. split; [| done].
           assert (rest = []) as ->.
           { destruct rest as [| r rest']; [done |].
             exfalso. revert Hrest. 
             destruct fuel; simpl; rewrite bool_decide_eq_false_2 by lia;
               intros [= Heq]; apply (f_equal length) in Heq;
               rewrite !length_app in Heq; simpl in Heq; lia. }
           simpl. do 4 f_equal. lia.
    + exists []. replace dc with (dim + 1) by lia.
      split; [by rewrite app_nil_r |]. split; [| lia].
      rewrite seqZ_nil by lia.
      by replace ((dim + 1 - dim - 1) `mod` 7) with 0 by lia.
Qed.
End grid_loops.

(** ** The month grid *)

Lemma omap_id_Some {A} (l : list A) : omap id (Some <$> l) = l.
Proof. induction l as [| x l IH]; csimpl; [done | by rewrite IH]. Qed.

Lemma omap_id_None {A} (n : nat) : omap id (replicate n (@None A)) = [].
Proof. induction n; csimpl; done. Qed.

Lemma monthStart_range leap m : 0 ≤ monthStart leap m ≤ 335.
Proof. unfold monthStart. destruct leap; repeat case_bool_decide; lia. Qed.

Lemma zeller_range y m d : 0 ≤ zeller y m d ≤ 6.
Proof. unfold zeller. lia. Qed.

Lemma MakeDay_range y m d :
  validView y m → 0 ≤ d ≤ 31 → Z.abs (MakeDay y m d) ≤ 99999999.
Proof.
  intros [Hy Hm] Hd. rewrite MakeDay_in_year by done.
  pose proof (monthStart_range (InLeapYear y) m).
  unfold DayFromYear. lia.
Qed.

Section grid_facts.
Context {tz : TimeZone}.
Hypothesis bounded : boundedOffsets tz.
Variables y m : Z.
Hypothesis valid : validView y m.

Lemma newDate_valid d :
  1 ≤ d ≤ monthLength y m →
  newDate (Num y) (Num m) (Num d) = LocalMidnight (MakeDay y m d).
Proof.
  intros Hd. pose proof (monthLength_bounds y m).
  unfold newDate. rewrite bool_decide_eq_false_2 by (destruct valid; lia).
  apply TimeClip_in_range; [done |]. apply MakeDay_range; [done | lia].
Qed.

Lemma dayCell_valid d :
  1 ≤ d ≤ monthLength y m → dayCell y m d = Some (ymd y (m + 1) d).
Proof.
  intros Hd. unfold dayCell. rewrite newDate_valid, formatYMD_day by done.
  destruct (civil_MakeDay y m d) as (-> & -> & ->); [by destruct valid | done |].
  done.
Qed.

Lemma dayCells_valid a n :
  1 ≤ a → a + n ≤ monthLength y m + 1 →
  dayCell y m <$> seqZ a n = (λ d, Some (ymd y (m + 1) d)) <$> seqZ a n.
Proof.
  intros Ha Hn. apply Forall_fmap_ext, Forall_seqZ.
  intros d Hd. apply dayCell_valid. lia.
Qed.

Lemma daysInMonth_valid :
  getDate (newDate (Num y) (Num (m + 1)) (Num 0)) = Num (monthLength y m).
Proof.
  pose proof (monthLength_bounds y m) as Hl. destruct valid as [Hy Hm].
  unfold newDate. rewrite bool_decide_eq_false_2 by lia.
  rewrite MakeDay_day_zero by done.
  rewrite TimeClip_in_range; [| done | apply MakeDay_range; [done | lia]].
  simpl. destruct (civil_MakeDay y m (monthLength y m)) as (_ & _ & ->);
    [done | lia | done].
Qed.

Lemma firstWeekday_valid :
  getDay (newDate (Num y) (Num m) (Num 1)) = Num (zeller y (m + 1) 1).
Proof.
  pose proof (monthLength_bounds y m) as Hl.
  rewrite newDate_valid by lia. simpl.
  by rewrite WeekDay_zeller by (by destruct valid).
Qed.

(** The whole grid of a valid month. *)
Lemma monthDays_grid :
  let wd := zeller y (m + 1) 1 in
  let dim := monthLength y m in
  ∃ (first : list slot) (init : list (list slot)) (j : Z),
    monthDays y m
    = Some ((first :: init)
            ++ [(Some <$> ((λ d, ymd y (m + 1) d) <$> seqZ (dim + 1 - j) j))
                ++ replicate (Z.to_nat (7 - j)) None])
    ∧ 1 ≤ j ≤ 7
    ∧ first = replicate (Z.to_nat wd) None
              ++ (Some <$> ((λ d, ymd y (m + 1) d) <$> seqZ 1 (7 - wd)))
    ∧ concat ((first :: init)
              ++ [(Some <$> ((λ d, ymd y (m + 1) d) <$> seqZ (dim + 1 - j) j))
                  ++ replicate (Z.to_nat (7 - j)) None])
      = replicate (Z.to_nat wd) None ++ (Some <$> monthDates y m)
        ++ replicate (Z.to_nat ((- (wd + dim)) `mod` 7)) None.
Proof.
  intros wd dim.
  pose proof (monthLength_bounds y m) as Hl. fold dim in Hl.
  pose proof (zeller_range y (m + 1) 1) as Hwd. fold wd in Hwd.
  unfold monthDays. rewrite firstWeekday_valid, daysInMonth_valid.
  fold wd dim. rewrite firstWeek_fold by done.
  destruct (laterWeeks_rows y m dim (weeksFuel (Num dim))
              ([] ++ [replicate (Z.to_nat wd) None
                      ++ (dayCell y m <$> seqZ 1 (7 - wd))]) (8 - wd))
    as (rest & Hrest & Hcat & Hlast); [lia | simpl; lia |].
  destruct Hlast as (init & j & -> & Hj); [lia |].
  rewrite !dayCells_valid in Hrest by (fold dim; lia).
  rewrite !dayCells_valid in Hcat by (fold dim; lia).
  rewrite !dayCells_valid by (fold dim; lia).
  exists (replicate (Z.to_nat wd) None
          ++ (Some <$> ((λ d, ymd y (m + 1) d) <$> seqZ 1 (7 - wd)))), init, j.
  unfold monthDates. rewrite <- !list_fmap_compose.
  change (Some ∘ (λ d : Z, ymd y (m + 1) d))
    with (λ d : Z, Some (ymd y (m + 1) d)).
  split; [exact Hrest |]. split; [done |]. split; [done |].
  rewrite <- app_comm_cons, concat_cons. rewrite Hcat.
  rewrite <- !app_assoc. f_equal. rewrite !app_assoc. f_equal.
  - replace (8 - wd) with (1 + (7 - wd)) by lia.
    rewrite <- fmap_app, <- seqZ_app by lia. do 2 f_equal. fold dim. lia.
  - do 2 f_equal. lia.
Qed.
End grid_facts.

Lemma length_concat_rows {A} (rows : list (list A)) :
  Forall (λ row, length row = 7%nat) rows →
  length (concat rows) = (7 * length rows)%nat.
Proof.
  induction 1 as [| row rows Hrow _ IH]; simpl; [done |].
  rewrite length_app, Hrow, IH. lia.
Qed.

Lemma WeekDay_range n : 0 ≤ WeekDay n ≤ 6.
Proof. unfold WeekDay. lia. Qed.

(** ** The text of a date, digit by digit *)

Ltac digit_cases k :=
  let H := fresh in
  assert (H : k = 0 ∨ k = 1 ∨ k = 2 ∨ k = 3 ∨ k = 4 ∨ k = 5 ∨ k = 6 ∨ k = 7
              ∨ k = 8 ∨ k = 9) by lia;
  destruct H as [-> | [-> | [-> | [-> | [-> | [-> | [-> | [-> | [-> | ->]]]]]]]]].

Lemma of_lu_digitOnto k rest :
  0 ≤ k ≤ 9 →
  Unsigned.of_lu (digitOnto k rest) = (Z.to_N k + 10 * Unsigned.of_lu rest)%N.
Proof. intros Hk. digit_cases k; reflexivity. Qed.

Lemma revapp_digitOnto k rest acc :
  0 ≤ k ≤ 9 →
  Decimal.revapp (digitOnto k rest) acc = Decimal.revapp rest (digitOnto k acc).
Proof. intros Hk. digit_cases k; reflexivity. Qed.

Lemma string_of_digitOnto k acc :
  0 ≤ k ≤ 9 →
  NilEmpty.string_of_uint (digitOnto k acc)
  = String (digit k) (NilEmpty.string_of_uint acc).
Proof. intros Hk. digit_cases k; reflexivity. Qed.

Lemma nztail_digitOnto k rest :
  0 ≤ k ≤ 9 → (k = 0 → rest ≠ Decimal.Nil) → DecimalFacts.nztail rest = rest →
  DecimalFacts.nztail (digitOnto k rest) = digitOnto k rest
  ∧ digitOnto k rest ≠ Decimal.Nil.
Proof.
  intros Hk Hnil Hrest. digit_cases k; simpl; rewrite Hrest; try done.
  by destruct rest; [destruct Hnil | ..].
Qed.

Lemma string_of_lastFirst fuel n acc :
  NilEmpty.string_of_uint (Decimal.revapp (lastFirst fuel n) acc)
  = numeral fuel n (NilEmpty.string_of_uint acc).
Proof.
  revert n acc. induction fuel as [| fuel IH]; intros n acc; [done |].
  cbn [lastFirst numeral]. rewrite revapp_digitOnto by lia.
  case_bool_decide.
  - simpl. apply string_of_digitOnto. lia.
  - rewrite IH. by rewrite string_of_digitOnto by lia.
Qed.

Lemma of_lu_lastFirst fuel n :
  0 ≤ n < 2 ^ Z.of_nat fuel → Unsigned.of_lu (lastFirst fuel n) = Z.to_N n.
Proof.
  revert n. induction fuel as [| fuel IH]; intros n Hn.
  { simpl in Hn. assert (n = 0) as -> by lia. done. }
  rewrite Nat2Z.inj_succ, Z.pow_succ_r in Hn by lia.
  cbn [lastFirst]. rewrite of_lu_digitOnto by lia.
  case_bool_decide.
  - simpl. lia.
  - rewrite IH by lia. lia.
Qed.

Lemma nztail_lastFirst fuel n :
  1 ≤ n < 2 ^ Z.of_nat fuel →
  DecimalFacts.nztail (lastFirst fuel n) = lastFirst fuel n
  ∧ lastFirst fuel n ≠ Decimal.Nil.
Proof.
  revert n. induction fuel as [| fuel IH]; intros n Hn.
  { simpl in Hn. lia. }
  rewrite Nat2Z.inj_succ, Z.pow_succ_r in Hn by lia.
  cbn [lastFirst]. case_bool_decide.
  - apply nztail_digitOnto; [lia | lia | done].
  - destruct (IH (n `div` 10)) as [Hfix Hne]; [lia |].
    apply nztail_digitOnto; [lia | done | done].
Qed.

Lemma to_lu_lastFirst fuel n :
  0 ≤ n < 2 ^ Z.of_nat (S fuel) →
  Unsigned.to_lu (Z.to_N n) = lastFirst (S fuel) n.
Proof.
  intros Hn. rewrite <- (of_lu_lastFirst (S fuel) n Hn), Unsigned.to_of_lu.
  destruct (decide (n = 0)) as [-> | Hne]; [done |].
  destruct (nztail_lastFirst (S fuel) n) as [Hfix Hnil]; [lia |].
  unfold DecimalFacts.lnorm. rewrite Hfix. by destruct (lastFirst (S fuel) n).
Qed.

Lemma to_uint_to_lu n : N.to_uint n = Decimal.rev (Unsigned.to_lu n).
Proof. by destruct n. Qed.

Lemma digits_decimal n : 0 ≤ n → digits (Z.to_N n) = decimal n.
Proof.
  intros Hn. rewrite digits_NilEmpty, to_uint_to_lu. unfold decimal.
  rewrite (to_lu_lastFirst (Z.to_nat (Z.log2 n))).
  - unfold Decimal.rev. by rewrite string_of_lastFirst.
  - rewrite Nat2Z.inj_succ, Z2Nat.id by apply Z.log2_nonneg.
    destruct (decide (n = 0)) as [-> | Hne]; [done |].
    pose proof (Z.log2_spec n). lia.
Qed.

Lemma ToString_yearText y : ToString (Num y) = yearText y.
Proof.
  unfold ToString, yearText. case_bool_decide.
  - by rewrite digits_decimal by lia.
  - rewrite <- digits_decimal by lia. done.
Qed.

Lemma padStart_twoDigits k :
  0 ≤ k ≤ 99 → padStart 2 "0" (ToString (Num k)) = twoDigits k.
Proof.
  assert (Hall : Forall (λ k, padStart 2 "0" (ToString (Num k)) = twoDigits k)
                   (seqZ 0 100)).
  { apply (bool_decide_unpack _). by vm_compute. }
  intros Hk. rewrite Forall_seqZ in Hall. apply Hall. lia.
Qed.

Lemma ymd_dateText y m d :
  0 ≤ m ≤ 99 → 0 ≤ d ≤ 99 → ymd y m d = dateText y m d.
Proof.
  intros Hm Hd. unfold ymd, dateText.
  by rewrite ToString_yearText, !padStart_twoDigits by done.
Qed.

Lemma monthDates_calendarDates y m :
  0 ≤ m ≤ 11 → monthDates y m = calendarDates y m.
Proof.
  intros Hm. pose proof (monthLength_bounds y m) as Hl.
  unfold monthDates, calendarDates. apply Forall_fmap_ext, Forall_seqZ.
  intros d Hd. apply ymd_dateText; lia.
Qed.

(** ** The number of a calendar date *)

Lemma DayFromYear_daysBeforeYear y : DayFromYear y = daysBeforeYear y.
Proof. unfold DayFromYear, daysBeforeYear, leapsBefore. lia. Qed.

Lemma monthStart_daysBeforeMonth y m :
  1 ≤ m ≤ 12 → monthStart (InLeapYear y) (m - 1) = daysBeforeMonth y m.
Proof.
  intros Hm. rewrite InLeapYear_leapYear. unfold daysBeforeMonth, monthLength.
  assert (H : m = 1 ∨ m = 2 ∨ m = 3 ∨ m = 4 ∨ m = 5 ∨ m = 6 ∨ m = 7 ∨ m = 8
              ∨ m = 9 ∨ m = 10 ∨ m = 11 ∨ m = 12) by lia.
  destruct H as [-> | [-> | [-> | [-> | [-> | [-> | [-> | [-> | [-> | [-> | [-> | ->]]]]]]]]]]];
    destruct (leapYear y); reflexivity.
Qed.

Lemma MakeDay_calendarDay y m d :
  1 ≤ m ≤ 12 → MakeDay y (m - 1) d = calendarDay y m d.
Proof.
  intros Hm. rewrite MakeDay_in_year by lia. unfold calendarDay.
  rewrite DayFromYear_daysBeforeYear, monthStart_daysBeforeMonth by done. lia.
Qed.

Lemma DayFromYear_le y1 y2 : y1 ≤ y2 → DayFromYear y1 ≤ DayFromYear y2.
Proof.
  intros Hle. replace y2 with (y1 + Z.of_nat (Z.to_nat (y2 - y1))) by lia.
  induction (Z.to_nat (y2 - y1)) as [| k IH]; [by rewrite Z.add_0_r |].
  rewrite Nat2Z.inj_succ.
  replace (y1 + Z.succ (Z.of_nat k)) with (y1 + Z.of_nat k + 1) by lia.
  rewrite DayFromYear_succ. unfold DaysInYear. case_match; lia.
Qed.

Lemma monthStart_le l m1 m2 :
  0 ≤ m1 → m1 ≤ m2 → m2 ≤ 11 → monthStart l m1 ≤ monthStart l m2.
Proof.
  intros H0 Hle H11. unfold monthStart.
  destruct l; repeat case_bool_decide; lia.
Qed.

Lemma calendarDay_earlier y1 m1 d1 y2 m2 d2 :
  1 ≤ m1 ≤ 12 → 1 ≤ d1 ≤ monthLength y1 (m1 - 1) →
  1 ≤ m2 ≤ 12 → 1 ≤ d2 ≤ monthLength y2 (m2 - 1) →
  calendarDay y1 m1 d1 < calendarDay y2 m2 d2 ↔ earlier y1 m1 d1 y2 m2 d2.
Proof.
  intros Hm1 Hd1 Hm2 Hd2.
  assert (Hlt : ∀ ya ma da yb mb db,
            1 ≤ ma ≤ 12 → 1 ≤ da ≤ monthLength ya (ma - 1) →
            1 ≤ mb ≤ 12 → 1 ≤ db ≤ monthLength yb (mb - 1) →
            earlier ya ma da yb mb db → calendarDay ya ma da < calendarDay yb mb db).
  { intros ya ma da yb mb db Hma Hda Hmb Hdb.
    rewrite <- !MakeDay_calendarDay, !MakeDay_in_year by lia.
    assert (Hin : ∀ y m d, 1 ≤ m ≤ 12 → 1 ≤ d ≤ monthLength y (m - 1) →
              0 ≤ monthStart (InLeapYear y) (m - 1)
              ∧ monthStart (InLeapYear y) (m - 1) + d - 1 < DaysInYear y
              ∧ (m < 12 → monthStart (InLeapYear y) (m - 1) + d - 1
                          < monthStart (InLeapYear y) m)).
    { intros y m d Hm Hd. split; [| split].
      - apply (monthStart_le _ 0 (m - 1)); lia.
      - destruct (decide (m = 12)) as [-> | Hne].
        + change (12 - 1) with 11 in *. rewrite monthLength_december. lia.
        + pose proof (monthStart_le (InLeapYear y) m 11 ltac:(lia) ltac:(lia) ltac:(lia)).
          pose proof (monthLength_monthStart y (m - 1) ltac:(lia)) as Hnext.
          replace (m - 1 + 1) with m in Hnext by lia.
          assert (monthStart (InLeapYear y) 11 < DaysInYear y)
            by (unfold DaysInYear; destruct (InLeapYear y); done).
          lia.
      - intros Hlt. pose proof (monthLength_monthStart y (m - 1) ltac:(lia)) as Hnext.
        replace (m - 1 + 1) with m in Hnext by lia. lia. }
    destruct (Hin ya ma da Hma Hda) as (Ha0 & Hay & Ham).
    destruct (Hin yb mb db Hmb Hdb) as (Hb0 & Hby & Hbm).
    intros [Hy | [-> [Hm | [-> Hd]]]].
    - pose proof (DayFromYear_le (ya + 1) yb ltac:(lia)) as Hle.
      rewrite DayFromYear_succ in Hle. lia.
    - pose proof (monthStart_le (InLeapYear yb) ma (mb - 1)
                    ltac:(lia) ltac:(lia) ltac:(lia)). lia.
    - lia. }
  split; [| by apply Hlt].
  intros Hday. unfold earlier.
  destruct (decide (earlier y1 m1 d1 y2 m2 d2)) as [He | Hne]; [done |].
  assert (Hor : (y1 = y2 ∧ m1 = m2 ∧ d1 = d2) ∨ earlier y2 m2 d2 y1 m1 d1)
    by (unfold earlier in *; lia).
  destruct Hor as [(-> & -> & ->) | Hback]; [lia |].
  apply Hlt in Hback; [lia | done ..].
Qed.

Section grid_claims.
Context {tz : TimeZone}.

(** C1: for a valid view, on a host that skips no local day, the
    non-empty slots of the grid, read row by row, are exactly the
    dates of the month from the 1st to the last (February has 29 days
    in leap years), and the 1st sits in the first row at the column of
    its day of the week, Sunday being column 0, with only empty slots
    before it. *)
Theorem monthDays_dates :
  boundedOffsets tz → steadyOffsets tz →
  ∀ y m, validView y m →
    ∃ weeks first,
      monthDays y m = Some weeks
      ∧ filled weeks = calendarDates y m
      ∧ weeks !! 0%nat = Some first
      ∧ first !! Z.to_nat (zeller y (m + 1) 1) = Some (Some (dateText y (m + 1) 1))
      ∧ ∀ i, (i < Z.to_nat (zeller y (m + 1) 1))%nat → first !! i = Some None.
Proof.
  intros Hb _ y m Hv.
  assert (Hm : 0 ≤ m ≤ 11) by (destruct Hv; lia).
  rewrite <- (monthDates_calendarDates y m Hm).
  rewrite <- (ymd_dateText y (m + 1) 1) by lia.
  destruct (monthDays_grid Hb y m Hv) as (first & init & j & Hgrid & Hj & Hfirst & Hcat).
  pose proof (zeller_range y (m + 1) 1) as Hwd.
  eexists _, first. split; [exact Hgrid |]. split; [| split; [done |]].
  - unfold filled. rewrite Hcat, app_assoc, omap_app.
    rewrite omap_app, omap_id_None, omap_id_Some, omap_id_None.
    by rewrite app_nil_r.
  - rewrite Hfirst. split.
    + rewrite lookup_app_r by (rewrite length_replicate; lia).
      rewrite length_replicate, Nat.sub_diag.
      rewrite (seqZ_cons 1) by lia. done.
    + intros i Hi. rewrite lookup_app_l by (rewrite length_replicate; lia).
      by apply lookup_replicate_2.
Qed.

(** C8, as the code has it: on a host that skips no local day, the
    final row of a valid month has exactly seven slots; it holds the
    last [j] dates of the month, up to the month's last day, and the
    [7 - j] slots after them are empty. *)
Theorem monthDays_final_row :
  boundedOffsets tz → steadyOffsets tz →
  ∀ y m, validView y m →
    ∃ weeks row j,
      monthDays y m = Some weeks
      ∧ last weeks = Some row
      ∧ length row = 7%nat
      ∧ 1 ≤ j ≤ 7
      ∧ row = (Some <$> ((λ d, dateText y (m + 1) d)
                         <$> seqZ (monthLength y m + 1 - j) j))
              ++ replicate (Z.to_nat (7 - j)) None.
Proof.
  intros Hb _ y m Hv.
  assert (Hm : 0 ≤ m ≤ 11) by (destruct Hv; lia).
  pose proof (monthLength_bounds y m) as Hl.
  destruct (monthDays_grid Hb y m Hv) as (first & init & j & Hgrid & Hj & _ & _).
  eexists _, _, j. split; [exact Hgrid |].
  split; [apply last_snoc |].
  split; [rewrite length_app, !length_fmap, length_seqZ, length_replicate; lia |].
  split; [done |]. do 2 f_equal.
  apply Forall_fmap_ext, Forall_seqZ. intros d Hd. apply ymd_dateText; lia.
Qed.

(** C10: whatever the view and the host, the grid is produced, every
    one of its rows has exactly seven slots, and so the flattened grid
    has seven slots per row; for a valid view, on a host that skips no
    local day, the slots before the 1st and after the last day of the
    month are [null] and the slots between them hold the dates of the
    month. *)
Theorem monthDays_rows :
  ∀ y m,
    ∃ weeks,
      monthDays y m = Some weeks
      ∧ Forall (λ row, length row = 7%nat) weeks
      ∧ length (concat weeks) = (7 * length weeks)%nat
      ∧ (boundedOffsets tz → steadyOffsets tz → validView y m →
         concat weeks
         = replicate (Z.to_nat (zeller y (m + 1) 1)) None
           ++ (Some <$> calendarDates y m)
           ++ replicate (Z.to_nat ((- (zeller y (m + 1) 1 + monthLength y m)) `mod` 7))
                None).
Proof.
  intros y m.
  assert (Hrows : ∃ weeks, monthDays y m = Some weeks
                           ∧ Forall (λ row, length row = 7%nat) weeks).
  { unfold monthDays.
    set (daysInMonth := getDate (newDate (Num y) (Num (m + 1)) (Num 0))).
    assert (Hdim : match daysInMonth with Num dim => dim ≤ 31 | NaN => True end).
    { unfold daysInMonth. destruct (newDate _ _ _) as [| n]; simpl; [done |].
      pose proof (DateFromDay_range n).
      pose proof (monthLength_bounds (YearFromDay n) (MonthFromDay n)). lia. }
    destruct (newDate (Num y) (Num m) (Num 1)) as [| n]; simpl getDay.
    - rewrite firstWeek_fold_NaN.
      destruct (laterWeeks_total y m daysInMonth (weeksFuel daysInMonth)
                  ([] ++ [dayCell y m <$> seqZ 1 7]) 8) as (rest & -> & Hall).
      { destruct daysInMonth; simpl; [done | lia]. }
      eexists. split; [done |]. apply Forall_app. split; [| done].
      by repeat constructor.
    - pose proof (WeekDay_range n) as Hwd.
      rewrite firstWeek_fold by done. cbv beta iota.
      destruct (laterWeeks_total y m daysInMonth (weeksFuel daysInMonth)
                  ([] ++ [replicate (Z.to_nat (WeekDay n)) None
                          ++ (dayCell y m <$> seqZ 1 (7 - WeekDay n))])
                  (8 - WeekDay n)) as (rest & -> & Hall).
      { destruct daysInMonth; simpl; [done | lia]. }
      eexists. split; [done |]. apply Forall_app. split; [| done].
      repeat constructor.
      rewrite length_app, length_replicate, length_fmap, length_seqZ. lia. }
  destruct Hrows as (weeks & Hweeks & Hall).
  exists weeks. split; [done |]. split; [done |].
  split; [by apply length_concat_rows |].
  intros Hb _ Hv.
  rewrite <- monthDates_calendarDates by (destruct Hv; lia).
  destruct (monthDays_grid Hb y m Hv) as (first & init & j & Hgrid & _ & _ & Hcat).
  rewrite Hweeks in Hgrid. injection Hgrid as ->. exact Hcat.
Qed.
End grid_claims.

Lemma monthDays_dates_witness :
  boundedOffsets cet2024 ∧ steadyOffsets cet2024 ∧ validView 2024 1
  ∧ dateText 2024 (1 + 1) 1 = "2024-02-01"
  ∧ ∃ weeks first,
      @monthDays cet2024 2024 1 = Some weeks
      ∧ filled weeks = calendarDates 2024 1
      ∧ weeks !! 0%nat = Some first
      ∧ first !! Z.to_nat (zeller 2024 (1 + 1) 1) = Some (Some (dateText 2024 (1 + 1) 1))
      ∧ ∀ i, (i < Z.to_nat (zeller 2024 (1 + 1) 1))%nat → first !! i = Some None.
Proof.
  split; [exact cet2024_bounded |]. split; [exact cet2024_steady |].
  split; [unfold validView; lia |]. split; [reflexivity |].
  apply (monthDays_dates (tz := cet2024) cet2024_bounded cet2024_steady 2024 1).
  unfold validView. lia.
Defined.

Lemma monthDays_final_row_witness :
  boundedOffsets cet2024 ∧ steadyOffsets cet2024 ∧ validView 2024 1
  ∧ ∃ weeks row j,
      @monthDays cet2024 2024 1 = Some weeks
      ∧ last weeks = Some row
      ∧ length row = 7%nat
      ∧ 1 ≤ j ≤ 7
      ∧ row = (Some <$> ((λ d, dateText 2024 (1 + 1) d)
                         <$> seqZ (monthLength 2024 1 + 1 - j) j))
              ++ replicate (Z.to_nat (7 - j)) None.
Proof.
  split; [exact cet2024_bounded |]. split; [exact cet2024_steady |].
  split; [unfold validView; lia |].
  apply (monthDays_final_row (tz := cet2024) cet2024_bounded cet2024_steady 2024 1).
  unfold validView. lia.
Defined.

(** C8, as the specification words it, fails: the final row of
    February 2024 ends in two empty slots after the 29th. *)
Lemma final_row_padded_february_2024 :
  @monthDays utc 2024 1
  = Some [[None; None; None; None; Some "2024-02-01"; Some "2024-02-02"; Some "2024-02-03"];
          [Some "2024-02-04"; Some "2024-02-05"; Some "2024-02-06"; Some "2024-02-07";
           Some "2024-02-08"; Some "2024-02-09"; Some "2024-02-10"];
          [Some "2024-02-11"; Some "2024-02-12"; Some "2024-02-13"; Some "2024-02-14";
           Some "2024-02-15"; Some "2024-02-16"; Some "2024-02-17"];
          [Some "2024-02-18"; Some "2024-02-19"; Some "2024-02-20"; Some "2024-02-21";
           Some "2024-02-22"; Some "2024-02-23"; Some "2024-02-24"];
          [Some "2024-02-25"; Some "2024-02-26"; Some "2024-02-27"; Some "2024-02-28";
           Some "2024-02-29"; None; None]]
  ∧ ¬ (∀ weeks, @monthDays utc 2024 1 = Some weeks → finalRowUnpadded weeks).
Proof.
  assert (Hgrid : @monthDays utc 2024 1 = Some _) by (vm_compute; reflexivity).
  split; [exact Hgrid |].
  intros Hclaim. specialize (Hclaim _ Hgrid).
  by apply (Hclaim [Some "2024-02-25"; Some "2024-02-26"; Some "2024-02-27";
                    Some "2024-02-28"; Some "2024-02-29"; None; None]).
Qed.

Lemma monthDays_rows_witness :
  boundedOffsets cet2024 ∧ steadyOffsets cet2024 ∧ validView 2024 1
  ∧ ∃ weeks,
      @monthDays cet2024 2024 1 = Some weeks
      ∧ Forall (λ row, length row = 7%nat) weeks
      ∧ length (concat weeks) = (7 * length weeks)%nat
      ∧ concat weeks
        = replicate (Z.to_nat (zeller 2024 (1 + 1) 1)) None
          ++ (Some <$> calendarDates 2024 1)
          ++ replicate (Z.to_nat ((- (zeller 2024 (1 + 1) 1 + monthLength 2024 1)) `mod` 7))
               None.
Proof.
  assert (Hv : validView 2024 1) by (unfold validView; lia).
  split; [exact cet2024_bounded |]. split; [exact cet2024_steady |].
  split; [exact Hv |].
  destruct (monthDays_rows (tz := cet2024) 2024 1) as (weeks & Hw & Hall & Hlen & Hcat).
  exists weeks. split; [exact Hw |]. split; [exact Hall |]. split; [exact Hlen |].
  exact (Hcat cet2024_bounded cet2024_steady Hv).
Defined.

(** ** The date helpers *)

Section helper_claims.
Context {tz : TimeZone}.

(** C5, as the code has it: a Date of year 100 or later is read back
    from its text, and [formatYMD] returns a string unchanged, so
    formatting twice is formatting once. *)
Theorem parseYMD_formatYMD_roundtrip :
  ∀ n, 100 ≤ YearFromDay n → TimeClip n = LocalMidnight n →
    parseYMD (formatYMD (OfDate (LocalMidnight n))) = LocalMidnight n
    ∧ (∀ s, formatYMD (OfString s) = s)
    ∧ (∀ d, formatYMD (OfString (formatYMD d)) = formatYMD d).
Proof.
  intros n Hy Hclip. split; [| done].
  by rewrite parseYMD_formatYMD.
Qed.

Lemma parseYMD_date y m d :
  boundedOffsets tz → 0 ≤ y → validView y (m - 1) →
  1 ≤ d ≤ monthLength y (m - 1) →
  parseYMD (ymd y m d) = LocalMidnight (MakeDay y (m - 1) d).
Proof.
  intros Hb Hy Hv Hd. pose proof (monthLength_bounds y (m - 1)).
  rewrite parseYMD_ymd by (destruct Hv; lia).
  by apply newDate_valid.
Qed.

(** A date of the calendar, written out, is read as the day of its
    number. *)
Lemma parseYMD_dateText y m d :
  boundedOffsets tz → calendarDate y m d →
  parseYMD (dateText y m d) = LocalMidnight (calendarDay y m d).
Proof.
  intros Hb (Hy & Hm & Hd). pose proof (monthLength_bounds y (m - 1)) as Hl.
  rewrite <- ymd_dateText by lia.
  rewrite parseYMD_date; [| done | lia | unfold validView; lia | done].
  by rewrite MakeDay_calendarDay.
Qed.


(** C7, as the code has it: for two ranges of dates of the calendar
    of year 100 or later, [rangesOverlap] is true exactly when neither
    range ends on an earlier date than the other begins; a shared
    boundary date is an overlap. *)
Theorem rangesOverlap_inclusive :
  steadyOffsets tz → boundedOffsets tz →
  (∀ ya1 ma1 da1 ya2 ma2 da2 yb1 mb1 db1 yb2 mb2 db2,
     calendarDate ya1 ma1 da1 → calendarDate ya2 ma2 da2 →
     calendarDate yb1 mb1 db1 → calendarDate yb2 mb2 db2 →
     rangesOverlap (dateText ya1 ma1 da1) (dateText ya2 ma2 da2)
       (dateText yb1 mb1 db1) (dateText yb2 mb2 db2) = true
     ↔ ¬ (earlier ya2 ma2 da2 yb1 mb1 db1 ∨ earlier yb2 mb2 db2 ya1 ma1 da1))
  ∧ rangesOverlap "2024-01-10" "2024-01-15" "2024-01-15" "2024-01-20" = true
  ∧ rangesOverlap "2024-01-10" "2024-01-14" "2024-01-15" "2024-01-20" = false.
Proof.
  intros Hs Hb.
  assert (Hgen : ∀ ya1 ma1 da1 ya2 ma2 da2 yb1 mb1 db1 yb2 mb2 db2,
     calendarDate ya1 ma1 da1 → calendarDate ya2 ma2 da2 →
     calendarDate yb1 mb1 db1 → calendarDate yb2 mb2 db2 →
     rangesOverlap (dateText ya1 ma1 da1) (dateText ya2 ma2 da2)
       (dateText yb1 mb1 db1) (dateText yb2 mb2 db2) = true
     ↔ ¬ (earlier ya2 ma2 da2 yb1 mb1 db1 ∨ earlier yb2 mb2 db2 ya1 ma1 da1)).
  { intros ya1 ma1 da1 ya2 ma2 da2 yb1 mb1 db1 yb2 mb2 db2 H1 H2 H3 H4.
    unfold rangesOverlap. rewrite !parseYMD_dateText, !date_lt_days by done.
    rewrite negb_true_iff, orb_false_iff, !bool_decide_eq_false.
    destruct H1 as (_ & ? & ?), H2 as (_ & ? & ?), H3 as (_ & ? & ?), H4 as (_ & ? & ?).
    rewrite !calendarDay_earlier by done. tauto. }
  assert (Hjan : ∀ d, 1 ≤ d ≤ 31 → calendarDate 2024 1 d).
  { intros d Hd. unfold calendarDate. change (monthLength 2024 (1 - 1)) with 31. lia. }
  split; [exact Hgen |]. split.
  - change (rangesOverlap (dateText 2024 1 10) (dateText 2024 1 15)
              (dateText 2024 1 15) (dateText 2024 1 20) = true).
    apply Hgen; [apply Hjan; lia ..|]. unfold earlier. lia.
  - change (rangesOverlap (dateText 2024 1 10) (dateText 2024 1 14)
              (dateText 2024 1 15) (dateText 2024 1 20) = false).
    apply not_true_is_false. rewrite Hgen; [| apply Hjan; lia ..].
    unfold earlier. lia.
Qed.
End helper_claims.

(** C5, as the specification words it, fails: 15 June of the year 50 is
    a Date at local midnight, its text is "50-06-15", and [parseYMD]
    reads that text as 15 June 1950. *)
Lemma roundtrip_fails_year_50 :
  @TimeClip utc (MakeDay 50 5 15) = LocalMidnight (MakeDay 50 5 15)
  ∧ formatYMD (OfDate (LocalMidnight (MakeDay 50 5 15))) = "50-06-15"
  ∧ @parseYMD utc (formatYMD (OfDate (LocalMidnight (MakeDay 50 5 15))))
    = LocalMidnight (MakeDay 1950 5 15)
  ∧ @parseYMD utc (formatYMD (OfDate (LocalMidnight (MakeDay 50 5 15))))
    ≠ LocalMidnight (MakeDay 50 5 15).
Proof. repeat split; by vm_compute. Qed.

Lemma parseYMD_formatYMD_roundtrip_witness :
  100 ≤ YearFromDay 19812
  ∧ @TimeClip cet2024 19812 = LocalMidnight 19812
  ∧ @parseYMD cet2024 (formatYMD (OfDate (LocalMidnight 19812))) = LocalMidnight 19812
  ∧ (∀ s, formatYMD (OfString s) = s)
  ∧ (∀ d, formatYMD (OfString (formatYMD d)) = formatYMD d).
Proof.
  split; [by vm_compute |]. split; [by vm_compute |].
  apply (parseYMD_formatYMD_roundtrip (tz := cet2024) 19812); by vm_compute.
Defined.


(** C7, as the specification words it, fails: the year 50 ends long
    before June 1950 begins, and [rangesOverlap] answers true,
    because the year 50 is read as 1950. *)
Lemma rangesOverlap_wrong_before_year_100 :
  @rangesOverlap utc "0050-01-01" "0050-12-31" "1950-06-01" "1950-06-30" = true
  ∧ earlier 50 12 31 1950 6 1
  ∧ ¬ (@rangesOverlap utc "0050-01-01" "0050-12-31" "1950-06-01" "1950-06-30" = true
       ↔ ¬ (earlier 50 12 31 1950 6 1 ∨ earlier 1950 6 30 50 1 1)).
Proof.
  assert (H1 : @rangesOverlap utc "0050-01-01" "0050-12-31" "1950-06-01" "1950-06-30"
               = true) by by vm_compute.
  assert (H2 : earlier 50 12 31 1950 6 1) by (unfold earlier; lia).
  split; [exact H1 |]. split; [exact H2 |].
  intros [Hto _]. apply (Hto H1). by left.
Qed.


Lemma rangesOverlap_inclusive_witness :
  steadyOffsets cet2024 ∧ boundedOffsets cet2024
  ∧ calendarDate 2024 1 30 ∧ calendarDate 2024 1 31
  ∧ calendarDate 2024 2 1 ∧ calendarDate 2024 2 2
  ∧ @rangesOverlap cet2024 "2024-01-30" "2024-01-31" "2024-02-01" "2024-02-02" = false
  ∧ @rangesOverlap cet2024 "2024-01-10" "2024-01-15" "2024-01-15" "2024-01-20" = true
  ∧ @rangesOverlap cet2024 "2024-01-10" "2024-01-14" "2024-01-15" "2024-01-20" = false.
Proof.
  assert (H1 : calendarDate 2024 1 30) by (unfold calendarDate; by vm_compute).
  assert (H2 : calendarDate 2024 1 31) by (unfold calendarDate; by vm_compute).
  assert (H3 : calendarDate 2024 2 1) by (unfold calendarDate; by vm_compute).
  assert (H4 : calendarDate 2024 2 2) by (unfold calendarDate; by vm_compute).
  split; [exact cet2024_steady |]. split; [exact cet2024_bounded |].
  split; [exact H1 |]. split; [exact H2 |]. split; [exact H3 |]. split; [exact H4 |].
  destruct (rangesOverlap_inclusive (tz := cet2024) cet2024_steady cet2024_bounded)
    as (Hgen & Htrue & Hfalse).
  split; [| split; [exact Htrue | exact Hfalse]].
  apply not_true_is_false.
  change (@rangesOverlap cet2024 (dateText 2024 1 30) (dateText 2024 1 31)
            (dateText 2024 2 1) (dateText 2024 2 2) = true → False).
  rewrite (Hgen 2024 1 30 2024 1 31 2024 2 1 2024 2 2 H1 H2 H3 H4).
  intros Hno. apply Hno. left. unfold earlier. lia.
Defined.

Lemma selection_clicks_witness :
  steadyOffsets cet2024
  ∧ @parseYMD cet2024 "2024-03-30" = LocalMidnight 19812
  ∧ @parseYMD cet2024 "2024-04-01" = LocalMidnight 19814
  ∧ 19812 < 19814
  ∧ selection initialState = (None, None)
  ∧ selection (@onDayClick cet2024 (Some "2024-04-01")
                 (@onDayClick cet2024 (Some "2024-03-30") initialState))
    = (Some "2024-03-30", Some "2024-04-01")
  ∧ selection (@onDayClick cet2024 (Some "2024-03-30")
                 (@onDayClick cet2024 (Some "2024-04-01") initialState))
    = (Some "2024-03-30", Some "2024-04-01").
Proof.
  split; [exact cet2024_steady |]. split; [by vm_compute |].
  split; [by vm_compute |]. split; [lia |]. split; [reflexivity |].
  destruct (selection_clicks (tz := cet2024) cet2024_steady initialState
              "2024-03-30" "2024-04-01" 19812 19814) as (H12 & H21 & _);
    [by vm_compute | by vm_compute | lia | reflexivity |].
  split; [exact H12 | exact H21].
Defined.

(** ** Assigning a vacation *)

Section assign.
Context {tz : TimeZone}.

(** [onDayClick] keeps the selection normalized, so a complete
    selection never has its end before its start. *)
Lemma onDayClick_normalized d s : normalized s → normalized (onDayClick d s).
Proof.
  intros Hn. unfold onDayClick.
  destruct (truthy d) eqn:Hd; simpl; [| done].
  destruct (truthy (selectStart s)) eqn:Hs; simpl.
  - destruct (truthy (selectEnd s)) eqn:He; simpl.
    + intros _ He'. simpl in He'. done.
    + destruct (date_lt (parseYMD (str d)) (parseYMD (str (selectStart s)))) eqn:Hlt.
      * intros _ _. simpl. revert Hlt. unfold date_lt, num_lt.
        destruct (valueOf _), (valueOf _); try done.
        intros Hlt%bool_decide_eq_true_1. apply bool_decide_eq_false_2. lia.
      * intros _ _. simpl. exact Hlt.
  - intros _ He'. simpl in He'. done.
Qed.

Lemma clearSelection_normalized s : normalized (clearSelection s).
Proof. intros Hs. simpl in Hs. done. Qed.
End assign.

Lemma fresh_vacation_id (st : Store) :
  vacationsCol st !! fresh (dom (vacationsCol st)) = None.
Proof. apply not_elem_of_dom, is_fresh. Qed.


Lemma tryAssign_rejected w :
  store (tryAssign Rejected w) = store w
  ∧ selection (app (tryAssign Rejected w)) = selection (app w)
  ∧ is_Some (message (app (tryAssign Rejected w))).
Proof. unfold tryAssign. repeat case_match; simpl; eauto. Qed.


(** ** Removing an employee *)

Lemma vacationsOf_elem empId st d :
  d ∈ vacationsOf empId st ↔ vacationsCol st !! d.1 = Some d.2 ∧ employeeId d.2 = empId.
Proof.
  unfold vacationsOf. destruct d as [id v]. rewrite elem_of_map_to_list.
  rewrite map_lookup_filter_Some. done.
Qed.

Lemma vacationsOf_nil empId st :
  vacationsOf empId st = [] ↔
  ∀ id v, vacationsCol st !! id = Some v → employeeId v ≠ empId.
Proof.
  split.
  - intros Hnil id v Hv He.
    assert ((id, v) ∈ vacationsOf empId st) as Hin by by apply vacationsOf_elem.
    rewrite Hnil in Hin. by apply not_elem_of_nil in Hin.
  - intros Hnone. destruct (vacationsOf empId st) as [| [id v] l] eqn:Hl; [done |].
    assert ((id, v) ∈ vacationsOf empId st) as Hin by (rewrite Hl; left).
    apply vacationsOf_elem in Hin as [Hv He]. by destruct (Hnone id v Hv).
Qed.

Lemma cascading_settle empId orig c c' :
  cascading empId orig c → settle c c' → cascading empId orig c'.
Proof.
  intros (Hemp & Hdel & Hpend & Hkeep) Hstep.
  destruct Hstep as [st before r after]. simpl in *.
  apply Forall_app in Hdel as [Hbefore Hafter].
  apply Forall_cons in Hafter as [(id0 & v0 & -> & Hv0 & He0) Hafter].
  split; [done |]. split; [by apply Forall_app |]. simpl. split.
  - intros id v Hv He.
    destruct (decide (id = id0)) as [-> | Hne]; [by rewrite lookup_delete_eq in Hv |].
    rewrite lookup_delete_ne in Hv by done.
    specialize (Hpend id v Hv He).
    apply elem_of_app in Hpend as [Hin | Hin]; [set_solver |].
    apply elem_of_cons in Hin as [Heq | Hin]; [congruence | set_solver].
  - intros id v Hv Hne.
    destruct (decide (id = id0)) as [-> | Hne']; [congruence |].
    rewrite lookup_delete_ne by done. by apply Hkeep.
Qed.

Lemma cascading_rtc empId orig c c' :
  cascading empId orig c → rtc settle c c' → cascading empId orig c'.
Proof.
  intros Hc Hsteps. induction Hsteps as [| c1 c2 c3 Hstep _ IH]; [done |].
  apply IH. by eapply cascading_settle.
Qed.

Lemma settle_all st pending : ∃ st', rtc settle (st, pending) (st', []).
Proof.
  revert st. induction pending as [| r pending IH]; intros st.
  - by exists st.
  - destruct (IH (exec r st)) as [st' Hst']. exists st'.
    eapply rtc_l; [| exact Hst']. apply (settle_one st [] r pending).
Qed.

(** C4: with the store available and the awaited calls resolving,
    [removeEmployee] first deletes the employee record, the vacations
    still being in the store; it then has one deletion in flight for
    each vacation of that employee and for no other record; the
    deletions resolve one by one in any order, and once none is left in
    flight no vacation of that employee remains, the vacations of the
    others being untouched. *)
Theorem removeEmployee_cascade :
  ∀ (w : World) (empId : string),
    db (app w) = true →
    ∃ pending,
      removeEmployee Resolved Resolved empId w
      = ({| app := app w; store := exec (DeleteEmployee empId) (store w) |}, pending)
      ∧ employeesCol (exec (DeleteEmployee empId) (store w)) = delete empId (employeesCol (store w))
      ∧ vacationsCol (exec (DeleteEmployee empId) (store w)) = vacationsCol (store w)
      ∧ (∀ r, r ∈ pending ↔
              ∃ id v, r = DeleteVacation id ∧ vacationsCol (store w) !! id = Some v
                      ∧ employeeId v = empId)
      ∧ (∃ st', rtc settle (exec (DeleteEmployee empId) (store w), pending) (st', []))
      ∧ (∀ st', rtc settle (exec (DeleteEmployee empId) (store w), pending) (st', []) →
           employeesCol st' !! empId = None
           ∧ vacationsOf empId st' = []
           ∧ (∀ id v, vacationsCol st' !! id = Some v → employeeId v ≠ empId)
           ∧ (∀ id v, vacationsCol (store w) !! id = Some v → employeeId v ≠ empId →
                      vacationsCol st' !! id = Some v)).
Proof.
  intros w empId Hdb. unfold removeEmployee. rewrite Hdb. simpl negb. cbv iota.
  set (st := exec (DeleteEmployee empId) (store w)).
  set (pending := (λ d : string * VacationData, DeleteVacation d.1) <$> vacationsOf empId st).
  assert (Hpending : ∀ r, r ∈ pending ↔
            ∃ id v, r = DeleteVacation id ∧ vacationsCol (store w) !! id = Some v
                    ∧ employeeId v = empId).
  { intros r. unfold pending. rewrite list_elem_of_fmap. split.
    - intros ([id v] & -> & [Hv He]%vacationsOf_elem). by exists id, v.
    - intros (id & v & -> & Hv & He). exists (id, v). split; [done |].
      by apply vacationsOf_elem. }
  exists pending. split; [done |]. split; [done |]. split; [done |].
  split; [exact Hpending |]. split; [apply settle_all |].
  intros st' Hsteps.
  assert (Hstart : cascading empId (vacationsCol (store w)) (st, pending)).
  { split; [apply lookup_delete_eq |]. split; [| split].
    - apply Forall_forall. intros r Hr. by apply Hpending.
    - intros id v Hv He. apply Hpending. by exists id, v.
    - intros id v Hv _. exact Hv. }
  destruct (cascading_rtc _ _ _ _ Hstart Hsteps) as (Hemp & _ & Hgone & Hkept).
  simpl in *.
  assert (Hnone : ∀ id v, vacationsCol st' !! id = Some v → employeeId v ≠ empId).
  { intros id v Hv He. specialize (Hgone id v Hv He). by apply not_elem_of_nil in Hgone. }
  repeat split; try done. by apply vacationsOf_nil.
Qed.

Lemma removeEmployee_cascade_witness :
  db (app readyWorld) = true
  ∧ ∃ st', rtc settle (exec (DeleteEmployee "e1") (store readyWorld),
                       (removeEmployee Resolved Resolved "e1" readyWorld).2) (st', [])
           ∧ vacationsOf "e1" st' = [].
Proof.
  split; [reflexivity |].
  destruct (removeEmployee_cascade readyWorld "e1" eq_refl)
    as (pending & Hrun & _ & _ & _ & [st' Hst'] & Hend).
  exists st'. rewrite Hrun. split; [exact Hst' |].
  by destruct (Hend st' Hst') as (_ & Hnil & _).
Defined.

(** The cascade is not atomic: after the employee record is gone and
    one of two deletions has resolved, the other vacation still refers
    to the deleted employee. *)
Lemma removeEmployee_orphan :
  settle (exec (DeleteEmployee "e1") (store readyWorld),
          [DeleteVacation "v1"; DeleteVacation "v2"])
         (exec (DeleteVacation "v1") (exec (DeleteEmployee "e1") (store readyWorld)),
          [DeleteVacation "v2"])
  ∧ employeesCol (exec (DeleteVacation "v1") (exec (DeleteEmployee "e1") (store readyWorld)))
    !! "e1" = None
  ∧ employeeId <$> vacationsCol (exec (DeleteVacation "v1")
                                   (exec (DeleteEmployee "e1") (store readyWorld)))
                   !! "v2" = Some "e1".
Proof.
  split; [apply (settle_one _ [] (DeleteVacation "v1") [DeleteVacation "v2"]) |].
  split; by vm_compute.
Qed.

(** ** Looking an employee up *)

Lemma find_strict_eq_None emps id :
  List.find (λ e, strict_eq (emp_id e) id) emps = None ↔
  ∀ e, e ∈ emps → emp_id e ≠ id ∨ id = None.
Proof.
  induction emps as [| e emps IH]; simpl.
  - split; [intros _ e He; by apply not_elem_of_nil in He | done].
  - destruct (strict_eq (emp_id e) id) eqn:Heq.
    + split; [done |]. intros Hall. exfalso.
      destruct (emp_id e) as [x |] eqn:He, id as [i |]; try done.
      apply bool_decide_eq_true_1 in Heq as ->.
      destruct (Hall e) as [Hne | Hne]; [left | congruence | done].
    + rewrite IH. split.
      * intros Hall e' [-> | Hin]%elem_of_cons; [| by apply Hall].
        destruct (emp_id e) as [x |], id as [i |]; eauto.
        apply bool_decide_eq_false_1 in Heq. left. congruence.
      * intros Hall e' Hin. apply Hall. by right.
Qed.

Lemma find_strict_eq_Some emps i :
  (∃ e, e ∈ emps ∧ emp_id e = Some i) →
  ∃ before e after,
    emps = before ++ e :: after
    ∧ List.find (λ e, strict_eq (emp_id e) (Some i)) emps = Some e
    ∧ emp_id e = Some i
    ∧ ∀ e', e' ∈ before → emp_id e' ≠ Some i.
Proof.
  intros Hin.
  induction emps as [| e emps IH];
    [destruct Hin as (e & He & _); by apply not_elem_of_nil in He |].
  simpl. destruct (strict_eq (emp_id e) (Some i)) eqn:Heq.
  - exists [], e, emps. simpl. split; [done |]. split; [done |]. split.
    + destruct (emp_id e); [| done]. by apply bool_decide_eq_true_1 in Heq as ->.
    + intros e' He'. by apply not_elem_of_nil in He'.
  - assert (Hne : emp_id e ≠ Some i).
    { destruct (emp_id e); [| done]. apply bool_decide_eq_false_1 in Heq. congruence. }
    destruct IH as (before & e0 & after & -> & Hfind & Hid & Hbefore).
    { destruct Hin as (e1 & [-> | He1]%elem_of_cons & Hid1); [done | eauto]. }
    exists (e :: before), e0, after. repeat split; try done.
    intros e' [-> | He']%elem_of_cons; [done | by apply Hbefore].
Qed.

(** C9, as the code has it: an id that no cached employee carries (and
    [null]) yields the placeholder, whose name is "Desconocido" and
    whose color is "gray"; an id that is carried yields the cached
    employee with that id, the first one of the list. *)
Theorem employeeById_spec :
  ∀ (s : State) (id : option string),
    ((∀ e, e ∈ employees s → emp_id e ≠ id ∨ id = None) →
       employeeById s id = placeholder
       ∧ emp_name (employeeById s id) = "Desconocido"
       ∧ emp_color (employeeById s id) = "gray")
    ∧ (∀ i, id = Some i → (∃ e, e ∈ employees s ∧ emp_id e = Some i) →
         ∃ before e after,
           employees s = before ++ e :: after
           ∧ employeeById s id = e
           ∧ emp_id e = Some i
           ∧ ∀ e', e' ∈ before → emp_id e' ≠ Some i).
Proof.
  intros s id. split.
  - intros Hnone. apply find_strict_eq_None in Hnone.
    unfold employeeById. by rewrite Hnone.
  - intros i -> Hin.
    destruct (find_strict_eq_Some _ _ Hin) as (before & e & after & Hl & Hfind & Hid & Hb).
    exists before, e, after. unfold employeeById. by rewrite Hfind.
Qed.

Lemma employeeById_spec_witness :
  (∀ e, e ∈ employees (app readyWorld) → emp_id e ≠ Some "e2" ∨ Some "e2" = None)
  ∧ employeeById (app readyWorld) (Some "e2") = placeholder
  ∧ emp_name (employeeById (app readyWorld) (Some "e2")) = "Desconocido"
  ∧ employeeById (app readyWorld) (Some "e1") = ana.
Proof.
  assert (Habsent : ∀ e, e ∈ employees (app readyWorld) →
                         emp_id e ≠ Some "e2" ∨ Some "e2" = None).
  { intros e ->%list_elem_of_singleton. by left. }
  split; [exact Habsent |].
  destruct (employeeById_spec (app readyWorld) (Some "e2")) as [Hnone _].
  destruct (Hnone Habsent) as (Hp & Hname & _).
  split; [exact Hp |]. split; [exact Hname | reflexivity].
Defined.

(** C9, as the specification words it, fails: the placeholder's name
    is not "Unknown". *)
Lemma placeholder_name_not_Unknown :
  employeeById initialState (Some "e1") = placeholder
  ∧ emp_name (employeeById initialState (Some "e1")) = "Desconocido"
  ∧ emp_name (employeeById initialState (Some "e1")) ≠ "Unknown".
Proof. repeat split; by vm_compute. Qed.

(** ** Remarks *)

(** [calendarDay] counts the days of the calendar: 1 January 1970 is
    day 0, and every date is one more than the date before it: the
    day before in the same month, the last day of the month before, or
    31 December of the year before. *)
Lemma calendarDay_counts :
  calendarDay 1970 1 1 = 0
  ∧ ∀ y m d,
      1 ≤ m ≤ 12 →
      calendarDay y m (d + 1) = calendarDay y m d + 1
      ∧ (m < 12 → calendarDay y (m + 1) 1 = calendarDay y m (monthLength y (m - 1)) + 1)
      ∧ calendarDay (y + 1) 1 1 = calendarDay y 12 (monthLength y 11) + 1.
Proof.
  split; [reflexivity |]. intros y m d Hm. split; [unfold calendarDay; lia |].
  split.
  - intros Hlt. rewrite <- !MakeDay_calendarDay by lia.
    replace (m + 1 - 1) with (m - 1 + 1) by lia.
    rewrite <- (MakeDay_day_zero y (m - 1)) by lia.
    rewrite !MakeDay_in_year by lia. lia.
  - rewrite <- !MakeDay_calendarDay by lia. rewrite !MakeDay_in_year by lia.
    rewrite DayFromYear_succ, monthLength_december. change (1 - 1) with 0.
    change (12 - 1) with 11. unfold DaysInYear.
    destruct (InLeapYear y), (InLeapYear (y + 1)); vm_compute monthStart; lia.
Qed.

(** Day numbers follow the calendar: the day after a date is the next
    day of its month, else the 1st of the next month, else the 1st of
    January of the next year. *)
Lemma civil_successor n :
  let y := YearFromDay n in
  let m := MonthFromDay n in
  let d := DateFromDay n in
  (YearFromDay (n + 1), MonthFromDay (n + 1), DateFromDay (n + 1))
  = if bool_decide (d < monthLength y m) then (y, m, d + 1)
    else if bool_decide (m < 11) then (y, m + 1, 1)
    else (y + 1, 0, 1).
Proof.
  intros y m d.
  pose proof (MonthFromDay_range n) as Hm. fold m in Hm.
  pose proof (DateFromDay_range n) as Hd. fold y m d in Hd.
  pose proof (MakeDay_civil n) as Hn. fold y m d in Hn.
  assert (Hnext : n + 1 = MakeDay y m (d + 1)).
  { rewrite <- Hn at 1. unfold MakeDay. lia. }
  case_bool_decide as Hlast.
  - rewrite Hnext.
    by destruct (civil_MakeDay y m (d + 1)) as (-> & -> & ->); [done | lia |].
  - assert (d = monthLength y m) as Hd' by lia.
    assert (Hfirst : n + 1 = MakeDay y (m + 1) 1).
    { pose proof (MakeDay_day_zero y m Hm) as Hz. rewrite <- Hd' in Hz.
      rewrite Hnext. revert Hz. unfold MakeDay. lia. }
    pose proof (monthLength_bounds y (m + 1)).
    pose proof (monthLength_bounds (y + 1) 0).
    case_bool_decide as Hdec.
    + rewrite Hfirst.
      by destruct (civil_MakeDay y (m + 1) 1) as (-> & -> & ->); [lia | lia |].
    + assert (m = 11) as Hm11 by lia.
      assert (n + 1 = MakeDay (y + 1) 0 1) as ->.
      { rewrite Hfirst, Hm11. unfold MakeDay.
        change ((11 + 1) `div` 12) with 1. change ((11 + 1) `mod` 12) with 0.
        change (0 `div` 12) with 0. change (0 `mod` 12) with 0.
        rewrite !Z.add_0_r.
        change (monthStart (InLeapYear (y + 1)) 0) with 0. lia. }
      by destruct (civil_MakeDay (y + 1) 0 1) as (-> & -> & ->); [lia | lia |].
Qed.

(** On the text of Dates of year 100 or later, [daysBetween] is the
    difference of the day numbers. *)
Lemma daysBetween_formatted `{tz : TimeZone} na nb :
  steadyOffsets tz →
  100 ≤ YearFromDay na → 100 ≤ YearFromDay nb →
  TimeClip na = LocalMidnight na → TimeClip nb = LocalMidnight nb →
  daysBetween (formatYMD (OfDate (LocalMidnight na)))
              (formatYMD (OfDate (LocalMidnight nb))) = Num (nb - na).
Proof.
  intros Hs Hya Hyb Ha Hb. unfold daysBetween.
  rewrite !parseYMD_formatYMD, Ha, Hb by done.
  cbn [valueOf num_sub]. by rewrite round_div_days.
Qed.

(** A view year from 0 to 99 is read by the Date constructor as a year
    of the twentieth century, which is why such years are not valid
    views: the grid of January of the year 50 is the one of January
    1950. *)
Lemma monthDays_two_digit_year :
  @monthDays utc 50 0 = @monthDays utc 1950 0
  ∧ ∃ weeks first, @monthDays utc 50 0 = Some weeks
                   ∧ weeks !! 0%nat = Some first
                   ∧ first !! 0%nat = Some (Some "1950-01-01").
Proof. split; [by vm_compute |]. eexists _, _. by vm_compute. Qed.

(** * Further properties *)

(** ** Clicks on the grid *)

Section click_facts.
Context {tz : TimeZone}.

Lemma onDayClick_wellFormed d s : wellFormed s → wellFormed (onDayClick d s).
Proof.
  intros Hw. unfold onDayClick, wellFormed.
  destruct (truthy d) eqn:Hd; simpl; [| exact Hw].
  destruct (truthy (selectStart s)) eqn:Hs; simpl; [| done].
  destruct (truthy (selectEnd s)) eqn:He; simpl; [done |].
  by case_match.
Qed.

Lemma onDayClick_frame d s :
  employees (onDayClick d s) = employees s
  ∧ assignEmployeeId (onDayClick d s) = assignEmployeeId s
  ∧ db (onDayClick d s) = db s.
Proof. unfold onDayClick. repeat case_match; done. Qed.

(** X1: whatever slots are clicked, in whatever order, a selection
    that has no end without a start and whose end does not precede its
    start stays so, and the clicks change neither the employee list,
    nor the chosen employee, nor the store handle. *)
Theorem clicks_keep_selection_sound :
  ∀ (clicks : list (option string)) (s : State),
    wellFormed s → normalized s →
    wellFormed (foldl (λ st d, onDayClick d st) s clicks)
    ∧ normalized (foldl (λ st d, onDayClick d st) s clicks)
    ∧ employees (foldl (λ st d, onDayClick d st) s clicks) = employees s
    ∧ assignEmployeeId (foldl (λ st d, onDayClick d st) s clicks) = assignEmployeeId s
    ∧ db (foldl (λ st d, onDayClick d st) s clicks) = db s.
Proof.
  induction clicks as [| d clicks IH]; intros s Hw Hn; [done |].
  simpl. destruct (onDayClick_frame d s) as (He & Ha & Hdb).
  destruct (IH (onDayClick d s)) as (IHw & IHn & IHe & IHa & IHd);
    [by apply onDayClick_wellFormed | by apply onDayClick_normalized |].
  repeat split; [done | done | congruence | congruence | congruence].
Qed.

(** X2: clicking the same day twice on an empty selection selects the
    one-day range of that day, whatever the text of the slot. *)
Theorem same_day_twice :
  ∀ (s : State) (d : string),
    d ≠ "" → selection s = (None, None) →
    selection (onDayClick (Some d) (onDayClick (Some d) s)) = (Some d, Some d).
Proof.
  intros s d Hd Hsel. injection Hsel as Hs He.
  assert (Ht : truthy (Some d) = true)
    by (unfold truthy; by rewrite bool_decide_eq_false_2).
  pose proof (onDayClick_first d s Ht) as H1. rewrite Hs in H1.
  specialize (H1 eq_refl). injection H1 as H1s H1e.
  rewrite onDayClick_second; rewrite ?H1s, ?H1e; try done.
  simpl. unfold date_lt, num_lt. destruct (valueOf (parseYMD d)); [done |].
  by rewrite bool_decide_eq_false_2 by lia.
Qed.
End click_facts.

Lemma clicks_keep_selection_sound_witness :
  wellFormed initialState ∧ @normalized cet2024 initialState
  ∧ selection (foldl (λ st d, @onDayClick cet2024 d st) initialState
                 [Some "2024-04-01"; None; Some "2024-03-30"])
    = (Some "2024-03-30", Some "2024-04-01")
  ∧ @normalized cet2024
      (foldl (λ st d, @onDayClick cet2024 d st) initialState
         [Some "2024-04-01"; None; Some "2024-03-30"]).
Proof.
  assert (Hw : wellFormed initialState) by done.
  assert (Hn : @normalized cet2024 initialState) by done.
  split; [exact Hw |]. split; [exact Hn |]. split; [by vm_compute |].
  by destruct (clicks_keep_selection_sound (tz := cet2024)
                 [Some "2024-04-01"; None; Some "2024-03-30"] initialState Hw Hn)
    as (_ & Hnorm & _).
Defined.

Lemma same_day_twice_witness :
  "2024-03-30" ≠ "" ∧ selection initialState = (None, None)
  ∧ selection (@onDayClick cet2024 (Some "2024-03-30")
                 (@onDayClick cet2024 (Some "2024-03-30") initialState))
    = (Some "2024-03-30", Some "2024-03-30").
Proof.
  split; [done |]. split; [reflexivity |].
  by apply (same_day_twice (tz := cet2024) initialState "2024-03-30").
Defined.

Lemma tryAssign_refused addDoc w :
  assignable (app w) = false → store (tryAssign addDoc w) = store w.
Proof.
  unfold assignable, tryAssign.
  destruct (truthy (selectStart (app w))); simpl; [| done].
  destruct (truthy (selectEnd (app w))); simpl; [| done].
  destruct (truthy (assignEmployeeId (app w))); simpl; [| done].
  by destruct (db (app w)).
Qed.

Lemma tryAssign_leaves_unassignable w :
  assignable (app (tryAssign Resolved w)) = false.
Proof.
  unfold tryAssign.
  destruct (truthy (selectStart (app w))) eqn:Hs; simpl;
    [| unfold assignable; simpl; by rewrite Hs].
  destruct (truthy (selectEnd (app w))) eqn:He; simpl;
    [| unfold assignable; simpl; by rewrite Hs, He].
  destruct (truthy (assignEmployeeId (app w))) eqn:Ha; simpl;
    [| unfold assignable; simpl; by rewrite Hs, He, Ha].
  destruct (db (app w)) eqn:Hdb; simpl; [done |].
  unfold assignable; simpl. by rewrite Hs, He, Ha, Hdb.
Qed.

(** X3: once an assignment has gone through, or the selection has been
    cancelled, a further [tryAssign] leaves the store as it is: a
    second record needs a new selection. *)
Theorem tryAssign_needs_new_selection :
  ∀ (w : World) (addDoc : outcome),
    store (tryAssign addDoc (tryAssign Resolved w)) = store (tryAssign Resolved w)
    ∧ store (tryAssign addDoc {| app := clearSelection (app w); store := store w |})
      = store w.
Proof.
  intros w o. split; [| reflexivity].
  apply tryAssign_refused, tryAssign_leaves_unassignable.
Qed.

(** ** Reading dates that are not canonical *)

Section reading.
Context {tz : TimeZone}.

Lemma newDate_NaN_date y m : newDate y m NaN = InvalidDate.
Proof. by destruct y, m. Qed.

Lemma parseYMD_short s :
  (length (split "-" s) < 3)%nat → parseYMD s = InvalidDate.
Proof.
  intros Hlen. unfold parseYMD.
  assert ((Number <$> split "-" s) !! 2%nat = None) as ->.
  { apply lookup_ge_None. rewrite length_fmap. lia. }
  apply newDate_NaN_date.
Qed.

(** X4: a string with fewer than two dashes is not read as a date, and
    for a string that is not read as a date [daysBetween] is NaN in
    either position, while [rangesOverlap] answers true for the
    one-day range of that string against any range. *)
Theorem unreadable_dates :
  (∀ s, (length (split "-" s) < 3)%nat → parseYMD s = InvalidDate)
  ∧ (∀ a, parseYMD a = InvalidDate →
       ∀ b c, daysBetween a b = NaN ∧ daysBetween b a = NaN
              ∧ rangesOverlap a a b c = true ∧ rangesOverlap b c a a = true).
Proof.
  split; [exact parseYMD_short |].
  intros a Ha b c. unfold daysBetween, rangesOverlap, date_lt. rewrite Ha.
  simpl. repeat split; try done.
  - by destruct (valueOf (parseYMD b)).
  - by destruct (valueOf (parseYMD c)).
  - destruct (valueOf (parseYMD c)); simpl; by rewrite ?orb_false_r.
Qed.

Lemma MakeDay_date y m d : MakeDay y m d = MakeDay y m 1 + d - 1.
Proof. unfold MakeDay. lia. Qed.

Lemma MakeDay_month_carry y m d : MakeDay y (m + 12) d = MakeDay (y + 1) m d.
Proof.
  unfold MakeDay.
  replace ((m + 12) `div` 12) with (m `div` 12 + 1) by lia.
  replace ((m + 12) `mod` 12) with (m `mod` 12) by lia.
  by replace (y + (m `div` 12 + 1)) with (y + 1 + m `div` 12) by lia.
Qed.

Lemma MakeDay_next_month y m :
  0 ≤ m ≤ 11 →
  MakeDay (nextMonth (y, m)).1 (nextMonth (y, m)).2 1
  = MakeDay y m (monthLength y m) + 1.
Proof.
  intros Hm. rewrite <- MakeDay_day_zero by done. unfold nextMonth.
  case_bool_decide; simpl.
  - assert (m = 11) as -> by lia.
    change (11 + 1) with (0 + 12). rewrite MakeDay_month_carry.
    unfold MakeDay. lia.
  - unfold MakeDay. lia.
Qed.

Lemma MakeDay_bounds y m d :
  100 ≤ y ≤ 275750 → 0 ≤ m ≤ 99 → 0 ≤ d ≤ 99 → Z.abs (MakeDay y m d) ≤ 99999999.
Proof.
  intros Hy Hm Hd. unfold MakeDay.
  pose proof (monthStart_range (InLeapYear (y + m `div` 12)) (m `mod` 12)).
  assert (0 ≤ m `div` 12 ≤ 8) by lia.
  generalize dependent (m `div` 12). intros q Hq Hq'.
  unfold DayFromYear. lia.
Qed.

(** X5: [parseYMD] does not check the day or the month against the
    calendar: days beyond the end of a month count on into the next
    month, and months beyond December into the next year. *)
Theorem parseYMD_carries_over :
  boundedOffsets tz →
  ∀ y m k,
    100 ≤ y ≤ 275749 → 0 ≤ m ≤ 11 → 1 ≤ k → monthLength y m + k ≤ 99 →
    parseYMD (ymd y (m + 1) (monthLength y m + k))
    = parseYMD (ymd (nextMonth (y, m)).1 ((nextMonth (y, m)).2 + 1) k)
    ∧ parseYMD (ymd y (m + 1) (monthLength y m + k))
      = LocalMidnight (MakeDay y m (monthLength y m) + k)
    ∧ parseYMD (ymd y (m + 1 + 12) k) = parseYMD (ymd (y + 1) (m + 1) k).
Proof.
  intros Hb y m k Hy Hm Hk Hlen.
  pose proof (monthLength_bounds y m) as Hl.
  assert (Hread : ∀ y' m' d', 100 ≤ y' ≤ 275750 → 0 ≤ m' ≤ 98 → 0 ≤ d' ≤ 99 →
            parseYMD (ymd y' (m' + 1) d') = LocalMidnight (MakeDay y' m' d')).
  { intros y' m' d' Hy' Hm' Hd'. rewrite parseYMD_ymd by lia.
    unfold newDate. rewrite bool_decide_eq_false_2 by lia.
    replace (m' + 1 - 1) with m' by lia.
    apply TimeClip_in_range; [done |]. apply MakeDay_bounds; lia. }
  assert (Hnext : 100 ≤ (nextMonth (y, m)).1 ≤ 275750 ∧ 0 ≤ (nextMonth (y, m)).2 ≤ 11).
  { unfold nextMonth. case_bool_decide; simpl; lia. }
  assert (Hfirst : parseYMD (ymd y (m + 1) (monthLength y m + k))
                   = LocalMidnight (MakeDay y m (monthLength y m) + k)).
  { rewrite Hread by lia. f_equal. unfold MakeDay. lia. }
  split; [| split; [exact Hfirst |]].
  - rewrite Hfirst, Hread by lia. f_equal.
    rewrite (MakeDay_date _ _ k), MakeDay_next_month by done. lia.
  - replace (m + 1 + 12) with (m + 12 + 1) by lia.
    rewrite !Hread by lia. by rewrite MakeDay_month_carry.
Qed.

(** X6: two Dates of year 100 or later with the same text are the same
    day, so comparing the texts of two cells compares their days. *)
Theorem formatYMD_injective :
  ∀ n1 n2,
    100 ≤ YearFromDay n1 → 100 ≤ YearFromDay n2 →
    TimeClip n1 = LocalMidnight n1 → TimeClip n2 = LocalMidnight n2 →
    formatYMD (OfDate (LocalMidnight n1)) = formatYMD (OfDate (LocalMidnight n2)) →
    n1 = n2.
Proof.
  intros n1 n2 Hy1 Hy2 Hc1 Hc2 Heq.
  pose proof (parseYMD_formatYMD n1 Hy1) as H1.
  pose proof (parseYMD_formatYMD n2 Hy2) as H2.
  rewrite Heq, H2, Hc2 in H1. rewrite Hc1 in H1. congruence.
Qed.
End reading.

Lemma unreadable_dates_witness :
  (length (split "-" "2024-03") < 3)%nat
  ∧ @parseYMD cet2024 "2024-03" = InvalidDate
  ∧ @daysBetween cet2024 "2024-03" "2024-03-30" = NaN
  ∧ @rangesOverlap cet2024 "2024-03" "2024-03" "2024-01-10" "2024-01-15" = true.
Proof.
  assert (Hlen : (length (split "-" "2024-03") < 3)%nat) by (vm_compute; lia).
  destruct (unreadable_dates (tz := cet2024)) as [Hshort Hbad].
  pose proof (Hshort "2024-03" Hlen) as Hinv.
  destruct (Hbad "2024-03" Hinv "2024-03-30" "2024-03-30") as (Hd & _ & _).
  destruct (Hbad "2024-03" Hinv "2024-01-10" "2024-01-15") as (_ & _ & Ho & _).
  done.
Defined.

Lemma parseYMD_carries_over_witness :
  boundedOffsets cet2024
  ∧ @parseYMD cet2024 (ymd 2024 (1 + 1) (monthLength 2024 1 + 1))
    = @parseYMD cet2024 (ymd 2024 3 1)
  ∧ ymd 2024 (1 + 1) (monthLength 2024 1 + 1) = "2024-02-30"
  ∧ @parseYMD cet2024 "2024-02-30" = @parseYMD cet2024 "2024-03-01".
Proof.
  split; [exact cet2024_bounded |].
  destruct (parseYMD_carries_over (tz := cet2024) cet2024_bounded 2024 1 1)
    as (Hnext & _ & _); [lia | lia | lia | by vm_compute |].
  split; [exact Hnext |]. split; [by vm_compute |]. exact Hnext.
Defined.

Lemma formatYMD_injective_witness :
  100 ≤ YearFromDay 19812
  ∧ @TimeClip cet2024 19812 = LocalMidnight 19812
  ∧ formatYMD (OfDate (LocalMidnight 19812)) = formatYMD (OfDate (LocalMidnight 19812))
  ∧ 19812 = 19812.
Proof.
  assert (Hy : 100 ≤ YearFromDay 19812) by by vm_compute.
  assert (Hc : @TimeClip cet2024 19812 = LocalMidnight 19812) by by vm_compute.
  split; [exact Hy |]. split; [exact Hc |]. split; [reflexivity |].
  exact (formatYMD_injective (tz := cet2024) 19812 19812 Hy Hy Hc Hc eq_refl).
Defined.

(** ** Moving the view *)

(** X7: the three navigation buttons keep the month of the view
    within 0..11, and the next and the previous buttons undo each
    other. *)
Theorem navigation_keeps_month :
  ∀ (y m nowDay : Z),
    0 ≤ m ≤ 11 →
    0 ≤ (prevMonth (y, m)).2 ≤ 11
    ∧ 0 ≤ (nextMonth (y, m)).2 ≤ 11
    ∧ 0 ≤ (goToday nowDay).2 ≤ 11
    ∧ nextMonth (prevMonth (y, m)) = (y, m)
    ∧ prevMonth (nextMonth (y, m)) = (y, m).
Proof.
  intros y m nowDay Hm. pose proof (MonthFromDay_range nowDay).
  unfold prevMonth, nextMonth, goToday. simpl.
  repeat case_bool_decide; simpl; repeat split; try lia;
    repeat case_bool_decide; try lia; f_equal; lia.
Qed.

Lemma navigation_keeps_month_witness :
  0 ≤ 0 ≤ 11
  ∧ prevMonth (2024, 0) = (2023, 11)
  ∧ nextMonth (prevMonth (2024, 0)) = (2024, 0)
  ∧ prevMonth (nextMonth (2024, 0)) = (2024, 0).
Proof.
  split; [lia |]. split; [reflexivity |].
  by destruct (navigation_keeps_month 2024 0 0 ltac:(lia)) as (_ & _ & _ & Hnp & Hpn).
Defined.

(** X8: the next view begins on the day after the last day of the
    current one, and the current view begins on the day after the last
    day of the previous one. *)
Theorem navigation_follows_calendar :
  ∀ (y m : Z),
    0 ≤ m ≤ 11 →
    MakeDay (nextMonth (y, m)).1 (nextMonth (y, m)).2 1
    = MakeDay y m (monthLength y m) + 1
    ∧ MakeDay y m 1
      = MakeDay (prevMonth (y, m)).1 (prevMonth (y, m)).2
          (monthLength (prevMonth (y, m)).1 (prevMonth (y, m)).2) + 1.
Proof.
  intros y m Hm. split; [by apply MakeDay_next_month |].
  assert (Hp : 0 ≤ (prevMonth (y, m)).2 ≤ 11)
    by (unfold prevMonth; case_bool_decide; simpl; lia).
  rewrite <- MakeDay_next_month by done.
  assert (nextMonth ((prevMonth (y, m)).1, (prevMonth (y, m)).2) = (y, m)) as ->; [| done].
  destruct (decide (m = 0)) as [-> | Hne].
  - unfold prevMonth. rewrite bool_decide_eq_true_2 by lia.
    cbn [fst snd]. unfold nextMonth.
    rewrite bool_decide_eq_true_2 by lia. f_equal. lia.
  - unfold prevMonth. rewrite bool_decide_eq_false_2 by lia.
    cbn [fst snd]. unfold nextMonth.
    rewrite bool_decide_eq_false_2 by lia. f_equal. lia.
Qed.

Lemma navigation_follows_calendar_witness :
  0 ≤ 11 ≤ 11
  ∧ nextMonth (2024, 11) = (2025, 0)
  ∧ MakeDay 2025 0 1 = MakeDay 2024 11 (monthLength 2024 11) + 1.
Proof.
  split; [lia |]. split; [reflexivity |].
  by destruct (navigation_follows_calendar 2024 11 ltac:(lia)) as [Hn _].
Defined.

(** ** More on the month grid *)

Lemma lookup_concat_rows {A} (rows : list (list A)) :
  Forall (λ row, length row = 7%nat) rows →
  ∀ (r c : nat) (row : list A),
    rows !! r = Some row → (c < 7)%nat → concat rows !! (7 * r + c)%nat = row !! c.
Proof.
  induction 1 as [| row0 rows Hrow _ IH]; intros r c row Hr Hc; [done |].
  rewrite concat_cons. destruct r as [| r]; simpl in Hr.
  - injection Hr as ->. by rewrite lookup_app_l by lia.
  - rewrite lookup_app_r by lia. rewrite Hrow.
    replace (7 * S r + c - 7)%nat with (7 * r + c)%nat by lia.
    by apply IH.
Qed.

Lemma zeller_date y m d : zeller y m d = (zeller y m 1 + d - 1) `mod` 7.
Proof. unfold zeller. lia. Qed.

Lemma append_inj_r (a x y : string) : a +:+ x = a +:+ y → x = y.
Proof. induction a as [| c a IH]; simpl; [done |]. intros [= H]. by apply IH. Qed.

Lemma ymd_day_inj y m d d' :
  0 ≤ d ≤ 99 → 0 ≤ d' ≤ 99 → ymd y m d = ymd y m d' → d = d'.
Proof.
  intros Hd Hd' Heq. unfold ymd in Heq.
  do 4 apply append_inj_r in Heq.
  destruct (fieldOk_range d Hd) as [Hn _].
  destruct (fieldOk_range d' Hd') as [Hn' _].
  rewrite Heq in Hn. congruence.
Qed.

Lemma NoDup_monthDates y m : NoDup (monthDates y m).
Proof.
  pose proof (monthLength_bounds y m) as Hl. unfold monthDates.
  apply NoDup_fmap_2_strong; [| apply NoDup_seqZ].
  intros d d' Hd Hd' Heq. apply elem_of_seqZ in Hd, Hd'.
  apply (ymd_day_inj y (m + 1)); [lia | lia | done].
Qed.

Section grid_more.
Context {tz : TimeZone}.

(** Every row has seven slots, whatever the view. *)
Lemma monthDays_seven y m :
  ∃ weeks, monthDays y m = Some weeks ∧ Forall (λ row, length row = 7%nat) weeks.
Proof.
  unfold monthDays.
  set (daysInMonth := getDate (newDate (Num y) (Num (m + 1)) (Num 0))).
  assert (Hdim : match daysInMonth with Num dim => dim ≤ 31 | NaN => True end).
  { unfold daysInMonth. destruct (newDate _ _ _) as [| n]; simpl; [done |].
    pose proof (DateFromDay_range n).
    pose proof (monthLength_bounds (YearFromDay n) (MonthFromDay n)). lia. }
  destruct (newDate (Num y) (Num m) (Num 1)) as [| n]; simpl getDay.
  - rewrite firstWeek_fold_NaN.
    destruct (laterWeeks_total y m daysInMonth (weeksFuel daysInMonth)
                ([] ++ [dayCell y m <$> seqZ 1 7]) 8) as (rest & -> & Hall).
    { destruct daysInMonth; simpl; [done | lia]. }
    eexists. split; [done |]. apply Forall_app. split; [| done].
    by repeat constructor.
  - pose proof (WeekDay_range n) as Hwd.
    rewrite firstWeek_fold by done. cbv beta iota.
    destruct (laterWeeks_total y m daysInMonth (weeksFuel daysInMonth)
                ([] ++ [replicate (Z.to_nat (WeekDay n)) None
                        ++ (dayCell y m <$> seqZ 1 (7 - WeekDay n))])
                (8 - WeekDay n)) as (rest & -> & Hall).
    { destruct daysInMonth; simpl; [done | lia]. }
    eexists. split; [done |]. apply Forall_app. split; [| done].
    repeat constructor.
    rewrite length_app, length_replicate, length_fmap, length_seqZ. lia.
Qed.

(** The grid of a valid view, flattened. *)
Lemma monthDays_flat y m :
  boundedOffsets tz → validView y m →
  ∃ weeks,
    monthDays y m = Some weeks
    ∧ Forall (λ row, length row = 7%nat) weeks
    ∧ concat weeks
      = replicate (Z.to_nat (zeller y (m + 1) 1)) None
        ++ (Some <$> monthDates y m)
        ++ replicate (Z.to_nat ((- (zeller y (m + 1) 1 + monthLength y m)) `mod` 7)) None.
Proof.
  intros Hb Hv. destruct (monthDays_seven y m) as (weeks & Hweeks & Hall).
  exists weeks. split; [done |]. split; [done |].
  destruct (monthDays_grid Hb y m Hv) as (first & init & j & Hgrid & _ & _ & Hcat).
  rewrite Hweeks in Hgrid. injection Hgrid as ->. exact Hcat.
Qed.

Lemma flat_lookup_date y m (k : Z) :
  1 ≤ k ≤ monthLength y m →
  (replicate (Z.to_nat (zeller y (m + 1) 1)) None
   ++ (Some <$> monthDates y m)
   ++ replicate (Z.to_nat ((- (zeller y (m + 1) 1 + monthLength y m)) `mod` 7)) None)
  !! Z.to_nat (zeller y (m + 1) 1 + k - 1)
  = Some (Some (ymd y (m + 1) k)).
Proof.
  intros Hk. pose proof (zeller_range y (m + 1) 1) as Hwd.
  rewrite lookup_app_r by (rewrite length_replicate; lia).
  rewrite length_replicate.
  replace (Z.to_nat (zeller y (m + 1) 1 + k - 1) - Z.to_nat (zeller y (m + 1) 1))%nat
    with (Z.to_nat (k - 1)) by lia.
  rewrite lookup_app_l
    by (unfold monthDates; rewrite !length_fmap, length_seqZ; lia).
  unfold monthDates. rewrite !list_lookup_fmap.
  rewrite (lookup_seqZ_lt _ _ (Z.to_nat (k - 1))) by lia.
  simpl. do 3 f_equal. lia.
Qed.

Lemma flat_lookup_Some y m (i : nat) (text : string) :
  (replicate (Z.to_nat (zeller y (m + 1) 1)) None
   ++ (Some <$> monthDates y m)
   ++ replicate (Z.to_nat ((- (zeller y (m + 1) 1 + monthLength y m)) `mod` 7)) None)
  !! i = Some (Some text) →
  ∃ k, 1 ≤ k ≤ monthLength y m ∧ text = ymd y (m + 1) k
       ∧ Z.of_nat i = zeller y (m + 1) 1 + k - 1.
Proof.
  intros Hl. pose proof (zeller_range y (m + 1) 1) as Hwd.
  apply lookup_app_Some in Hl as [Hl | [Hlen Hl]].
  { apply lookup_replicate in Hl as [? _]. done. }
  rewrite length_replicate in Hlen, Hl.
  apply lookup_app_Some in Hl as [Hl | [_ Hl]].
  - unfold monthDates in Hl. rewrite !list_lookup_fmap in Hl.
    destruct (seqZ 1 (monthLength y m) !! (i - Z.to_nat (zeller y (m + 1) 1))%nat)
      as [k |] eqn:Hk; [| done].
    apply lookup_seqZ in Hk as [-> Hk]. simpl in Hl. injection Hl as <-.
    eexists. split; [| split; [reflexivity |]]; lia.
  - apply lookup_replicate in Hl as [? _]. done.
Qed.

(** X9: in the grid of a valid view, on a host that skips no local
    day, every date of the month sits in the column of its own day of
    the week (Sunday = 0), in the row its position after the leading
    empty slots gives; and every slot that is not empty holds a date
    of the month whose day of the week is the slot's column. *)
Theorem dates_sit_in_weekday_columns :
  boundedOffsets tz → steadyOffsets tz →
  ∀ y m, validView y m →
    ∃ weeks,
      monthDays y m = Some weeks
      ∧ (∀ k, 1 ≤ k ≤ monthLength y m →
           ∃ row,
             weeks !! Z.to_nat ((zeller y (m + 1) 1 + k - 1) `div` 7) = Some row
             ∧ row !! Z.to_nat (zeller y (m + 1) k) = Some (Some (dateText y (m + 1) k)))
      ∧ (∀ (r c : nat) row text,
           weeks !! r = Some row → row !! c = Some (Some text) →
           ∃ k, 1 ≤ k ≤ monthLength y m ∧ text = dateText y (m + 1) k
                ∧ Z.of_nat c = zeller y (m + 1) k).
Proof.
  intros Hb _ y m Hv. destruct (monthDays_flat y m Hb Hv) as (weeks & Hweeks & Hall & Hcat).
  pose proof (zeller_range y (m + 1) 1) as Hwd.
  pose proof (monthLength_bounds y m) as Hl.
  assert (Hm : 0 ≤ m ≤ 11) by (destruct Hv; lia).
  pose proof (length_concat_rows weeks Hall) as Hlen.
  exists weeks. split; [done |]. split.
  - intros k Hk. rewrite <- (ymd_dateText y (m + 1) k) by lia.
    pose proof (flat_lookup_date y m k Hk) as Hflat.
    rewrite <- Hcat in Hflat.
    set (i := zeller y (m + 1) 1 + k - 1) in *.
    assert (Hi : (Z.to_nat i < length (concat weeks))%nat)
      by (eapply lookup_lt_Some; exact Hflat).
    destruct (weeks !! Z.to_nat (i `div` 7)) as [row |] eqn:Hrow;
      [| apply lookup_ge_None in Hrow; lia].
    exists row. split; [done |].
    rewrite (zeller_date y (m + 1) k). fold i.
    rewrite <- (lookup_concat_rows weeks Hall _ _ row Hrow) by lia.
    rewrite <- Hflat. f_equal. lia.
  - intros r c row text Hrow Hc.
    assert (Hc7 : (c < 7)%nat).
    { apply lookup_lt_Some in Hc.
      rewrite Forall_forall in Hall.
      rewrite (Hall row) in Hc; [done |]. by eapply list_elem_of_lookup_2. }
    pose proof (lookup_concat_rows weeks Hall r c row Hrow Hc7) as Hflat.
    rewrite Hc, Hcat in Hflat.
    destruct (flat_lookup_Some y m _ _ Hflat) as (k & Hk & -> & Hi).
    exists k. split; [done |]. split; [apply ymd_dateText; lia |].
    rewrite (zeller_date y (m + 1) k). lia.
Qed.

(** X10: the grid of a valid view, on a host that skips no local
    day, has as many rows as the leading empty slots and the days of
    the month need, rounded up to whole weeks: never fewer than four
    and never more than six. *)
Theorem monthDays_row_count :
  boundedOffsets tz → steadyOffsets tz →
  ∀ y m, validView y m →
    ∃ weeks,
      monthDays y m = Some weeks
      ∧ Z.of_nat (length weeks) = rowCount y m
      ∧ 4 ≤ rowCount y m ≤ 6.
Proof.
  intros Hb _ y m Hv. destruct (monthDays_flat y m Hb Hv) as (weeks & Hweeks & Hall & Hcat).
  pose proof (zeller_range y (m + 1) 1) as Hwd.
  pose proof (monthLength_bounds y m) as Hl.
  pose proof (length_concat_rows weeks Hall) as Hlen.
  rewrite Hcat, !length_app, !length_replicate, length_fmap in Hlen.
  unfold monthDates in Hlen. rewrite length_fmap, length_seqZ in Hlen.
  exists weeks. split; [done |]. unfold rowCount. split; lia.
Qed.

Lemma filled_flat y m :
  filled [replicate (Z.to_nat (zeller y (m + 1) 1)) None
          ++ (Some <$> monthDates y m)
          ++ replicate (Z.to_nat ((- (zeller y (m + 1) 1 + monthLength y m)) `mod` 7)) None]
  = monthDates y m.
Proof.
  unfold filled. simpl. rewrite app_nil_r, app_assoc, omap_app.
  rewrite omap_app, omap_id_None, omap_id_Some, omap_id_None.
  by rewrite app_nil_r.
Qed.

Lemma filled_valid y m weeks :
  boundedOffsets tz → validView y m → monthDays y m = Some weeks →
  filled weeks = monthDates y m.
Proof.
  intros Hb Hv Hweeks.
  destruct (monthDays_flat y m Hb Hv) as (weeks' & Hweeks' & _ & Hcat).
  rewrite Hweeks in Hweeks'. injection Hweeks' as <-.
  rewrite <- (filled_flat y m). unfold filled. simpl. by rewrite app_nil_r, Hcat.
Qed.

(** X11: read by [parseYMD] in reading order, the cells of the grid
    of a valid view of year 100 or later, on a host that skips no
    local day, are the consecutive days of the calendar from the 1st
    of the month on, one for each day of the month: a click on a cell
    hands [onDayClick] the day the cell shows. *)
Theorem grid_cells_read_back :
  boundedOffsets tz → steadyOffsets tz →
  ∀ y m, validView y m → 100 ≤ y →
    ∃ weeks,
      monthDays y m = Some weeks
      ∧ parseYMD <$> filled weeks
        = LocalMidnight <$> seqZ (calendarDay y (m + 1) 1) (monthLength y m).
Proof.
  intros Hb _ y m Hv Hy. destruct (monthDays_seven y m) as (weeks & Hweeks & _).
  exists weeks. split; [done |].
  rewrite (filled_valid y m weeks) by done.
  pose proof (monthLength_bounds y m) as Hl.
  assert (Hm : 0 ≤ m ≤ 11) by (destruct Hv; lia).
  rewrite <- MakeDay_calendarDay by lia. replace (m + 1 - 1) with m by lia.
  unfold monthDates. rewrite <- list_fmap_compose.
  replace (seqZ (MakeDay y m 1) (monthLength y m))
    with ((λ d, MakeDay y m d) <$> seqZ 1 (monthLength y m)).
  - rewrite <- list_fmap_compose. apply Forall_fmap_ext, Forall_seqZ.
    intros d Hd. simpl.
    rewrite parseYMD_date; [| done | lia | | ];
      replace (m + 1 - 1) with m by lia; [done | done | lia].
  - apply list_eq. intros i. rewrite list_lookup_fmap.
    destruct (decide (Z.of_nat i < monthLength y m)) as [Hi | Hi].
    + rewrite !lookup_seqZ_lt by lia. simpl. f_equal.
      rewrite (MakeDay_date y m (1 + Z.of_nat i)). lia.
    + by rewrite !lookup_seqZ_ge by lia.
Qed.

(** X12: on a host that skips no local day, the view the 'today'
    button sets shows today's date, and its grid, when the view is
    valid, shows no date twice, so exactly one of its cells is
    today's. *)
Theorem today_is_in_view :
  boundedOffsets tz → steadyOffsets tz →
  ∀ nowDay, validView (goToday nowDay).1 (goToday nowDay).2 →
    ∃ weeks,
      monthDays (goToday nowDay).1 (goToday nowDay).2 = Some weeks
      ∧ today nowDay ∈ filled weeks
      ∧ NoDup (filled weeks).
Proof.
  intros Hb _ nowDay Hv. simpl in *.
  destruct (monthDays_seven (YearFromDay nowDay) (MonthFromDay nowDay))
    as (weeks & Hweeks & _).
  exists weeks. split; [done |]. rewrite (filled_valid _ _ weeks) by done.
  split; [| apply NoDup_monthDates].
  unfold today. rewrite formatYMD_day. unfold monthDates.
  apply list_elem_of_fmap. exists (DateFromDay nowDay). split; [done |].
  apply elem_of_seqZ. pose proof (DateFromDay_range nowDay). lia.
Qed.
End grid_more.

Lemma dates_sit_in_weekday_columns_witness :
  boundedOffsets cet2024 ∧ steadyOffsets cet2024 ∧ validView 2024 1
  ∧ dateText 2024 (1 + 1) 29 = "2024-02-29"
  ∧ ∃ weeks,
      @monthDays cet2024 2024 1 = Some weeks
      ∧ ∃ row, weeks !! Z.to_nat ((zeller 2024 (1 + 1) 1 + 29 - 1) `div` 7) = Some row
               ∧ row !! Z.to_nat (zeller 2024 (1 + 1) 29)
                 = Some (Some (dateText 2024 (1 + 1) 29)).
Proof.
  assert (Hv : validView 2024 1) by (unfold validView; lia).
  split; [exact cet2024_bounded |]. split; [exact cet2024_steady |].
  split; [exact Hv |]. split; [reflexivity |].
  destruct (dates_sit_in_weekday_columns (tz := cet2024) cet2024_bounded
              cet2024_steady 2024 1 Hv)
    as (weeks & Hweeks & Hdates & _).
  exists weeks. split; [exact Hweeks |].
  assert (Hlen : monthLength 2024 1 = 29) by (vm_compute; reflexivity).
  apply Hdates. lia.
Defined.

Lemma monthDays_row_count_witness :
  boundedOffsets cet2024 ∧ steadyOffsets cet2024 ∧ validView 2026 1
  ∧ ∃ weeks, @monthDays cet2024 2026 1 = Some weeks
             ∧ Z.of_nat (length weeks) = rowCount 2026 1
             ∧ 4 ≤ rowCount 2026 1 ≤ 6.
Proof.
  assert (Hv : validView 2026 1) by (unfold validView; lia).
  split; [exact cet2024_bounded |]. split; [exact cet2024_steady |].
  split; [exact Hv |].
  exact (monthDays_row_count (tz := cet2024) cet2024_bounded cet2024_steady 2026 1 Hv).
Defined.

Lemma grid_cells_read_back_witness :
  boundedOffsets cet2024 ∧ steadyOffsets cet2024 ∧ validView 2024 1 ∧ 100 ≤ 2024
  ∧ ∃ weeks,
      @monthDays cet2024 2024 1 = Some weeks
      ∧ @parseYMD cet2024 <$> filled weeks
        = LocalMidnight <$> seqZ (calendarDay 2024 (1 + 1) 1) (monthLength 2024 1).
Proof.
  assert (Hv : validView 2024 1) by (unfold validView; lia).
  split; [exact cet2024_bounded |]. split; [exact cet2024_steady |].
  split; [exact Hv |]. split; [lia |].
  apply (grid_cells_read_back (tz := cet2024) cet2024_bounded cet2024_steady 2024 1 Hv).
  lia.
Defined.

Lemma today_is_in_view_witness :
  boundedOffsets cet2024 ∧ steadyOffsets cet2024
  ∧ validView (goToday 19812).1 (goToday 19812).2
  ∧ today 19812 = "2024-03-30"
  ∧ ∃ weeks,
      @monthDays cet2024 (goToday 19812).1 (goToday 19812).2 = Some weeks
      ∧ today 19812 ∈ filled weeks
      ∧ NoDup (filled weeks).
Proof.
  assert (Hg : goToday 19812 = (2024, 2)) by (vm_compute; reflexivity).
  assert (Hv : validView (goToday 19812).1 (goToday 19812).2)
    by (rewrite Hg; unfold validView; simpl; lia).
  split; [exact cet2024_bounded |]. split; [exact cet2024_steady |].
  split; [exact Hv |]. split; [reflexivity |].
  exact (today_is_in_view (tz := cet2024) cet2024_bounded cet2024_steady 19812 Hv).
Defined.

(** ** Snapshots and lookups *)

Lemma employeesSnapshot_elem st e :
  e ∈ employeesSnapshot st ↔
  ∃ id d, employeesCol st !! id = Some d
          ∧ e = {| emp_id := Some id; emp_name := name d; emp_color := color d |}.
Proof.
  unfold employeesSnapshot. rewrite list_elem_of_fmap. split.
  - intros ([id d] & -> & Hin%elem_of_map_to_list). by exists id, d.
  - intros (id & d & Hd & ->). exists (id, d). split; [done |].
    by apply elem_of_map_to_list.
Qed.

Lemma vacationsSnapshot_elem st v :
  v ∈ vacationsSnapshot st ↔
  ∃ d, vacationsCol st !! vac_id v = Some d
       ∧ v = {| vac_id := vac_id v; vac_employeeId := employeeId d;
                vac_start := start d; vac_end := end_ d |}.
Proof.
  unfold vacationsSnapshot. rewrite list_elem_of_fmap. split.
  - intros ([id d] & -> & Hin%elem_of_map_to_list). by exists d.
  - intros (d & Hd & Hv). exists (vac_id v, d). split; [done |].
    by apply elem_of_map_to_list.
Qed.

Lemma employeeById_snapshot_found st s id d :
  employeesCol st !! id = Some d →
  employeeById (setEmployees (employeesSnapshot st) s) (Some id)
  = {| emp_id := Some id; emp_name := name d; emp_color := color d |}.
Proof.
  intros Hd. unfold employeeById. simpl.
  destruct (find_strict_eq_Some (employeesSnapshot st) id)
    as (before & e & after & Hl & -> & He & _).
  { eexists. split; [apply employeesSnapshot_elem; by exists id, d | done]. }
  simpl.
  assert (e ∈ employeesSnapshot st) as (id' & d' & Hd' & ->)%employeesSnapshot_elem
    by (rewrite Hl; apply elem_of_app; right; left).
  simpl in He. injection He as ->. congruence.
Qed.

Lemma employeeById_snapshot_missing st s id :
  employeesCol st !! id = None →
  employeeById (setEmployees (employeesSnapshot st) s) (Some id) = placeholder.
Proof.
  intros Hnone. unfold employeeById. simpl.
  assert (List.find (λ e, strict_eq (emp_id e) (Some id)) (employeesSnapshot st) = None)
    as ->; [| done].
  apply find_strict_eq_None. intros e (id' & d' & Hd' & ->)%employeesSnapshot_elem.
  left. simpl. congruence.
Qed.

(** X13: after the employees snapshot has been taken in, looking up
    the id of a stored employee gives that employee's id, name and
    color, and looking up an id that is not in the store, or [null],
    gives the placeholder. *)
Theorem employeeById_after_snapshot :
  ∀ (w : World) (id : string),
    (∀ d, employeesCol (store w) !! id = Some d →
       employeeById (app (onEmployeesSnapshot w)) (Some id)
       = {| emp_id := Some id; emp_name := name d; emp_color := color d |})
    ∧ (employeesCol (store w) !! id = None →
       employeeById (app (onEmployeesSnapshot w)) (Some id) = placeholder)
    ∧ employeeById (app (onEmployeesSnapshot w)) None = placeholder.
Proof.
  intros w id. split; [| split].
  - intros d Hd. by apply employeeById_snapshot_found.
  - by apply employeeById_snapshot_missing.
  - unfold employeeById.
    assert (List.find (λ e, strict_eq (emp_id e) None)
              (employees (app (onEmployeesSnapshot w))) = None) as ->; [| done].
    apply find_strict_eq_None. by right.
Qed.

Lemma employeeById_after_snapshot_witness :
  employeesCol (store readyWorld) !! "e1" = Some {| name := "Ana"; color := "red" |}
  ∧ employeeById (app (onEmployeesSnapshot readyWorld)) (Some "e1")
    = {| emp_id := Some "e1"; emp_name := "Ana"; emp_color := "red" |}
  ∧ employeesCol (store readyWorld) !! "e2" = None
  ∧ employeeById (app (onEmployeesSnapshot readyWorld)) (Some "e2") = placeholder.
Proof.
  assert (H1 : employeesCol (store readyWorld) !! "e1"
               = Some {| name := "Ana"; color := "red" |}) by by vm_compute.
  assert (H2 : employeesCol (store readyWorld) !! "e2" = None) by by vm_compute.
  destruct (employeeById_after_snapshot readyWorld "e1") as (Hfound & _ & _).
  destruct (employeeById_after_snapshot readyWorld "e2") as (_ & Hmissing & _).
  split; [exact H1 |]. split; [exact (Hfound _ H1) |].
  split; [exact H2 | exact (Hmissing H2)].
Defined.

(** X14: once [removeEmployee] has deleted the employee record,
    whether or not the query for the vacations succeeds, the next
    snapshot makes the lookup of that id give the placeholder, while
    every other stored employee is still found. *)
Theorem removed_employee_degrades :
  ∀ (w : World) (empId : string) (getDocs : outcome),
    db (app w) = true →
    employeeById (app (onEmployeesSnapshot (removeEmployee Resolved getDocs empId w).1))
      (Some empId) = placeholder
    ∧ ∀ id d, id ≠ empId → employeesCol (store w) !! id = Some d →
        employeeById (app (onEmployeesSnapshot (removeEmployee Resolved getDocs empId w).1))
          (Some id)
        = {| emp_id := Some id; emp_name := name d; emp_color := color d |}.
Proof.
  intros w empId getDocs Hdb. unfold removeEmployee. rewrite Hdb. simpl negb. cbv iota.
  destruct getDocs; simpl fst.
  - split; [apply employeeById_snapshot_missing, lookup_delete_eq |].
    intros id d Hne Hd. apply employeeById_snapshot_found. simpl.
    by rewrite lookup_delete_ne.
  - split; [apply employeeById_snapshot_missing, lookup_delete_eq |].
    intros id d Hne Hd. apply employeeById_snapshot_found. simpl.
    by rewrite lookup_delete_ne.
Qed.

Lemma removed_employee_degrades_witness :
  db (app readyWorld) = true
  ∧ employeeById (app (onEmployeesSnapshot readyWorld)) (Some "e1") = ana
  ∧ employeeById
      (app (onEmployeesSnapshot (removeEmployee Resolved Rejected "e1" readyWorld).1))
      (Some "e1") = placeholder.
Proof.
  split; [reflexivity |]. split; [by vm_compute |].
  by destruct (removed_employee_degrades readyWorld "e1" Rejected eq_refl) as [Hp _].
Defined.

(** ** Removing a vacation *)

(** X15: removing the vacation an assignment has just created gives
    back the store as it was before the assignment. *)
Theorem assign_then_remove :
  ∀ `{tz : TimeZone} (w : World),
    assignable (app w) = true →
    ∃ id,
      vacationsCol (store w) !! id = None
      ∧ is_Some (vacationsCol (store (tryAssign Resolved w)) !! id)
      ∧ store (removeVacation Resolved id (tryAssign Resolved w)) = store w.
Proof.
  intros tz w Hok. pose proof (fresh_vacation_id (store w)) as Hfresh.
  exists (fresh (dom (vacationsCol (store w)))). split; [done |].
  revert Hok. unfold assignable, tryAssign, removeVacation.
  destruct (truthy (selectStart (app w))); simpl; [| done].
  destruct (truthy (selectEnd (app w))); simpl; [| done].
  destruct (truthy (assignEmployeeId (app w))); simpl; [| done].
  destruct (db (app w)) eqn:Hdb; simpl; [| done]. intros _.
  rewrite ?Hdb. simpl.
  split; [rewrite lookup_insert_eq; eauto |].
  rewrite delete_insert_eq, (delete_id _ _ Hfresh). by destruct (store w).
Qed.

Lemma assign_then_remove_witness :
  assignable (app readyWorld) = true
  ∧ ∃ id, vacationsCol (store readyWorld) !! id = None
          ∧ is_Some (vacationsCol (store (tryAssign Resolved readyWorld)) !! id)
          ∧ store (removeVacation Resolved id (tryAssign Resolved readyWorld))
            = store readyWorld.
Proof.
  split; [reflexivity |].
  exact (assign_then_remove (tz := cet2024) readyWorld eq_refl).
Defined.

(** X16: [removeVacation] deletes the one record with the given id and
    nothing else: every employee and every other vacation stays, there
    is no cascade, a second removal changes nothing more, and without
    the store handle, or when [deleteDoc] rejects, nothing changes at
    all. *)
Theorem removeVacation_single :
  ∀ (w : World) (vacId : string) (deleteDoc : outcome),
    app (removeVacation deleteDoc vacId w) = app w
    ∧ employeesCol (store (removeVacation deleteDoc vacId w)) = employeesCol (store w)
    ∧ (∀ id, id ≠ vacId →
         vacationsCol (store (removeVacation deleteDoc vacId w)) !! id
         = vacationsCol (store w) !! id)
    ∧ (db (app w) = true →
       vacationsCol (store (removeVacation Resolved vacId w)) !! vacId = None
       ∧ removeVacation Resolved vacId (removeVacation Resolved vacId w)
         = removeVacation Resolved vacId w)
    ∧ (db (app w) = false ∨ deleteDoc = Rejected →
       removeVacation deleteDoc vacId w = w).
Proof.
  intros w vacId o. unfold removeVacation.
  destruct (db (app w)) eqn:Hdb; simpl.
  - split; [by destruct o |]. split; [by destruct o |]. split.
    { intros id Hne. destruct o; simpl; [by rewrite lookup_delete_ne | done]. }
    split.
    + intros _. split; [apply lookup_delete_eq |].
      rewrite Hdb. simpl. by rewrite delete_delete_eq.
    + intros [? | ->]; done.
  - repeat split; try done.
Qed.

Lemma removeVacation_single_witness :
  db (app readyWorld) = true
  ∧ vacationsCol (store (removeVacation Resolved "v1" readyWorld)) !! "v1" = None
  ∧ is_Some (vacationsCol (store (removeVacation Resolved "v1" readyWorld)) !! "v2")
  ∧ removeVacation Rejected "v1" readyWorld = readyWorld.
Proof.
  split; [reflexivity |].
  destruct (removeVacation_single readyWorld "v1" Resolved) as (_ & _ & _ & Hgone & _).
  destruct (removeVacation_single readyWorld "v1" Rejected) as (_ & _ & _ & _ & Hsame).
  split; [exact (proj1 (Hgone eq_refl)) |].
  split; [eexists; vm_compute; reflexivity |].
  apply Hsame. by right.
Defined.

(** ** Removing an employee: failures and repetition *)

(** X17: without the store handle, or when the deletion of the
    employee rejects, [removeEmployee] changes nothing and starts no
    deletion; when the deletion goes through but the query for the
    vacations rejects, the employee is gone, no deletion is started,
    and every vacation, those of that employee included, stays in the
    store. *)
Theorem removeEmployee_failures :
  ∀ (w : World) (empId : string) (deleteDoc getDocs : outcome),
    (db (app w) = false ∨ deleteDoc = Rejected →
     removeEmployee deleteDoc getDocs empId w = (w, []))
    ∧ (db (app w) = true →
       (removeEmployee Resolved Rejected empId w).2 = []
       ∧ employeesCol (store (removeEmployee Resolved Rejected empId w).1) !! empId = None
       ∧ vacationsCol (store (removeEmployee Resolved Rejected empId w).1)
         = vacationsCol (store w)
       ∧ vacationsOf empId (store (removeEmployee Resolved Rejected empId w).1)
         = vacationsOf empId (store w)).
Proof.
  intros w empId o1 o2. unfold removeEmployee. split.
  - intros [-> | ->]; [done |]. by destruct (db (app w)).
  - intros ->. simpl. split; [done |]. split; [apply lookup_delete_eq | done].
Qed.

Lemma removeEmployee_failures_witness :
  db (app readyWorld) = true
  ∧ (removeEmployee Resolved Rejected "e1" readyWorld).2 = []
  ∧ employeesCol (store (removeEmployee Resolved Rejected "e1" readyWorld).1) !! "e1" = None
  ∧ vacationsCol (store (removeEmployee Resolved Rejected "e1" readyWorld).1)
    = vacationsCol (store readyWorld)
  ∧ removeEmployee Rejected Resolved "e1" readyWorld = (readyWorld, []).
Proof.
  destruct (removeEmployee_failures readyWorld "e1" Rejected Resolved) as [Hnone Horphan].
  destruct (Horphan eq_refl) as (H1 & H2 & H3 & _).
  split; [reflexivity |]. split; [exact H1 |]. split; [exact H2 |].
  split; [exact H3 |]. apply Hnone. by right.
Defined.

Lemma removeEmployee_settled w empId st' :
  rtc settle (exec (DeleteEmployee empId) (store w),
              (λ d : string * VacationData, DeleteVacation d.1)
              <$> vacationsOf empId (exec (DeleteEmployee empId) (store w)))
             (st', []) →
  employeesCol st' !! empId = None
  ∧ (∀ id v, vacationsCol st' !! id = Some v → employeeId v ≠ empId)
  ∧ (∀ id v, vacationsCol (store w) !! id = Some v → employeeId v ≠ empId →
             vacationsCol st' !! id = Some v).
Proof.
  intros Hsteps.
  set (st := exec (DeleteEmployee empId) (store w)) in *.
  set (pending := (λ d : string * VacationData, DeleteVacation d.1)
                  <$> vacationsOf empId st) in *.
  assert (Hpending : ∀ r, r ∈ pending ↔
            ∃ id v, r = DeleteVacation id ∧ vacationsCol (store w) !! id = Some v
                    ∧ employeeId v = empId).
  { intros r. unfold pending. rewrite list_elem_of_fmap. split.
    - intros ([id v] & -> & [Hv He]%vacationsOf_elem). by exists id, v.
    - intros (id & v & -> & Hv & He). exists (id, v). split; [done |].
      by apply vacationsOf_elem. }
  assert (Hstart : cascading empId (vacationsCol (store w)) (st, pending)).
  { split; [apply lookup_delete_eq |]. split; [| split].
    - apply Forall_forall. intros r Hr. by apply Hpending.
    - intros id v Hv He. apply Hpending. by exists id, v.
    - intros id v Hv _. exact Hv. }
  destruct (cascading_rtc _ _ _ _ Hstart Hsteps) as (Hemp & _ & Hgone & Hkept).
  simpl in *. split; [done |]. split; [| done].
  intros id v Hv He. specialize (Hgone id v Hv He). by apply not_elem_of_nil in Hgone.
Qed.

(** X18: once the deletions started by [removeEmployee] have all
    resolved, removing the same employee again changes nothing and
    starts no deletion. *)
Theorem removeEmployee_again :
  ∀ (w : World) (empId : string) (st' : Store),
    db (app w) = true →
    rtc settle ((removeEmployee Resolved Resolved empId w).1.(store),
                (removeEmployee Resolved Resolved empId w).2) (st', []) →
    removeEmployee Resolved Resolved empId {| app := app w; store := st' |}
    = ({| app := app w; store := st' |}, []).
Proof.
  intros w empId st' Hdb. unfold removeEmployee at 1 2. rewrite Hdb.
  cbn [negb fst snd app store].
  intros (Hemp & Hnone & _)%removeEmployee_settled.
  unfold removeEmployee. cbn [app store]. rewrite Hdb. cbn [negb].
  assert (Hst : exec (DeleteEmployee empId) st' = st').
  { unfold exec. rewrite (delete_id _ _ Hemp). by destruct st'. }
  rewrite Hst. f_equal.
  assert (vacationsOf empId st' = []) as ->; [| done].
  by apply vacationsOf_nil.
Qed.

Lemma removeEmployee_again_witness :
  db (app readyWorld) = true
  ∧ ∃ st', rtc settle ((removeEmployee Resolved Resolved "e1" readyWorld).1.(store),
                       (removeEmployee Resolved Resolved "e1" readyWorld).2) (st', [])
           ∧ removeEmployee Resolved Resolved "e1" {| app := app readyWorld; store := st' |}
             = ({| app := app readyWorld; store := st' |}, []).
Proof.
  split; [reflexivity |].
  destruct (settle_all (removeEmployee Resolved Resolved "e1" readyWorld).1.(store)
              (removeEmployee Resolved Resolved "e1" readyWorld).2) as [st' Hst'].
  exists st'. split; [exact Hst' |].
  exact (removeEmployee_again readyWorld "e1" st' eq_refl Hst').
Defined.

(** ** Vacations covering a day *)

Section covering_facts.
Context {tz : TimeZone}.

Lemma date_le_days :
  steadyOffsets tz →
  ∀ a b, date_le (LocalMidnight a) (LocalMidnight b) = bool_decide (a ≤ b).
Proof.
  intros Hs a b. unfold date_le. simpl. apply bool_decide_ext.
  pose proof (timeOfDay_lt Hs b a). lia.
Qed.

Lemma date_le_valid a b :
  date_le a b = true → ∃ n1 n2, a = LocalMidnight n1 ∧ b = LocalMidnight n2.
Proof. destruct a, b; try done. eauto. Qed.

Lemma between_days :
  steadyOffsets tz →
  ∀ a b date n,
    parseYMD date = LocalMidnight n →
    (date_le (parseYMD a) (parseYMD date) && date_le (parseYMD date) (parseYMD b) = true
     ↔ ∃ n1 n2, parseYMD a = LocalMidnight n1 ∧ parseYMD b = LocalMidnight n2
                ∧ n1 ≤ n ≤ n2).
Proof.
  intros Hs a b date n Hd. rewrite Hd, andb_true_iff. split.
  - intros [H1 H2].
    destruct (date_le_valid _ _ H1) as (n1 & ? & Hn1 & [= <-]).
    destruct (date_le_valid _ _ H2) as (? & n2 & [= <-] & Hn2).
    rewrite Hn1 in H1. rewrite Hn2 in H2.
    rewrite date_le_days in H1, H2 by done.
    apply bool_decide_eq_true_1 in H1, H2. by exists n1, n2.
  - intros (n1 & n2 & -> & -> & Hn).
    rewrite !date_le_days by done. split; apply bool_decide_eq_true_2; lia.
Qed.

Lemma covers_days :
  steadyOffsets tz →
  ∀ v date n,
    parseYMD date = LocalMidnight n →
    (date_le (parseYMD (vac_start v)) (parseYMD date)
     && date_le (parseYMD date) (parseYMD (vac_end v)) = true
     ↔ ∃ n1 n2, parseYMD (vac_start v) = LocalMidnight n1
                ∧ parseYMD (vac_end v) = LocalMidnight n2 ∧ n1 ≤ n ≤ n2).
Proof. intros Hs v. by apply between_days. Qed.

Lemma vacationsCovering_elem vacations date v :
  truthy (Some date) = true →
  v ∈ vacationsCovering vacations (Some date) ↔
  v ∈ vacations
  ∧ date_le (parseYMD (vac_start v)) (parseYMD date)
    && date_le (parseYMD date) (parseYMD (vac_end v)) = true.
Proof.
  intros Ht. unfold vacationsCovering. rewrite Ht. simpl.
  by rewrite !list_elem_of_In, filter_In.
Qed.

(** X19: for a date that [parseYMD] reads, [vacationsCovering] keeps
    exactly the cached vacations whose start and end are read as dates
    and lie on either side of it, both ends included; for an empty
    slot, and for a text that is not read as a date, it keeps none. *)
Theorem vacationsCovering_spec :
  steadyOffsets tz →
  ∀ (vacations : list Vacation),
    (∀ date n v,
       parseYMD date = LocalMidnight n →
       v ∈ vacationsCovering vacations (Some date) ↔
       v ∈ vacations
       ∧ ∃ n1 n2, parseYMD (vac_start v) = LocalMidnight n1
                  ∧ parseYMD (vac_end v) = LocalMidnight n2 ∧ n1 ≤ n ≤ n2)
    ∧ vacationsCovering vacations None = []
    ∧ vacationsCovering vacations (Some "") = []
    ∧ (∀ date, parseYMD date = InvalidDate →
               vacationsCovering vacations (Some date) = []).
Proof.
  intros Hs vacations. split; [| split; [done | split; [done |]]].
  - intros date n v Hd.
    rewrite vacationsCovering_elem by (by eapply parseYMD_valid_truthy).
    by rewrite covers_days.
  - intros date Hd. unfold vacationsCovering. case_match; [done |].
    simpl. rewrite Hd. induction vacations as [| v vs IH]; [done |].
    simpl. unfold date_le at 1. simpl.
    destruct (valueOf (parseYMD (vac_start v))); simpl; exact IH.
Qed.

(** X20: an assignment is never turned down or cut because of the
    vacations already stored: on every day of the selected range the
    vacations that covered the day before the assignment still cover
    it afterwards, and the new vacation of the chosen employee covers
    it as well. *)
Theorem overlapping_assignment :
  steadyOffsets tz →
  ∀ (w : World) (date : string) (n n1 n2 : Z),
    assignable (app w) = true →
    parseYMD (str (selectStart (app w))) = LocalMidnight n1 →
    parseYMD (str (selectEnd (app w))) = LocalMidnight n2 →
    parseYMD date = LocalMidnight n →
    n1 ≤ n ≤ n2 →
    (∀ v, v ∈ vacationsCovering (vacationsSnapshot (store w)) (Some date) →
          v ∈ vacationsCovering (vacationsSnapshot (store (tryAssign Resolved w)))
                (Some date))
    ∧ ∃ v,
        v ∈ vacationsCovering (vacationsSnapshot (store (tryAssign Resolved w)))
              (Some date)
        ∧ (v ∉ vacationsSnapshot (store w))
        ∧ vac_employeeId v = str (assignEmployeeId (app w))
        ∧ vac_start v = str (selectStart (app w))
        ∧ vac_end v = str (selectEnd (app w)).
Proof.
  intros Hs w date n n1 n2 Hok H1 H2 Hd Hn.
  pose proof (fresh_vacation_id (store w)) as Hfresh.
  pose proof (parseYMD_valid_truthy _ _ Hd) as Ht.
  assert (Hstore : vacationsCol (store (tryAssign Resolved w))
                   = <[fresh (dom (vacationsCol (store w))) :=
                         {| employeeId := str (assignEmployeeId (app w));
                            start := str (selectStart (app w));
                            end_ := str (selectEnd (app w)) |}]>
                       (vacationsCol (store w))).
  { revert Hok. unfold assignable, tryAssign.
    destruct (truthy (selectStart (app w))); simpl; [| done].
    destruct (truthy (selectEnd (app w))); simpl; [| done].
    destruct (truthy (assignEmployeeId (app w))); simpl; [| done].
    by destruct (db (app w)). }
  split.
  - intros v. rewrite !vacationsCovering_elem by done.
    intros [(d & Hv & Heq)%vacationsSnapshot_elem Hcov]. split; [| done].
    apply vacationsSnapshot_elem. exists d. split; [| done].
    rewrite Hstore, lookup_insert_ne; [done |]. congruence.
  - exists {| vac_id := fresh (dom (vacationsCol (store w)));
              vac_employeeId := str (assignEmployeeId (app w));
              vac_start := str (selectStart (app w));
              vac_end := str (selectEnd (app w)) |}.
    split; [| split; [| done]].
    + rewrite vacationsCovering_elem by done. split.
      * apply vacationsSnapshot_elem.
        exists {| employeeId := str (assignEmployeeId (app w));
                  start := str (selectStart (app w));
                  end_ := str (selectEnd (app w)) |}.
        split; [| done]. simpl. by rewrite Hstore, lookup_insert_eq.
      * apply covers_days with (n := n); [done | done |].
        exists n1, n2. done.
    + intros (d & Hv & _)%vacationsSnapshot_elem. simpl in Hv. congruence.
Qed.

(** X21: once the deletions started by [removeEmployee] have all
    resolved, the next vacations snapshot holds no vacation of that
    employee, so none is shown on any day. *)
Theorem no_vacation_shown_after_cascade :
  ∀ (w : World) (empId : string) (st' : Store),
    db (app w) = true →
    rtc settle ((removeEmployee Resolved Resolved empId w).1.(store),
                (removeEmployee Resolved Resolved empId w).2) (st', []) →
    ∀ date v, v ∈ vacationsCovering (vacationsSnapshot st') date →
              vac_employeeId v ≠ empId.
Proof.
  intros w empId st' Hdb. unfold removeEmployee. rewrite Hdb.
  cbn [negb fst snd app store].
  intros (_ & Hnone & _)%removeEmployee_settled date v Hv.
  assert (Hin : v ∈ vacationsSnapshot st').
  { revert Hv. unfold vacationsCovering. case_match; [by intros ?%not_elem_of_nil |].
    rewrite !list_elem_of_In, filter_In. tauto. }
  apply vacationsSnapshot_elem in Hin as (d & Hd & ->). simpl.
  by eapply Hnone.
Qed.
End covering_facts.

Lemma vacationsCovering_spec_witness :
  steadyOffsets cet2024
  ∧ @parseYMD cet2024 "2024-03-31" = LocalMidnight 19813
  ∧ @vacationsCovering cet2024 (vacationsSnapshot (store readyWorld)) (Some "2024-03-31")
    = [{| vac_id := "v1"; vac_employeeId := "e1"; vac_start := "2024-03-30";
          vac_end := "2024-04-01" |}]
  ∧ ∀ v, v ∈ @vacationsCovering cet2024 (vacationsSnapshot (store readyWorld))
               (Some "2024-03-31") →
         ∃ n1 n2, @parseYMD cet2024 (vac_start v) = LocalMidnight n1
                  ∧ @parseYMD cet2024 (vac_end v) = LocalMidnight n2
                  ∧ n1 ≤ 19813 ≤ n2.
Proof.
  assert (Hd : @parseYMD cet2024 "2024-03-31" = LocalMidnight 19813) by by vm_compute.
  split; [exact cet2024_steady |]. split; [exact Hd |]. split; [by vm_compute |].
  intros v Hv.
  destruct (vacationsCovering_spec (tz := cet2024) cet2024_steady
              (vacationsSnapshot (store readyWorld))) as (Hspec & _).
  by apply (Hspec "2024-03-31" 19813 v Hd) in Hv as [_ Hv].
Defined.

Lemma overlapping_assignment_witness :
  steadyOffsets cet2024
  ∧ assignable (app readyWorld) = true
  ∧ @parseYMD cet2024 "2024-03-31" = LocalMidnight 19813
  ∧ 19812 ≤ 19813 ≤ 19814
  ∧ ∃ v, v ∈ @vacationsCovering cet2024
               (vacationsSnapshot (store (tryAssign Resolved readyWorld)))
               (Some "2024-03-31")
         ∧ (v ∉ vacationsSnapshot (store readyWorld))
         ∧ vac_employeeId v = "e1".
Proof.
  assert (Hd : @parseYMD cet2024 "2024-03-31" = LocalMidnight 19813) by by vm_compute.
  split; [exact cet2024_steady |]. split; [reflexivity |]. split; [exact Hd |].
  split; [lia |].
  destruct (overlapping_assignment (tz := cet2024) cet2024_steady readyWorld
              "2024-03-31" 19813 19812 19814)
    as (_ & v & Hin & Hnew & Hemp & _);
    [reflexivity | by vm_compute | by vm_compute | exact Hd | lia |].
  exists v. split; [exact Hin |]. split; [exact Hnew | exact Hemp].
Defined.

Lemma no_vacation_shown_after_cascade_witness :
  db (app readyWorld) = true
  ∧ ∃ st', rtc settle ((removeEmployee Resolved Resolved "e1" readyWorld).1.(store),
                       (removeEmployee Resolved Resolved "e1" readyWorld).2) (st', [])
           ∧ ∀ v, v ∈ @vacationsCovering cet2024 (vacationsSnapshot st')
                        (Some "2024-03-31") →
                  vac_employeeId v ≠ "e1".
Proof.
  split; [reflexivity |].
  destruct (settle_all (removeEmployee Resolved Resolved "e1" readyWorld).1.(store)
              (removeEmployee Resolved Resolved "e1" readyWorld).2) as [st' Hst'].
  exists st'. split; [exact Hst' |].
  exact (no_vacation_shown_after_cascade (tz := cet2024) readyWorld "e1" st'
           eq_refl Hst' (Some "2024-03-31")).
Defined.

(** ** [trim] *)

Lemma append_cons a (x y : string) : String a x +:+ y = String a (x +:+ y).
Proof. reflexivity. Qed.

Lemma append_nil_l (y : string) : "" +:+ y = y.
Proof. reflexivity. Qed.

Lemma append_assoc (x y z : string) : (x +:+ y) +:+ z = x +:+ (y +:+ z).
Proof.
  induction x as [| a x IH]; [done |]. by rewrite !append_cons, IH.
Qed.

Lemma isWs2_not_isWs1 a b : isWs2 a b = true → isWs1 a = false.
Proof.
  unfold isWs2, isWs1. generalize (nat_of_ascii a) (nat_of_ascii b). intros x y H.
  apply not_true_is_false. intros H'. revert H H'.
  rewrite ?orb_true_iff, ?andb_true_iff, ?Nat.eqb_eq, ?Nat.leb_le. lia.
Qed.

Lemma isWs3_not_isWs1 a b c : isWs3 a b c = true → isWs1 a = false.
Proof.
  unfold isWs3, isWs1.
  generalize (nat_of_ascii a) (nat_of_ascii b) (nat_of_ascii c). intros x y z H.
  apply not_true_is_false. intros H'. revert H H'. cbv zeta.
  rewrite ?orb_true_iff, ?andb_true_iff, ?Nat.eqb_eq, ?Nat.leb_le. lia.
Qed.

Lemma isWs3_not_isWs2 a b c : isWs3 a b c = true → isWs2 a b = false.
Proof.
  unfold isWs3, isWs2.
  generalize (nat_of_ascii a) (nat_of_ascii b) (nat_of_ascii c). intros x y z H.
  apply not_true_is_false. intros H'. revert H H'. cbv zeta.
  rewrite ?orb_true_iff, ?andb_true_iff, ?Nat.eqb_eq, ?Nat.leb_le. lia.
Qed.

Lemma trimStart_ws1 a r : isWs1 a = true → trimStart (String a r) = trimStart r.
Proof. intros H. simpl. by rewrite H. Qed.

Lemma trimStart_ws2 a b r :
  isWs2 a b = true → trimStart (String a (String b r)) = trimStart r.
Proof. intros H. simpl. by rewrite (isWs2_not_isWs1 _ _ H), H. Qed.

Lemma trimStart_ws3 a b c r :
  isWs3 a b c = true → trimStart (String a (String b (String c r))) = trimStart r.
Proof.
  intros H. simpl.
  by rewrite (isWs3_not_isWs1 _ _ _ H), (isWs3_not_isWs2 _ _ _ H), H.
Qed.

Lemma trimStart_clean s : cleanStart s = true → trimStart s = s.
Proof.
  destruct s as [| a [| b [| c r]]]; simpl; [done | | |].
  - rewrite andb_true_r. by intros ->%negb_true_iff.
  - rewrite andb_true_r. by intros [->%negb_true_iff ->%negb_true_iff]%andb_true_iff.
  - intros [->%negb_true_iff [->%negb_true_iff ->%negb_true_iff]%andb_true_iff]%andb_true_iff.
    done.
Qed.

(** The cases of [trimStart]: white space of one, two or three bytes
    at the head, or none. *)
Lemma trimStart_cases (P : string → Prop) :
  (∀ a r, isWs1 a = true → P r → P (String a r)) →
  (∀ a b r, isWs2 a b = true → P r → P (String a (String b r))) →
  (∀ a b c r, isWs3 a b c = true → P r → P (String a (String b (String c r)))) →
  (∀ s, cleanStart s = true → P s) →
  ∀ s, P s.
Proof.
  intros H1 H2 H3 H4 s. remember (String.length s) as n eqn:Hn. revert s Hn.
  induction n as [n IH] using lt_wf_ind. intros s Hn.
  destruct s as [| a r1]; [by apply H4 |].
  destruct (isWs1 a) eqn:E1.
  { apply H1; [done |]. eapply IH; [| done]. simpl in Hn. lia. }
  destruct r1 as [| b r2]; [apply H4; simpl; by rewrite E1 |].
  destruct (isWs2 a b) eqn:E2.
  { apply H2; [done |]. eapply IH; [| done]. simpl in Hn. lia. }
  destruct r2 as [| c r3]; [apply H4; simpl; by rewrite E1, E2 |].
  destruct (isWs3 a b c) eqn:E3.
  { apply H3; [done |]. eapply IH; [| done]. simpl in Hn. lia. }
  apply H4. simpl. by rewrite E1, E2, E3.
Qed.

Lemma cleanStart_trimStart s : cleanStart (trimStart s) = true.
Proof.
  induction s as [a r Ha IH | a b r Hab IH | a b c r Habc IH | s Hs]
    using trimStart_cases.
  - by rewrite trimStart_ws1.
  - by rewrite trimStart_ws2.
  - by rewrite trimStart_ws3.
  - by rewrite trimStart_clean.
Qed.

Lemma trimStart_idem s : trimStart (trimStart s) = trimStart s.
Proof. apply trimStart_clean, cleanStart_trimStart. Qed.

Lemma allWs_true s : allWs s = true ↔ trimStart s = "".
Proof. unfold allWs. by rewrite bool_decide_eq_true. Qed.

Lemma trimStart_split s : ∃ pre, s = pre +:+ trimStart s ∧ allWs pre = true.
Proof.
  induction s as [a r Ha (pre & Hr & Hpre) | a b r Hab (pre & Hr & Hpre)
                 | a b c r Habc (pre & Hr & Hpre) | s Hs] using trimStart_cases.
  - exists (String a pre). rewrite trimStart_ws1 by done. split.
    + rewrite !append_cons. by rewrite <- Hr.
    + apply allWs_true. rewrite trimStart_ws1 by done. by apply allWs_true.
  - exists (String a (String b pre)). rewrite trimStart_ws2 by done. split.
    + rewrite !append_cons. by rewrite <- Hr.
    + apply allWs_true. rewrite trimStart_ws2 by done. by apply allWs_true.
  - exists (String a (String b (String c pre))). rewrite trimStart_ws3 by done. split.
    + rewrite !append_cons. by rewrite <- Hr.
    + apply allWs_true. rewrite trimStart_ws3 by done. by apply allWs_true.
  - exists "". by rewrite trimStart_clean.
Qed.

Lemma trimStart_app_ws x y : allWs x = true → trimStart (x +:+ y) = trimStart y.
Proof.
  induction x as [a r Ha IH | a b r Hab IH | a b c r Habc IH | s Hs]
    using trimStart_cases; rewrite allWs_true.
  - rewrite trimStart_ws1 by done. intros H. rewrite !append_cons.
    rewrite trimStart_ws1 by done. by apply IH, allWs_true.
  - rewrite trimStart_ws2 by done. intros H. rewrite !append_cons.
    rewrite trimStart_ws2 by done. by apply IH, allWs_true.
  - rewrite trimStart_ws3 by done. intros H. rewrite !append_cons.
    rewrite trimStart_ws3 by done. by apply IH, allWs_true.
  - rewrite trimStart_clean by done. by intros ->.
Qed.

Lemma allWs_app x y : allWs x = true → allWs y = true → allWs (x +:+ y) = true.
Proof.
  intros Hx Hy. apply allWs_true. rewrite trimStart_app_ws by done.
  by apply allWs_true.
Qed.

Lemma trimEnd_cons a r :
  trimEnd (String a r) = if allWs (String a r) then "" else String a (trimEnd r).
Proof. done. Qed.

Lemma trimEnd_split s : ∃ post, s = trimEnd s +:+ post ∧ allWs post = true.
Proof.
  induction s as [| a r (post & Hr & Hpost)]; [by exists "" |].
  rewrite trimEnd_cons. destruct (allWs (String a r)) eqn:Hall.
  - by exists (String a r).
  - exists post. split; [| done]. rewrite append_cons. by rewrite <- Hr.
Qed.

Lemma append_nil_inv (u v : string) : "" = u +:+ v → v = "".
Proof. destruct u; [by rewrite append_nil_l | by rewrite append_cons]. Qed.

Lemma trimEnd_no_tail s u v : trimEnd s = u +:+ v → v ≠ "" → allWs v = false.
Proof.
  revert u. induction s as [| a r IH]; intros u Huv Hv.
  { by apply append_nil_inv in Huv. }
  rewrite trimEnd_cons in Huv. destruct (allWs (String a r)) eqn:Hall.
  { by apply append_nil_inv in Huv. }
  destruct u as [| a' u']; [rewrite append_nil_l in Huv | rewrite append_cons in Huv].
  - subst v. apply not_true_is_false. intros Hw.
    destruct (trimEnd_split r) as (post & Hr & Hpost).
    pose proof (allWs_app _ _ Hw Hpost) as Hboth. rewrite append_cons in Hboth.
    rewrite <- Hr in Hboth. congruence.
  - injection Huv as -> Hr. by eapply IH.
Qed.

Lemma trimEnd_nil s : trimEnd s = "" ↔ allWs s = true.
Proof.
  destruct s as [| a r]; [done |]. rewrite trimEnd_cons.
  by destruct (allWs (String a r)).
Qed.

Lemma trimEnd_fixed t :
  (∀ u v, t = u +:+ v → v ≠ "" → allWs v = false) → trimEnd t = t.
Proof.
  induction t as [| a r IH]; [done |]. intros Htail.
  rewrite trimEnd_cons, (Htail "" (String a r)) by done. f_equal.
  apply IH. intros u v -> Hv. by apply (Htail (String a u) v).
Qed.

Lemma cleanStart_prefix x y : cleanStart (x +:+ y) = true → cleanStart x = true.
Proof.
  destruct x as [| a [| b [| c r]]]; simpl; [done | | | done].
  - rewrite andb_true_r. by intros [? _]%andb_true_iff.
  - rewrite andb_true_r. intros [-> [-> _]%andb_true_iff]%andb_true_iff. done.
Qed.

Lemma cleanStart_trim s : cleanStart (trim s) = true.
Proof.
  unfold trim. destruct (trimEnd_split (trimStart s)) as (post & Hs & _).
  apply cleanStart_prefix with post. rewrite <- Hs. apply cleanStart_trimStart.
Qed.

Lemma trim_no_tail s u v : trim s = u +:+ v → v ≠ "" → allWs v = false.
Proof. apply trimEnd_no_tail. Qed.

Lemma trim_idem s : trim (trim s) = trim s.
Proof.
  unfold trim at 1. rewrite trimStart_clean by apply cleanStart_trim.
  apply trimEnd_fixed. intros u v. apply trim_no_tail.
Qed.

Lemma trim_nil s : trim s = "" ↔ allWs s = true.
Proof.
  unfold trim. rewrite trimEnd_nil, !allWs_true. by rewrite trimStart_idem.
Qed.

Lemma trim_split s :
  ∃ pre post, s = pre +:+ trim s +:+ post ∧ allWs pre = true ∧ allWs post = true.
Proof.
  destruct (trimStart_split s) as (pre & Hs & Hpre).
  destruct (trimEnd_split (trimStart s)) as (post & Ht & Hpost).
  exists pre, post. unfold trim. by rewrite <- Ht.
Qed.

(** ** Adding an employee *)

Lemma fresh_employee_id (st : Store) :
  employeesCol st !! fresh (dom (employeesCol st)) = None.
Proof. apply not_elem_of_dom, is_fresh. Qed.

Lemma addEmployee_resolved hue newEmployeeName w :
  db (app w) = true → allWs newEmployeeName = false →
  addEmployee hue Resolved newEmployeeName w
  = ({| app := app w;
        store := addEmployeeDoc {| name := trim newEmployeeName;
                                   color := randomPastel hue |} (store w) |}, "").
Proof.
  intros Hdb Hname. unfold addEmployee. rewrite Hdb. simpl.
  rewrite bool_decide_eq_false_2; [done |].
  rewrite trim_nil. congruence.
Qed.

(** X22: [addEmployee] leaves the store and the name field as they
    are exactly when the store handle is missing, the typed name is
    white space only (or empty), or [addDoc] rejects. *)
Theorem addEmployee_refused :
  ∀ (hue : Z) (addDoc : outcome) (newEmployeeName : string) (w : World),
    addEmployee hue addDoc newEmployeeName w = (w, newEmployeeName)
    ↔ db (app w) = false ∨ allWs newEmployeeName = true ∨ addDoc = Rejected.
Proof.
  intros hue o n w. split.
  - destruct (db (app w)) eqn:Hdb; [| by left].
    destruct (allWs n) eqn:Hn; [by right; left |].
    destruct o; [| by right; right].
    rewrite addEmployee_resolved by done. intros [= _ <-]. done.
  - unfold addEmployee. intros [-> | [Hn | ->]]; [done | |].
    + apply trim_nil in Hn. rewrite Hn. simpl. by destruct (negb _).
    + by repeat case_match.
Qed.

(** X23: when [addDoc] resolves, the store gains exactly one employee
    under a new id; its name is the typed name without the white space
    at its two ends (so it is not empty, does not begin with white
    space and has no white-space tail), its colour is the gradient
    drawn; the vacations and the rest of the state stay, the field is
    emptied, and after the next snapshot [employeeById] finds the new
    employee. *)
Theorem addEmployee_stores_trimmed_name :
  ∀ (hue : Z) (newEmployeeName : string) (w : World),
    db (app w) = true →
    allWs newEmployeeName = false →
    ∃ id pre post,
      employeesCol (store w) !! id = None
      ∧ employeesCol (store (addEmployee hue Resolved newEmployeeName w).1)
        = <[id := {| name := trim newEmployeeName; color := randomPastel hue |}]>
            (employeesCol (store w))
      ∧ vacationsCol (store (addEmployee hue Resolved newEmployeeName w).1)
        = vacationsCol (store w)
      ∧ app (addEmployee hue Resolved newEmployeeName w).1 = app w
      ∧ (addEmployee hue Resolved newEmployeeName w).2 = ""
      ∧ newEmployeeName = pre +:+ trim newEmployeeName +:+ post
      ∧ allWs pre = true ∧ allWs post = true
      ∧ trim newEmployeeName ≠ ""
      ∧ cleanStart (trim newEmployeeName) = true
      ∧ (∀ u v, trim newEmployeeName = u +:+ v → v ≠ "" → allWs v = false)
      ∧ employeeById
          (app (onEmployeesSnapshot (addEmployee hue Resolved newEmployeeName w).1))
          (Some id)
        = {| emp_id := Some id; emp_name := trim newEmployeeName;
             emp_color := randomPastel hue |}.
Proof.
  intros hue n w Hdb Hn. rewrite addEmployee_resolved by done.
  destruct (trim_split n) as (pre & post & Hsplit & Hpre & Hpost).
  exists (fresh (dom (employeesCol (store w)))), pre, post. cbn [fst snd app store].
  split; [apply fresh_employee_id |]. do 4 (split; [done |]).
  split; [done |]. split; [done |]. split; [done |].
  split; [rewrite trim_nil; congruence |].
  split; [apply cleanStart_trim |]. split; [apply trim_no_tail |].
  unfold onEmployeesSnapshot. cbn [app store].
  apply (employeeById_snapshot_found _ _ _
           {| name := trim n; color := randomPastel hue |}).
  unfold addEmployeeDoc. cbn [employeesCol]. by rewrite lookup_insert_eq.
Qed.

(** X24: [addEmployee] never looks at the employees already stored:
    adding the same name twice stores two employees of that name under
    two different ids. *)
Theorem addEmployee_same_name_twice :
  ∀ (hue1 hue2 : Z) (newEmployeeName : string) (w : World),
    db (app w) = true →
    allWs newEmployeeName = false →
    ∃ id1 id2 d1 d2,
      id1 ≠ id2
      ∧ employeesCol (store w) !! id1 = None
      ∧ employeesCol (store w) !! id2 = None
      ∧ employeesCol
          (store (addEmployee hue2 Resolved newEmployeeName
                    (addEmployee hue1 Resolved newEmployeeName w).1).1)
        = <[id2 := d2]> (<[id1 := d1]> (employeesCol (store w)))
      ∧ name d1 = trim newEmployeeName
      ∧ name d2 = trim newEmployeeName.
Proof.
  intros hue1 hue2 n w Hdb Hn.
  rewrite (addEmployee_resolved hue1) by done. cbn [fst].
  rewrite (addEmployee_resolved hue2) by done. cbn [fst store].
  set (st1 := addEmployeeDoc {| name := trim n; color := randomPastel hue1 |} (store w)).
  pose proof (fresh_employee_id (store w)) as H1.
  pose proof (fresh_employee_id st1) as H2.
  exists (fresh (dom (employeesCol (store w)))), (fresh (dom (employeesCol st1))).
  exists {| name := trim n; color := randomPastel hue1 |},
         {| name := trim n; color := randomPastel hue2 |}.
  assert (Hne : fresh (dom (employeesCol (store w))) ≠ fresh (dom (employeesCol st1))).
  { intros Heq. rewrite <- Heq in H2. unfold st1, addEmployeeDoc in H2.
    cbn [employeesCol] in H2. by rewrite lookup_insert_eq in H2. }
  split; [done |]. split; [done |]. split; [| done].
  unfold st1, addEmployeeDoc in H2. cbn [employeesCol] in H2.
  by rewrite lookup_insert_ne in H2.
Qed.

Lemma addEmployee_refused_witness :
  addEmployee 350 Resolved "   " readyWorld = (readyWorld, "   ")
  ∧ addEmployee 350 Rejected "Ana" readyWorld = (readyWorld, "Ana").
Proof.
  split.
  - apply (addEmployee_refused 350 Resolved "   " readyWorld). right. by left.
  - apply (addEmployee_refused 350 Rejected "Ana" readyWorld). right. by right.
Defined.

Lemma addEmployee_stores_trimmed_name_witness :
  db (app readyWorld) = true
  ∧ allWs "  Luis Gil " = false
  ∧ trim "  Luis Gil " = "Luis Gil"
  ∧ (addEmployee 350 Resolved "  Luis Gil " readyWorld).2 = ""
  ∧ ∃ id, employeesCol (store readyWorld) !! id = None
          ∧ employeesCol (store (addEmployee 350 Resolved "  Luis Gil " readyWorld).1)
            = <[id := {| name := trim "  Luis Gil "; color := randomPastel 350 |}]>
                (employeesCol (store readyWorld)).
Proof.
  split; [reflexivity |]. split; [reflexivity |]. split; [reflexivity |].
  destruct (addEmployee_stores_trimmed_name 350 "  Luis Gil " readyWorld eq_refl eq_refl)
    as (id & _ & _ & Hnew & Hcol & _ & _ & Hfield & _).
  split; [exact Hfield |]. exists id. split; [exact Hnew | exact Hcol].
Defined.

Lemma addEmployee_same_name_twice_witness :
  db (app readyWorld) = true
  ∧ allWs "Ana" = false
  ∧ ∃ id1 id2 d1 d2,
      id1 ≠ id2
      ∧ employeesCol
          (store (addEmployee 10 Resolved "Ana"
                    (addEmployee 350 Resolved "Ana" readyWorld).1).1)
        = <[id2 := d2]> (<[id1 := d1]> (employeesCol (store readyWorld)))
      ∧ name d1 = "Ana" ∧ name d2 = "Ana".
Proof.
  split; [reflexivity |]. split; [reflexivity |].
  destruct (addEmployee_same_name_twice 350 10 "Ana" readyWorld eq_refl eq_refl)
    as (id1 & id2 & d1 & d2 & Hne & _ & _ & Hcol & Hn1 & Hn2).
  exists id1, id2, d1, d2. split; [exact Hne |]. split; [exact Hcol |].
  split; [exact Hn1 | exact Hn2].
Defined.

(** ** [randomPastel] *)

Lemma noSpace_string_of_uint u : noSpace (NilEmpty.string_of_uint u) = true.
Proof. induction u; simpl; done. Qed.

Lemma noSpace_ToString h : 0 ≤ h → noSpace (ToString (Num h)) = true.
Proof.
  intros Hh. rewrite ToString_nonneg, digits_NilEmpty by done.
  apply noSpace_string_of_uint.
Qed.

(** Two texts without a blank that are followed by a blank begin two
    equal strings only if they are equal. *)
Lemma before_space_inj x x' r r' :
  noSpace x = true → noSpace x' = true →
  x +:+ String " " r = x' +:+ String " " r' → x = x'.
Proof.
  revert x'. induction x as [| a x IH]; intros [| a' x'] Hx Hx'.
  - done.
  - rewrite append_nil_l, append_cons. intros [= <- _].
    simpl in Hx'. by rewrite ?bool_decide_eq_true_2 in Hx'.
  - rewrite append_nil_l, append_cons. intros [= -> _].
    simpl in Hx. by rewrite ?bool_decide_eq_true_2 in Hx.
  - rewrite !append_cons. intros [= -> Heq].
    simpl in Hx, Hx'. apply andb_true_iff in Hx as [_ Hx].
    apply andb_true_iff in Hx' as [_ Hx']. f_equal. by eapply IH.
Qed.

(** X25: two draws give the same gradient only if they are the same
    draw: the first hue can be read off the gradient. *)
Theorem randomPastel_injective :
  ∀ h h' : Z,
    0 ≤ h → 0 ≤ h' → randomPastel h = randomPastel h' → h = h'.
Proof.
  intros h h' Hh Hh' Heq. unfold randomPastel in Heq. cbv zeta in Heq.
  apply append_inj_r in Heq. rewrite !append_assoc in Heq.
  apply append_inj_r in Heq. rewrite !append_cons in Heq.
  apply before_space_inj in Heq; [| by apply noSpace_ToString ..].
  pose proof (Number_ToString h Hh) as H1.
  rewrite Heq, Number_ToString in H1 by done. congruence.
Qed.

Lemma randomPastel_injective_witness :
  0 ≤ 350
  ∧ randomPastel 350 = "linear-gradient(90deg, hsl(350 60% 80%), hsl(20 60% 70%))"
  ∧ (randomPastel 350 = randomPastel 350 → 350 = 350).
Proof.
  split; [lia |]. split; [reflexivity |].
  apply (randomPastel_injective 350 350); lia.
Defined.

(** ** The classes of a cell *)

Lemma classesBy_spec (t a b r st e : bool) :
  a && b = false →
  head (classesBy t a b r st e) = Some baseClass
  ∧ NoDup (classesBy t a b r st e)
  ∧ (todayClass ∈ classesBy t a b r st e ↔ t = true)
  ∧ (startClass ∈ classesBy t a b r st e ↔ a = true ∨ b = true ∧ st = true)
  ∧ (endClass ∈ classesBy t a b r st e ↔ b = true ∧ e = true)
  ∧ (rangeClass ∈ classesBy t a b r st e ↔ b = true ∧ r = true).
Proof.
  intros Hab.
  destruct t, a, b, r, st, e; try discriminate Hab;
    apply (bool_decide_unpack _); by vm_compute.
Qed.

Lemma append_eq_nil (x y : string) : x +:+ y = "" → x = "" ∧ y = "".
Proof. by destruct x. Qed.

Lemma ymd_nonempty y m d : ymd y m d ≠ "".
Proof.
  unfold ymd. intros [_ H]%append_eq_nil. by apply append_eq_nil in H as [H _].
Qed.

Section classes.
Context {tz : TimeZone}.

Lemma cellClassList_classesBy nowDay d s :
  cellClassList nowDay d s
  = classesBy (bool_decide (d = today nowDay))
      (truthy (selectStart s)
       && (negb (truthy (selectEnd s)) && strict_eq (Some d) (selectStart s)))
      (truthy (selectStart s) && truthy (selectEnd s))
      (date_le (parseYMD (str (selectStart s))) (parseYMD d)
       && date_le (parseYMD d) (parseYMD (str (selectEnd s))))
      (strict_eq (Some d) (selectStart s))
      (strict_eq (Some d) (selectEnd s)).
Proof.
  unfold cellClassList, classesBy.
  destruct (bool_decide (d = today nowDay)),
    (truthy (selectStart s)), (truthy (selectEnd s)),
    (strict_eq (Some d) (selectStart s)), (strict_eq (Some d) (selectEnd s)),
    (date_le (parseYMD (str (selectStart s))) (parseYMD d)
     && date_le (parseYMD d) (parseYMD (str (selectEnd s)))); reflexivity.
Qed.

Lemma cellClassList_spec nowDay d s :
  head (cellClassList nowDay d s) = Some baseClass
  ∧ NoDup (cellClassList nowDay d s)
  ∧ (todayClass ∈ cellClassList nowDay d s ↔ d = today nowDay)
  ∧ (startClass ∈ cellClassList nowDay d s
     ↔ truthy (selectStart s) = true ∧ selectStart s = Some d)
  ∧ (endClass ∈ cellClassList nowDay d s
     ↔ truthy (selectStart s) = true ∧ truthy (selectEnd s) = true
       ∧ selectEnd s = Some d)
  ∧ (rangeClass ∈ cellClassList nowDay d s
     ↔ truthy (selectStart s) = true ∧ truthy (selectEnd s) = true
       ∧ date_le (parseYMD (str (selectStart s))) (parseYMD d)
         && date_le (parseYMD d) (parseYMD (str (selectEnd s))) = true).
Proof.
  rewrite cellClassList_classesBy.
  match goal with
  | |- context [classesBy ?t ?a ?b ?r ?st ?e] =>
      destruct (classesBy_spec t a b r st e) as (Hh & Hn & Ht & Hs & He & Hr)
  end.
  { by destruct (truthy (selectStart s)), (truthy (selectEnd s)),
       (strict_eq (Some d) (selectStart s)). }
  split; [done |]. split; [done |].
  assert (Heq : ∀ v, strict_eq (Some d) v = true ↔ v = Some d).
  { intros [x |]; simpl; [rewrite bool_decide_eq_true |]; split; congruence. }
  split; [by rewrite Ht, bool_decide_eq_true |]. split; [| split].
  - rewrite Hs, !andb_true_iff, negb_true_iff, !Heq.
    destruct (truthy (selectEnd s)); intuition congruence.
  - rewrite He, !andb_true_iff, Heq. tauto.
  - rewrite Hr, !andb_true_iff. tauto.
Qed.

Lemma join_cons_nonempty sep x l : x ≠ "" → join sep (x :: l) ≠ "".
Proof.
  intros Hx. destruct l as [| y l]; [done |].
  cbn [join]. by intros [? _]%append_eq_nil.
Qed.

(** X26: a slot without a date gets only the class that switches
    clicks off, and a slot with a date never gets it.  For a date, the
    classes begin with the base classes and hold none twice; the
    dashed border marks today's date and no other; the blue ring marks
    the chosen start, whether or not an end is chosen, and the green
    ring the chosen end. *)
Theorem cellClasses_marks :
  ∀ (nowDay : Z) (s : State),
    wellFormed s →
    (∀ slot, cellClasses nowDay slot s = "pointer-events-none" ↔ truthy slot = false)
    ∧ ∀ d, d ≠ "" →
        cellClasses nowDay (Some d) s = join " " (cellClassList nowDay d s)
        ∧ head (cellClassList nowDay d s) = Some baseClass
        ∧ NoDup (cellClassList nowDay d s)
        ∧ (todayClass ∈ cellClassList nowDay d s ↔ d = today nowDay)
        ∧ (startClass ∈ cellClassList nowDay d s ↔ selectStart s = Some d)
        ∧ (endClass ∈ cellClassList nowDay d s ↔ selectEnd s = Some d).
Proof.
  intros nowDay s Hwf. split.
  - intros slot. unfold cellClasses. destruct (truthy slot); simpl; [| done].
    split; [| done].
    destruct (cellClassList_spec nowDay (str slot) s) as (Hh & _).
    destruct (cellClassList nowDay (str slot) s) as [| x l]; [done |].
    injection Hh as ->. destruct l; [done |]. cbn [join]. done.
  - intros d Hd.
    assert (Ht : truthy (Some d) = true).
    { simpl. by apply negb_true_iff, bool_decide_eq_false_2. }
    destruct (cellClassList_spec nowDay d s) as (Hh & Hn & Htoday & Hs & He & _).
    split; [unfold cellClasses; by rewrite Ht |].
    split; [done |]. split; [done |]. split; [done |]. split.
    + rewrite Hs. split; [by intros [_ ?] |]. intros Heq. split; [| done].
      by rewrite Heq.
    + rewrite He. split; [by intros (_ & _ & ?) |]. intros Heq.
      assert (truthy (selectEnd s) = true) by by rewrite Heq.
      split; [by apply Hwf |]. done.
Qed.

Lemma rangeClass_days :
  steadyOffsets tz →
  ∀ nowDay d s n,
    parseYMD d = LocalMidnight n →
    rangeClass ∈ cellClassList nowDay d s
    ↔ ∃ n1 n2, parseYMD (str (selectStart s)) = LocalMidnight n1
               ∧ parseYMD (str (selectEnd s)) = LocalMidnight n2
               ∧ n1 ≤ n ≤ n2.
Proof.
  intros Hsteady nowDay d s n Hd.
  destruct (cellClassList_spec nowDay d s) as (_ & _ & _ & _ & _ & Hr).
  rewrite Hr, (between_days Hsteady _ _ _ _ Hd). split; [by intros (_ & _ & ?) |].
  intros (n1 & n2 & H1 & H2 & Hn).
  assert (Hstr : ∀ v k, parseYMD (str v) = LocalMidnight k → truthy v = true).
  { intros [x |] k Hk; [by eapply parseYMD_valid_truthy |].
    simpl in Hk. by rewrite parseYMD_empty in Hk. }
  split; [by eapply Hstr |]. split; [by eapply Hstr |]. by exists n1, n2.
Qed.

(** X27: with a complete selection whose two ends are read as dates,
    the cells of the days from the start to the end, both included,
    get the range class, and no other cell whose date is read does;
    without a complete selection no cell gets it. *)
Theorem cellClasses_range :
  steadyOffsets tz →
  ∀ (nowDay : Z) (s : State) (d : string) (n : Z),
    parseYMD d = LocalMidnight n →
    (∀ n1 n2,
       parseYMD (str (selectStart s)) = LocalMidnight n1 →
       parseYMD (str (selectEnd s)) = LocalMidnight n2 →
       (rangeClass ∈ cellClassList nowDay d s ↔ n1 ≤ n ≤ n2))
    ∧ (truthy (selectStart s) = false ∨ truthy (selectEnd s) = false →
       rangeClass ∉ cellClassList nowDay d s).
Proof.
  intros Hsteady nowDay s d n Hd. split.
  - intros n1 n2 H1 H2. rewrite (rangeClass_days Hsteady nowDay d s n Hd).
    split.
    + intros (k1 & k2 & Hk1 & Hk2 & Hn). congruence.
    + intros Hn. by exists n1, n2.
  - destruct (cellClassList_spec nowDay d s) as (_ & _ & _ & _ & _ & Hr).
    rewrite Hr. intros [Hs | He] (Hs' & He' & _); congruence.
Qed.

(** X28: after a first click on one day and a second click on another,
    in either order, the cells with the range class are those of the
    days from the earlier to the later of the two. *)
Theorem two_clicks_highlight :
  steadyOffsets tz →
  ∀ (nowDay : Z) (s : State) (a b d : string) (na nb n : Z),
    truthy (selectStart s) = false →
    parseYMD a = LocalMidnight na →
    parseYMD b = LocalMidnight nb →
    parseYMD d = LocalMidnight n →
    rangeClass ∈ cellClassList nowDay d (onDayClick (Some b) (onDayClick (Some a) s))
    ↔ Z.min na nb ≤ n ≤ Z.max na nb.
Proof.
  intros Hsteady nowDay s a b d na nb n Hs Ha Hb Hd.
  pose proof (parseYMD_valid_truthy _ _ Ha) as Hta.
  pose proof (parseYMD_valid_truthy _ _ Hb) as Htb.
  pose proof (onDayClick_first a s Hta Hs) as H1.
  unfold selection in H1. injection H1 as H1s H1e.
  pose proof (onDayClick_second b (onDayClick (Some a) s) Htb) as H2.
  rewrite H1s, H1e in H2. specialize (H2 Hta eq_refl).
  simpl str in H2. rewrite Ha, Hb, date_lt_days in H2 by done.
  unfold selection in H2.
  rewrite (rangeClass_days Hsteady nowDay d _ n Hd).
  case_bool_decide as Hlt; injection H2 as -> ->; simpl str.
  - rewrite Ha, Hb. split.
    + intros (n1 & n2 & [= <-] & [= <-] & Hn). lia.
    + intros Hn. exists nb, na. repeat split; lia.
  - rewrite Ha, Hb. split.
    + intros (n1 & n2 & [= <-] & [= <-] & Hn). lia.
    + intros Hn. exists na, nb. repeat split; lia.
Qed.
End classes.

Lemma cellClasses_marks_witness :
  wellFormed (app readyWorld)
  ∧ @cellClasses cet2024 19813 None (app readyWorld) = "pointer-events-none"
  ∧ (startClass ∈ @cellClassList cet2024 19813 "2024-03-30" (app readyWorld))
  ∧ (endClass ∈ @cellClassList cet2024 19813 "2024-04-01" (app readyWorld))
  ∧ (todayClass ∈ @cellClassList cet2024 19813 "2024-03-31" (app readyWorld)).
Proof.
  assert (Hwf : wellFormed (app readyWorld)) by (intros _; reflexivity).
  destruct (cellClasses_marks (tz := cet2024) 19813 (app readyWorld) Hwf)
    as [Hnone Hdate].
  split; [exact Hwf |]. split; [by apply Hnone |].
  destruct (Hdate "2024-03-30") as (_ & _ & _ & _ & Hs & _); [done |].
  destruct (Hdate "2024-04-01") as (_ & _ & _ & _ & _ & He); [done |].
  destruct (Hdate "2024-03-31") as (_ & _ & _ & Ht & _); [done |].
  split; [by apply Hs |]. split; [by apply He |]. apply Ht. by vm_compute.
Defined.

Lemma cellClasses_range_witness :
  steadyOffsets cet2024
  ∧ @parseYMD cet2024 "2024-03-31" = LocalMidnight 19813
  ∧ @parseYMD cet2024 (str (selectStart (app readyWorld))) = LocalMidnight 19812
  ∧ @parseYMD cet2024 (str (selectEnd (app readyWorld))) = LocalMidnight 19814
  ∧ (rangeClass ∈ @cellClassList cet2024 19813 "2024-03-31" (app readyWorld)).
Proof.
  assert (Hd : @parseYMD cet2024 "2024-03-31" = LocalMidnight 19813) by by vm_compute.
  assert (H1 : @parseYMD cet2024 (str (selectStart (app readyWorld)))
               = LocalMidnight 19812) by by vm_compute.
  assert (H2 : @parseYMD cet2024 (str (selectEnd (app readyWorld)))
               = LocalMidnight 19814) by by vm_compute.
  split; [exact cet2024_steady |]. split; [exact Hd |]. split; [exact H1 |].
  split; [exact H2 |].
  destruct (cellClasses_range (tz := cet2024) cet2024_steady 19813 (app readyWorld)
              "2024-03-31" 19813 Hd) as [Hin _].
  apply (Hin 19812 19814 H1 H2). lia.
Defined.

Lemma two_clicks_highlight_witness :
  steadyOffsets cet2024
  ∧ truthy (selectStart initialState) = false
  ∧ @parseYMD cet2024 "2024-04-01" = LocalMidnight 19814
  ∧ @parseYMD cet2024 "2024-03-30" = LocalMidnight 19812
  ∧ @parseYMD cet2024 "2024-03-31" = LocalMidnight 19813
  ∧ (rangeClass ∈ @cellClassList cet2024 19813 "2024-03-31"
       (@onDayClick cet2024 (Some "2024-03-30")
          (@onDayClick cet2024 (Some "2024-04-01") initialState))).
Proof.
  assert (Ha : @parseYMD cet2024 "2024-04-01" = LocalMidnight 19814) by by vm_compute.
  assert (Hb : @parseYMD cet2024 "2024-03-30" = LocalMidnight 19812) by by vm_compute.
  assert (Hd : @parseYMD cet2024 "2024-03-31" = LocalMidnight 19813) by by vm_compute.
  split; [exact cet2024_steady |]. split; [reflexivity |]. split; [exact Ha |].
  split; [exact Hb |]. split; [exact Hd |].
  apply (two_clicks_highlight (tz := cet2024) cet2024_steady 19813 initialState
           "2024-04-01" "2024-03-30" "2024-03-31" 19814 19812 19813
           eq_refl Ha Hb Hd).
  lia.
Defined.
